(** * shadowAI hub (server.js): pairing store, history store, relay, orchestrator

    A shallow embedding of the coordination hub in [server.js] and the
    properties its specification states about it.

    Conventions of the embedding.
    - A JavaScript string is a [string]; every character stands for one
      code unit below 256.
    - The module-level object [pairs] is an object literal, or what
      [savePairs] wrote and [loadPairs] read back: its own properties are a
      finite map from device ids to edge lists.  Reading [pairs[id]] finds
      the own list, or a member inherited from [Object.prototype] when [id]
      names one, or nothing; a call that meets an inherited member throws,
      and the store is then as the statements before the throw left it.
    - Values produced by [JSON.parse] are terms of [json]; [JSON.parse] and
      [JSON.stringify] themselves are library code and enter as parameters.
    - The disk is a finite map from paths to file contents; directories are
      not represented ([mkdirSync] has no observable effect here), and disk
      operations do not fail.
    - Every handler is a function from the hub state to the new state and the
      list of effects it issued, in program order.  Node runs a handler to
      its next [await] without interleaving; a handler that awaits the AI
      backend is therefore cut at the [await] into a part before and a part
      after, and the outcome of the backend is an input of the second part.
    - An exception that a handler does not catch ends it; it is recorded as
      the handler's last effect, and the state is as the statements before
      the throw left it.
    - socket.io delivers [io.emit] to every connection, [socket.emit] to the
      socket of the handler, and [io.to(id).emit] to the room [id]; a socket is
      in the room of its own id and the hub joins no other room. *)

From Stdlib Require Import ZArith Ascii String List Bool Lia DecimalString.
From stdpp Require Import gmap strings list fin_maps.
Import ListNotations.
Open Scope string_scope.
Open Scope list_scope.

(** String concatenation ([+] on JavaScript strings, template literals). *)
Infix "+:+" := String.append (at level 60, right associativity).

(* ===================================================================== *)
(** ** Pairing store ([pairs], [addPair], [removePair]) *)
(* ===================================================================== *)

Module PairingStore.

(** One entry of an adjacency list: [{ id: partnerDeviceId, name: partnerName }]. *)
Record Edge := mkEdge { id : string; name : string }.

(** [let pairs = {}]: the own properties of the object, device id -> list of
    edges. *)
Abbreviation Pairs := (gmap string (list Edge)).

(** The names an object literal inherits from [Object.prototype]. *)
Definition inherited (k : string) : bool :=
  existsb (String.eqb k)
    ["constructor"; "__defineGetter__"; "__defineSetter__"; "hasOwnProperty";
     "__lookupGetter__"; "__lookupSetter__"; "isPrototypeOf";
     "propertyIsEnumerable"; "toString"; "valueOf"; "__proto__";
     "toLocaleString"].

(** What [pairs[k]] reads: an own list, a member inherited from
    [Object.prototype] (a function, or the prototype itself for [__proto__]:
    truthy, and without [find] or [filter]), or [undefined]. *)
Inductive Slot :=
| Own (l : list Edge)
| Member
| Absent.

Definition slot (k : string) (m : Pairs) : Slot :=
  match m !! k with
  | Some l => Own l
  | None => if inherited k then Member else Absent
  end.

(** How a call ends: it returns, or a [TypeError] leaves it. *)
Inductive Outcome :=
| Returned
| Threw (msg : string).

(** [l.find(p => p.id === x)] is not [undefined]. *)
Definition finds (x : string) (l : list Edge) : bool :=
  existsb (fun p => String.eqb (id p) x) l.

(** [l.filter(p => p.id !== x)]. *)
Definition without (x : string) (l : list Edge) : list Edge :=
  List.filter (fun p => negb (String.eqb (id p) x)) l.

(** [if (!pairs[k]) pairs[k] = [];] (an array, even empty, is truthy, and so
    is an inherited member). *)
Definition ensure (k : string) (m : Pairs) : Pairs :=
  match slot k m with
  | Absent => <[k := []]> m
  | Own _ | Member => m
  end.

(** [if (!pairs[k].find(p => p.id === peer)) pairs[k].push({ id: peer, name: nm });]
    [None] when the call of [find] throws: an inherited member has none.
    The slot is not [undefined] whenever this runs (it follows [ensure]). *)
Definition push_new (k peer nm : string) (m : Pairs) : option Pairs :=
  match slot k m with
  | Own l => Some (if finds peer l then m else <[k := l ++ [mkEdge peer nm]]> m)
  | Member | Absent => None
  end.

(** [if (pairs[k]) pairs[k] = pairs[k].filter(p => p.id !== peer);]
    [None] when the call of [filter] throws. *)
Definition drop_edge (k peer : string) (m : Pairs) : option Pairs :=
  match slot k m with
  | Own l => Some (<[k := without peer l]> m)
  | Member => None
  | Absent => Some m
  end.

(** [addPair(idA, nameA, idB, nameB)], statement by statement: the store it
    leaves and how it ends.  The closing [savePairs()] is reached when
    nothing threw; it writes the map to disk and leaves [pairs] as it is. *)
Definition addPair (idA nameA idB nameB : string) (m : Pairs) : Pairs * Outcome :=
  let m1 := ensure idA m in
  let m2 := ensure idB m1 in
  match push_new idA idB nameB m2 with
  | None => (m2, Threw "pairs[idA].find is not a function")
  | Some m3 =>
      match push_new idB idA nameA m3 with
      | None => (m3, Threw "pairs[idB].find is not a function")
      | Some m4 => (m4, Returned)
      end
  end.

(** [removePair(idA, idB)], in the same way. *)
Definition removePair (idA idB : string) (m : Pairs) : Pairs * Outcome :=
  match drop_edge idA idB m with
  | None => (m, Threw "pairs[idA].filter is not a function")
  | Some m1 =>
      match drop_edge idB idA m1 with
      | None => (m1, Threw "pairs[idB].filter is not a function")
      | Some m2 => (m2, Returned)
      end
  end.

(** The edge list stored for a device: the own list of [pairs[k]], or none. *)
Definition edgesOf (k : string) (m : Pairs) : list Edge :=
  match m !! k with
  | Some l => l
  | None => []
  end.

(** [edgesOf(a)] contains an entry whose id is [b]. *)
Definition linked (m : Pairs) (a b : string) : Prop :=
  finds b (edgesOf a m) = true.

(** Number of entries for [b] in a list. *)
Definition entries (b : string) (l : list Edge) : nat :=
  length (List.filter (fun p => String.eqb (id p) b) l).

(** What the guarded [push] of [addPair] does to one list. *)
Definition add_if_missing (peer nm : string) (l : list Edge) : list Edge :=
  if finds peer l then l else l ++ [mkEdge peer nm].

(** The mutations of the store. *)
Inductive PairOp :=
| OpAdd (idA nameA idB nameB : string)
| OpRemove (idA idB : string).

(** The store after a call, however the call ended. *)
Definition apply_op (m : Pairs) (o : PairOp) : Pairs :=
  match o with
  | OpAdd a na b nb => fst (addPair a na b nb m)
  | OpRemove a b => fst (removePair a b m)
  end.

Definition run (ops : list PairOp) (m : Pairs) : Pairs :=
  fold_left apply_op ops m.

(** [pairs[k]] reads an inherited member. *)
Definition clash (k : string) (m : Pairs) : bool :=
  match slot k m with
  | Member => true
  | Own _ | Absent => false
  end.

(** The ids of the call name no inherited member. *)
Definition plain_op (o : PairOp) : Prop :=
  match o with
  | OpAdd a _ b _ => inherited a = false /\ inherited b = false
  | OpRemove a b => inherited a = false /\ inherited b = false
  end.

(** Mirror entries on both sides. *)
Definition symmetric (m : Pairs) : Prop :=
  forall a b, linked m a b <-> linked m b a.

(** No list holds two entries for the same partner. *)
Definition duplicate_free (m : Pairs) : Prop :=
  forall a b, entries b (edgesOf a m) <= 1.

End PairingStore.

(* ===================================================================== *)
(** ** JavaScript values and string primitives used by the hub *)
(* ===================================================================== *)

Module Js.

(** A value as [JSON.parse] builds it.  An object keeps its keys in insertion
    order, each key once.  Numbers are kept to the integers; the hub's own
    records hold strings and arrays only. *)
#[warnings="-register-all"]
Inductive json :=
| JNull
| JBool (b : bool)
| JNum (n : Z)
| JStr (s : string)
| JArr (items : list json)
| JObj (fields : list (string * json)).

(** Normal or abrupt completion of a piece of code ([throw new Error(msg)]). *)
Inductive completion (A : Type) :=
| Normal (a : A)
| Thrown (msg : string).
Arguments Normal {A} a.
Arguments Thrown {A} msg.

#[global] Instance completion_ret : MRet completion := fun A a => Normal a.
#[global] Instance completion_bind : MBind completion := fun A B f c =>
  match c with
  | Normal a => f a
  | Thrown msg => Thrown msg
  end.

(** [fields[k]] of an object; [None] is [undefined]. *)
Fixpoint assoc (k : string) (fields : list (string * json)) : option json :=
  match fields with
  | [] => None
  | (k', v) :: rest => if String.eqb k' k then Some v else assoc k rest
  end.

(** [o[k] = v] on an object: an existing key keeps its place, a new key goes
    last. *)
Fixpoint set_field (k : string) (v : json) (fields : list (string * json))
  : list (string * json) :=
  match fields with
  | [] => [(k, v)]
  | (k', v') :: rest =>
      if String.eqb k' k then (k, v) :: rest else (k', v') :: set_field k v rest
  end.

(** A property whose value is [undefined] reads like a missing one and is
    left out by [JSON.stringify] and by socket.io; it is not stored. *)
Definition opt_field (k : string) (v : option json) : list (string * json) :=
  match v with
  | Some x => [(k, x)]
  | None => []
  end.

(** Truthiness of a property read ([!x], [x || d], [if (x)]). *)
Definition truthy (v : option json) : bool :=
  match v with
  | None => false
  | Some JNull => false
  | Some (JBool b) => b
  | Some (JNum n) => negb (Z.eqb n 0)
  | Some (JStr s) => negb (String.eqb s "")
  | Some (JArr _) => true
  | Some (JObj _) => true
  end.

(** [s || d] for an optional string. *)
Definition or_default (s : option string) (d : string) : string :=
  match s with
  | Some x => if String.eqb x "" then d else x
  | None => d
  end.

(** [v.id === wanted] for a string [wanted].  Reading a property of [null]
    throws; numbers, strings, booleans and arrays have no [id]. *)
Definition id_is (wanted : string) (v : json) : completion bool :=
  match v with
  | JNull => Thrown "Cannot read properties of null (reading 'id')"
  | JObj fields =>
      match assoc "id" fields with
      | Some (JStr s) => Normal (String.eqb s wanted)
      | _ => Normal false
      end
  | _ => Normal false
  end.

(** [if (!o.thread) o.thread = []; o.thread.push(entry);] on the object [o];
    [None] when the call of [push] throws a [TypeError]: a truthy [thread]
    that is not an array has no [push].  It only runs on a value whose [id]
    is a string, hence on an object. *)
Definition push_thread (entry : json) (v : json) : option json :=
  match v with
  | JObj fields =>
      let fields1 :=
        if truthy (assoc "thread" fields) then fields
        else set_field "thread" (JArr []) fields in
      match assoc "thread" fields1 with
      | Some (JArr items) =>
          Some (JObj (set_field "thread" (JArr (items ++ [entry])) fields1))
      | _ => None
      end
  | _ => None
  end.

(** The [thread] of a record as a sequence (empty when there is none yet). *)
Definition thread_of (v : json) : list json :=
  match v with
  | JObj fields =>
      match assoc "thread" fields with
      | Some (JArr items) => items
      | _ => []
      end
  | _ => []
  end.

(** The [id] property of a record. *)
Definition id_of (v : json) : option json :=
  match v with
  | JObj fields => assoc "id" fields
  | _ => None
  end.

(** *** Strings *)

Definition LF : ascii := ascii_of_nat 10.
Definition nl : string := String LF "".

(** White space and line terminators stripped by [String.prototype.trim]
    (those below 256): TAB, LF, VT, FF, CR, SP, NBSP. *)
Definition is_ws (c : ascii) : bool :=
  let n := nat_of_ascii c in
  (Nat.leb 9 n && Nat.leb n 13) || Nat.eqb n 32 || Nat.eqb n 160.

Fixpoint trim_start (s : string) : string :=
  match s with
  | EmptyString => EmptyString
  | String c rest => if is_ws c then trim_start rest else s
  end.

Fixpoint trim_end (s : string) : string :=
  match s with
  | EmptyString => EmptyString
  | String c rest =>
      match trim_end rest with
      | EmptyString => if is_ws c then EmptyString else String c EmptyString
      | rest' => String c rest'
      end
  end.

(** [s.trim()]. *)
Definition trim (s : string) : string := trim_end (trim_start s).

(** [s.split(sep)] for a one-character separator: never the empty list. *)
Fixpoint split (sep : ascii) (s : string) : list string :=
  match s with
  | EmptyString => [EmptyString]
  | String c rest =>
      if Ascii.eqb c sep then EmptyString :: split sep rest
      else match split sep rest with
           | piece :: pieces => String c piece :: pieces
           | [] => [String c EmptyString]
           end
  end.

(** [lines.join('\n')]. *)
Fixpoint join (lines : list string) : string :=
  match lines with
  | [] => EmptyString
  | [l] => l
  | l :: rest => l +:+ nl +:+ join rest
  end.

(** [if (line)], [filter(l => l)]: a string is truthy unless empty. *)
Definition nonempty (s : string) : bool := negb (String.eqb s "").

(** Decimal rendering of a length in a template literal. *)
Definition show_nat (n : nat) : string :=
  DecimalString.NilEmpty.string_of_uint (Nat.to_uint n).

End Js.

(* ===================================================================== *)
(** ** The hub: state, effects, history store, orchestrator, relay *)
(* ===================================================================== *)

Module Hub.
Import Js.

(** [config]: the keys the handlers read. *)
Record Config := mkConfig {
  GEMINI_API_KEY : string;
  OLLAMA_BASE_URL : string;
  DEFAULT_PROVIDER : string
}.

(** Module state reached by the history store and the orchestrator: [config],
    the files under [__dirname] (path relative to it -> content), and the
    array [history]. *)
Record State := mkState {
  config : Config;
  disk : gmap string string;
  history : list json
}.

Definition set_disk (d : gmap string string) (st : State) : State :=
  mkState (config st) d (history st).

Definition set_history (h : list json) (st : State) : State :=
  mkState (config st) (disk st) h.

(** *** Provider gateway ([askGemini], [askOllama]) *)

Inductive Backend := Gemini | Ollama.

(** What goes over the network to a backend. *)
Record BackendRequest := mkRequest {
  rq_backend : Backend;
  rq_model : option string;
  rq_prompt : string;
  rq_image : option string
}.

(** The helper either throws before reaching the network or sends a
    request and awaits its outcome. *)
Inductive Call :=
| Refused (msg : string)
| Sent (req : BackendRequest).

(** [context ? `Context:\n${context}\n\nQuestion: ${prompt}` : prompt]. *)
Definition full_prompt (prompt : string) (context : option string) : string :=
  match context with
  | Some c =>
      if nonempty c
      then "Context:" +:+ nl +:+ c +:+ nl +:+ nl +:+ "Question: " +:+ prompt
      else prompt
  | None => prompt
  end.

Definition gemini_error (m : string) : string := "Gemini API Error: " +:+ m.
Definition ollama_error (m : string) : string := "Ollama API Error: " +:+ m.

(** [askGemini(prompt, modelName, imageBuffer, context)] up to its [await]. *)
Definition askGemini (cfg : Config) (prompt : string) (modelName : option string)
    (imageBuffer : option string) (context : option string) : Call :=
  if String.eqb (GEMINI_API_KEY cfg) ""
  then Refused (gemini_error "Gemini API Key is missing in settings.")
  else Sent (mkRequest Gemini (Some (or_default modelName "gemini-1.5-flash"))
               (match imageBuffer with
                | Some _ => prompt
                | None => full_prompt prompt context
                end)
               imageBuffer).

(** [askOllama(prompt, modelName, imageBuffer, context)] up to its [await]. *)
Definition askOllama (prompt : string) (modelName : option string)
    (imageBuffer : option string) (context : option string) : Call :=
  Sent (mkRequest Ollama modelName
          (match imageBuffer with
           | Some _ => prompt
           | None => full_prompt prompt context
           end)
          imageBuffer).

(** The helper after its [await]: [raw] is what the backend round trip gave,
    a text or the message of the failure; a failure is rethrown with the
    backend's prefix. *)
Definition settle (c : Call) (raw : completion string) : completion string :=
  match c with
  | Refused msg => Thrown msg
  | Sent req =>
      match raw with
      | Normal text => Normal text
      | Thrown m =>
          Thrown (match rq_backend req with
                  | Gemini => gemini_error m
                  | Ollama => ollama_error m
                  end)
      end
  end.

(** Body of an HTTP response. *)
Inductive Body :=
| Text (s : string)
| Json (v : json).

(** What a handler does to the outside, in program order. *)
Inductive Effect :=
| Broadcast (event : string) (args : list json)       (* io.emit(event, ...) *)
| ToRoom (room event : string) (args : list json)     (* io.to(room).emit(event, ...) *)
| Reply (event : string) (args : list json)           (* socket.emit(event, ...) *)
| Respond (status : nat) (body : Body)                (* res.status(n).send(..), res.json(..) *)
| Console (level : string) (parts : list string)      (* console.warn / log / error *)
| DiskWrite (path : string)                           (* fs.writeFileSync / appendFileSync *)
| Await (c : Call)                                    (* await askGemini(..) / askOllama(..) *)
| ReplyMember (event key : string)                    (* socket.emit(event, Object.prototype[key]) *)
| Uncaught (msg : string).                            (* an exception leaves the handler *)

(** The [console.error] in the [catch] of the helper, before it rethrows:
    the label of the backend and the message of the error caught.  Only
    [askGemini] throws before it reaches the network, on the missing key.
    The line is listed with the effects of the handler's part that follows
    its [await], ahead of what the handler's own [catch] does. *)
Definition helper_log (c : Call) (raw : completion string) : list Effect :=
  match c with
  | Refused _ =>
      [Console "error" ["Gemini Error:"; "Gemini API Key is missing in settings."]]
  | Sent req =>
      match raw with
      | Normal _ => []
      | Thrown m =>
          [Console "error" [match rq_backend req with
                            | Gemini => "Gemini Error:"
                            | Ollama => "Ollama Error:"
                            end; m]]
      end
  end.

(** [path.join(dir, name)] for a directory and a plain file name. *)
Definition path_join (dir name : string) : string := dir +:+ "/" +:+ name.

(** [fs.writeFileSync(path, content)]. *)
Definition writeFileSync (path content : string) (st : State) : State :=
  set_disk (<[path := content]> (disk st)) st.

(** [fs.appendFileSync(path, text)]: creates the file when it is missing. *)
Definition appendFileSync (path text : string) (st : State) : State :=
  let old := match disk st !! path with Some c => c | None => "" end in
  set_disk (<[path := old +:+ text]> (disk st)) st.

(** [getDailyPath()], given [new Date().toISOString()]: the pair
    [(fullPath, webPath)]. *)
Definition getDailyPath (nowIso : string) : string * string :=
  let folderName := hd "" (split "T" nowIso) in
  ("public/history/" +:+ folderName, "/history/" +:+ folderName).

(** The day's log file. *)
Definition jsonlPath (nowIso : string) : string :=
  path_join (fst (getDailyPath nowIso)) "data.jsonl".

(** *** Relay *)

(** The point-to-point messages, with the target the sender names. *)
Inductive Signal :=
| signal_offer (targetId : string) (sdp : option json)
| signal_answer (targetId : string) (sdp : option json)
| signal_ice (targetId : string) (candidate : option json)
| request_stream (targetId : string)
| stop_stream (targetId : string)
| request_remote_capture (targetSocketId : string).

Definition target_of (msg : Signal) : string :=
  match msg with
  | signal_offer t _ | signal_answer t _ | signal_ice t _
  | request_stream t | stop_stream t | request_remote_capture t => t
  end.

(** The six relay handlers of the socket [sid]. *)
Definition relay (sid : string) (msg : Signal) : list Effect :=
  match msg with
  | request_remote_capture targetSocketId =>
      [ToRoom targetSocketId "trigger_check" []]
  | signal_offer targetId sdp =>
      [ToRoom targetId "signal_offer"
         [JObj (("originId", JStr sid) :: opt_field "sdp" sdp)]]
  | signal_answer targetId sdp =>
      [ToRoom targetId "signal_answer"
         [JObj (("originId", JStr sid) :: opt_field "sdp" sdp)]]
  | signal_ice targetId candidate =>
      [ToRoom targetId "signal_ice"
         [JObj (("originId", JStr sid) :: opt_field "candidate" candidate)]]
  | request_stream targetId =>
      [ToRoom targetId "request_stream" [JObj [("requesterId", JStr sid)]]]
  | stop_stream targetId =>
      [ToRoom targetId "stop_stream" [JObj [("requesterId", JStr sid)]]]
  end.

Definition on_signal (sid : string) (msg : Signal) (st : State)
  : State * list Effect :=
  (st, relay sid msg).

(** Who receives an effect, for the live connections [live] and the socket
    [self] whose handler runs.  socket.io puts every socket in the room named
    by its own id; the hub never joins a socket to another room. *)
Definition recipients (live : gset string) (self : string) (e : Effect)
  : gset string :=
  match e with
  | Broadcast _ _ => live
  | ToRoom room _ _ => if decide (room ∈ live) then {[room]} else ∅
  | Reply _ _ | ReplyMember _ _ => {[self]}
  | Respond _ _ | Console _ _ | DiskWrite _ | Await _ | Uncaught _ => ∅
  end.

(** The event name an effect carries to a connection. *)
Definition event_of (e : Effect) : option string :=
  match e with
  | Broadcast ev _ | ToRoom _ ev _ | Reply ev _ | ReplyMember ev _ => Some ev
  | Respond _ _ | Console _ _ | DiskWrite _ | Await _ | Uncaught _ => None
  end.

(** *** History store and orchestrator *)

(** [history.unshift(r); if (history.length > 50) history.pop();] *)
Definition unshift_capped (r : json) (h : list json) : list json :=
  let h1 := r :: h in
  if Nat.ltb 50 (length h1) then removelast h1 else h1.

(** The multipart request of [POST /analyze]. *)
Record Upload := mkUpload {
  file : option string;
  provider : option string;
  modelName : option string
}.

(** The clock readings of one capture, in the order they are taken:
    [toLocaleTimeString()], [dateObj.toISOString()], the date of
    [getDailyPath], and the two [Date.now()] in decimal. *)
Record CaptureClock := mkCaptureClock {
  c_localeTime : string;
  c_dateIso : string;
  c_dayIso : string;
  c_fileNow : string;
  c_scanNow : string
}.

(** The prompt of a capture; the backend gets it unread (its apostrophe is
    U+2019, kept here as the bytes of its UTF-8 form). *)
Definition persona : string :=
  "You are a college student submitting an Internal Assessment (IA) for a Master’s level course. Solve this Step-by-Step. Be academic, concise, and professional.".

(** The backend call of a capture. *)
Definition capture_call (cfg : Config) (req : Upload) (buffer : string) : Call :=
  if bool_decide (provider req = Some "gemini")
  then askGemini cfg persona (modelName req) (Some buffer) None
  else askOllama persona (Some (or_default (modelName req) "llama3")) (Some buffer) None.

(** The locals of [/analyze] that live across its [await]. *)
Record Pending := mkPending {
  p_call : Call;
  p_scanId : string;
  p_imageUrl : string;
  p_provider : option string;
  p_modelName : option string;
  p_timestamp : string;
  p_rawDate : string;
  p_fullPath : string
}.

(** [resultData]. *)
Definition result_data (p : Pending) (answer : string) : json :=
  JObj ([("id", JStr (p_scanId p));
         ("image", JStr (p_imageUrl p));
         ("answer", JStr answer)]
        ++ opt_field "provider" (JStr <$> p_provider p)
        ++ opt_field "model" (JStr <$> p_modelName p)
        ++ [("timestamp", JStr (p_timestamp p));
            ("rawDate", JStr (p_rawDate p))]).

(** The locals of a capture with upload [buffer]. *)
Definition pending_of (cfg : Config) (req : Upload) (clk : CaptureClock)
    (buffer : string) : Pending :=
  let '(fullPath, webPath) := getDailyPath (c_dayIso clk) in
  let fileName := c_fileNow clk +:+ ".jpg" in
  mkPending (capture_call cfg req buffer)
            (c_scanNow clk)
            (webPath +:+ "/" +:+ fileName)
            (provider req) (modelName req)
            (c_localeTime clk) (c_dateIso clk) fullPath.

(** Where a capture stores its image. *)
Definition image_path (clk : CaptureClock) : string :=
  path_join (fst (getDailyPath (c_dayIso clk))) (c_fileNow clk +:+ ".jpg").

(** [/analyze] up to the [await]: store the image, announce the scan, call
    the backend and suspend. *)
Definition analyze_begin (req : Upload) (clk : CaptureClock) (st : State)
  : State * list Effect * option Pending :=
  match file req with
  | None => (st, [Respond 400 (Text "No image")], None)
  | Some buffer =>
      let p := pending_of (config st) req clk buffer in
      let filePath := image_path clk in
      let st1 := writeFileSync filePath buffer st in
      (st1,
       [DiskWrite filePath;
        Broadcast "new_scan"
          [JObj [("id", JStr (p_scanId p)); ("image", JStr (p_imageUrl p))]];
        Await (p_call p)],
       Some p)
  end.

Section Json.

(** [JSON.parse] (it throws on text that is not JSON) and [JSON.stringify]. *)
Variable JSON_parse : string -> completion json.
Variable JSON_stringify : json -> string.

(** [/analyze] from the [await] on; [raw] is the backend's outcome. *)
Definition analyze_resume (p : Pending) (raw : completion string) (st : State)
  : State * list Effect :=
  match settle (p_call p) raw with
  | Normal answer =>
      let resultData := result_data p answer in
      let path := path_join (p_fullPath p) "data.jsonl" in
      let st1 := appendFileSync path (JSON_stringify resultData +:+ nl) st in
      let h := unshift_capped resultData (history st1) in
      (set_history h st1,
       [DiskWrite path;
        Broadcast "new_answer" [resultData];
        Broadcast "history_update" [JArr h];
        Respond 200 (Json (JObj [("success", JBool true)]))])
  | Thrown msg =>
      (st,
       helper_log (p_call p) raw ++
       [Console "error" [msg];
        Broadcast "scan_failed" [];
        Broadcast "error" [JObj [("message", JStr msg)]];
        Respond 500 (Text msg)])
  end.

(** A capture that no other handler interleaves with. *)
Definition analyze (req : Upload) (clk : CaptureClock) (raw : completion string)
    (st : State) : State * list Effect :=
  match analyze_begin req clk st with
  | (st1, out1, Some p) =>
      let '(st2, out2) := analyze_resume p raw st1 in (st2, out1 ++ out2)
  | (st1, out1, None) => (st1, out1)
  end.

(** One round of the [forEach] in [loadHistory]. *)
Definition load_line (acc : list json * list Effect) (line : string)
  : list json * list Effect :=
  let '(h, out) := acc in
  if nonempty line then
    match JSON_parse line with
    | Normal v => (v :: h, out)
    | Thrown msg =>
        (h, out ++ [Console "warn" ["Skipping malformed history line:"; msg]])
    end
  else (h, out).

(** [loadHistory()], with the date [getDailyPath] reads. *)
Definition loadHistory (nowIso : string) (st : State) : State * list Effect :=
  let path := jsonlPath nowIso in
  match disk st !! path with
  | Some data =>
      let lines := split LF (trim data) in
      let '(h1, out) := fold_left load_line lines (history st, []) in
      let h2 := if Nat.ltb 50 (length h1) then firstn 50 h1 else h1 in
      (set_history h2 st,
       out ++ [Console "log"
                 ["Loaded " +:+ show_nat (length h2) +:+ " items from history."]])
  | None => (st, [])
  end.

(** The payload of [ask_followup]. *)
Record FollowUp := mkFollowUp {
  parentId : string;
  prompt : string;
  historyContext : option string;
  model : option string;
  webSearch : bool
}.

Definition web_search_preamble : string :=
  "You have access to real-time web information. Research this question using the internet, then provide a comprehensive, well-synthesized answer in your own words. Do NOT simply copy-paste from sources - analyze, summarize, and explain the information clearly. Cite sources when relevant."
  +:+ nl +:+ nl +:+ "Question: ".

(** [ask_followup] up to its [await]: the backend call. *)
Definition followup_begin (data : FollowUp) (st : State) : Call :=
  let context := or_default (historyContext data) "No previous context." in
  let enhancedPrompt :=
    if webSearch data then web_search_preamble +:+ prompt data else prompt data in
  if String.eqb (DEFAULT_PROVIDER (config st)) "gemini"
  then askGemini (config st) enhancedPrompt
         (Some (or_default (model data) "gemini-1.5-flash")) None (Some context)
  else askOllama enhancedPrompt
         (Some (or_default (model data) "llama3")) None (Some context).

(** [{ prompt: data.prompt, answer: reply, timestamp }]. *)
Definition thread_entry (data : FollowUp) (reply timestamp : string) : json :=
  JObj [("prompt", JStr (prompt data));
        ("answer", JStr reply);
        ("timestamp", JStr timestamp)].

(** [const item = history.find(h => h.id === data.parentId);
     if (item) { if (!item.thread) item.thread = []; item.thread.push(..) }]
    on the array [h]: the first match is changed in place. *)
Fixpoint update_first (wanted : string) (entry : json) (h : list json)
  : completion (list json) :=
  match h with
  | [] => Normal []
  | v :: rest =>
      found ← id_is wanted v;
      if (found : bool)
      then match push_thread entry v with
           | Some v' => Normal (v' :: rest)
           | None => Thrown "item.thread.push is not a function"
           end
      else rest' ← update_first wanted entry rest; Normal (v :: rest')
  end.

(** The callback of [lines.map] in the rewrite of the day's log. *)
Definition rewrite_line (wanted : string) (entry : json) (line : string)
  : string :=
  match JSON_parse line with
  | Normal obj =>
      match id_is wanted obj with
      | Normal true =>
          match push_thread entry obj with
          | Some obj' => JSON_stringify obj'
          | None => line
          end
      | Normal false => line
      | Thrown _ => line
      end
  | Thrown _ => line
  end.

(** The day's log after the rewrite. *)
Definition rewritten (wanted : string) (entry : json) (content : string)
  : string :=
  let lines := List.filter nonempty (split LF (trim content)) in
  let newLines := map (rewrite_line wanted entry) lines in
  join newLines +:+ nl.

(** The [catch] of [ask_followup]. *)
Definition followup_failed (msg : string) : Effect :=
  Reply "error" [JObj [("message", JStr ("Follow-up failed: " +:+ msg))]].

(** [ask_followup] from its [await] on: [c] is the call made, [raw] the
    backend's outcome, [localeTime] and [nowIso] the clock readings taken
    after the reply. *)
Definition followup_resume (data : FollowUp) (c : Call) (raw : completion string)
    (localeTime nowIso : string) (st : State) : State * list Effect :=
  match settle c raw with
  | Thrown msg => (st, helper_log c raw ++ [followup_failed msg])
  | Normal reply =>
      let timestamp := localeTime in
      let shown :=
        Broadcast "followup_result"
          [JObj [("parentId", JStr (parentId data));
                 ("prompt", JStr (prompt data));
                 ("answer", JStr reply);
                 ("timestamp", JStr timestamp)]] in
      let entry := thread_entry data reply timestamp in
      let path := jsonlPath nowIso in
      match update_first (parentId data) entry (history st) with
      | Thrown msg => (st, [shown; followup_failed msg])
      | Normal h =>
          let st1 := set_history h st in
          match disk st1 !! path with
          | Some content =>
              (writeFileSync path (rewritten (parentId data) entry content) st1,
               [shown; DiskWrite path])
          | None => (st1, [shown])
          end
      end
  end.

(** A follow-up that no other handler interleaves with. *)
Definition ask_followup (data : FollowUp) (raw : completion string)
    (localeTime nowIso : string) (st : State) : State * list Effect :=
  let c := followup_begin data st in
  let '(st1, out) := followup_resume data c raw localeTime nowIso st in
  (st1, Await c :: out).

(** *** The hub as a state machine *)

(** What the event loop hands to the hub: an upload arrives, the backend
    call of a capture or of a follow-up settles, a relay message arrives. *)
Inductive Input :=
| capture_received (req : Upload) (clk : CaptureClock)
| capture_settled (p : Pending) (raw : completion string)
| followup_settled (data : FollowUp) (c : Call) (raw : completion string)
                   (localeTime nowIso : string)
| signal_received (sid : string) (msg : Signal).

(** One turn of the event loop. *)
Definition step (i : Input) (st : State) : State * list Effect :=
  match i with
  | capture_received req clk =>
      let '(st1, out, _) := analyze_begin req clk st in (st1, out)
  | capture_settled p raw => analyze_resume p raw st
  | followup_settled data c raw localeTime nowIso =>
      followup_resume data c raw localeTime nowIso st
  | signal_received sid msg => on_signal sid msg st
  end.

(** The state after a sequence of turns. *)
Definition run_inputs (trace : list Input) (st : State) : State :=
  fold_left (fun s i => fst (step i s)) trace st.

End Json.

End Hub.

(* ===================================================================== *)
(** ** Notions used to state the properties *)
(* ===================================================================== *)

Module Notions.
Import Js Hub.

(** The character [c] occurs in [s]. *)
Fixpoint mentions (c : ascii) (s : string) : bool :=
  match s with
  | EmptyString => false
  | String d rest => Ascii.eqb d c || mentions c rest
  end.

Fixpoint last_char (s : string) : option ascii :=
  match s with
  | EmptyString => None
  | String c EmptyString => Some c
  | String _ rest => last_char rest
  end.

Definition starts_ws (s : string) : bool :=
  match s with
  | String c _ => is_ws c
  | EmptyString => false
  end.

Definition ends_ws (s : string) : bool :=
  match last_char s with
  | Some c => is_ws c
  | None => false
  end.

(** A file made of the given lines, each closed by a newline: what
    [appendFileSync(path, line + '\n')], line after line, leaves. *)
Fixpoint content_of (lines : list string) : string :=
  match lines with
  | [] => EmptyString
  | l :: rest => l +:+ nl +:+ content_of rest
  end.

(** A non-empty text without a newline. *)
Definition one_line (l : string) : bool := nonempty l && negb (mentions LF l).

(** Lines that [trim] and [split] give back as they are: at least one line,
    each a [one_line], no white space before the first or after the last. *)
Definition canonical (lines : list string) : Prop :=
  lines <> [] /\
  Forall (fun l => one_line l = true) lines /\
  starts_ws (hd "" lines) = false /\
  ends_ws (List.last lines "") = false.

(** The lines of a day's log as both readers see them:
    [content.trim().split('\n')] without the empty ones. *)
Definition bucket_lines (content : string) : list string :=
  List.filter nonempty (split LF (trim content)).

(** A [thread] that [push_thread] accepts: an array, or a falsy value (none
    yet). *)
Definition thread_ok (fields : list (string * json)) : Prop :=
  match assoc "thread" fields with
  | Some (JArr _) => True
  | other => truthy other = false
  end.

(** A scan record as far as the follow-up code relies on it: an object
    whose [thread], if any, is a sequence. *)
Definition is_record (v : json) : Prop :=
  match v with
  | JObj fields => thread_ok fields
  | _ => False
  end.

(** The creation instant a record carries ([rawDate]). *)
Definition rawDate_of (v : json) : option string :=
  match v with
  | JObj fields =>
      match assoc "rawDate" fields with
      | Some (JStr s) => Some s
      | _ => None
      end
  | _ => None
  end.

(** The effect is addressed to the asking socket alone. *)
Definition to_asker (e : Effect) : bool :=
  match e with
  | Reply _ _ | ReplyMember _ _ => true
  | _ => false
  end.

Section Json.
Variable JSON_parse : string -> completion json.

(** The values [loadHistory] reads from the lines, in file order. *)
Fixpoint parsed (lines : list string) : list json :=
  match lines with
  | [] => []
  | l :: rest =>
      match JSON_parse l with
      | Normal v => v :: parsed rest
      | Thrown _ => parsed rest
      end
  end.

(** The warnings for the lines [JSON.parse] rejects, in file order. *)
Fixpoint warnings (lines : list string) : list Effect :=
  match lines with
  | [] => []
  | l :: rest =>
      match JSON_parse l with
      | Normal _ => warnings rest
      | Thrown msg =>
          Console "warn" ["Skipping malformed history line:"; msg] :: warnings rest
      end
  end.

(** The line holds a record whose id is [wanted]. *)
Definition line_has_id (wanted line : string) : bool :=
  match JSON_parse line with
  | Normal obj =>
      match id_is wanted obj with
      | Normal true => true
      | _ => false
      end
  | Thrown _ => false
  end.

End Json.

(** One capture as the outside supplies it: the upload, the clock readings
    and the backend's outcome. *)
Definition Capture : Type := Upload * CaptureClock * completion string.

(** The record a capture adds to the history, if it succeeds. *)
Definition recorded (cfg : Config) (cap : Capture) : option json :=
  let '(req, clk, raw) := cap in
  match file req with
  | None => None
  | Some buffer =>
      let p := pending_of cfg req clk buffer in
      match settle (p_call p) raw with
      | Normal answer => Some (result_data p answer)
      | Thrown _ => None
      end
  end.

(** Captures handled one after the other. *)
Definition run_captures (JSON_stringify : json -> string)
    (caps : list Capture) (st : State) : State :=
  fold_left (fun s cap => let '(req, clk, raw) := cap in
                          fst (analyze JSON_stringify req clk raw s))
            caps st.

(** The process stops and starts again: the files stay, [history] is the
    empty array of the module's first lines. *)
Definition restart (st : State) : State := mkState (config st) (disk st) [].

(** The clock of the capture reads a date in the day of [nowIso]. *)
Definition on_day (nowIso : string) (cap : Capture) : Prop :=
  jsonlPath (c_dayIso (snd (fst cap))) = jsonlPath nowIso.

(** The scan announcement of a capture. *)
Definition new_scan_of (clk : CaptureClock) : Effect :=
  Broadcast "new_scan"
    [JObj [("id", JStr (c_scanNow clk));
           ("image", JStr (snd (getDailyPath (c_dayIso clk)) +:+ "/"
                           +:+ c_fileNow clk +:+ ".jpg"))]].

(** What the [catch] of [/analyze] does. *)
Definition failure_effects (msg : string) : list Effect :=
  [Console "error" [msg];
   Broadcast "scan_failed" [];
   Broadcast "error" [JObj [("message", JStr msg)]];
   Respond 500 (Text msg)].

(** The log of a day after the records [rs] were appended to it. *)
Definition log_after (JSON_stringify : json -> string)
    (old : option string) (rs : list json) : option string :=
  match rs with
  | [] => old
  | _ => Some (match old with Some c => c | None => "" end
               +:+ content_of (map JSON_stringify rs))
  end.

(** The record a turn of the event loop appends, if any. *)
Definition appended (i : Input) : option json :=
  match i with
  | capture_settled p raw =>
      match settle (p_call p) raw with
      | Normal answer => Some (result_data p answer)
      | Thrown _ => None
      end
  | _ => None
  end.

(** [recent()]: the history window as it is sent to clients. *)
Definition recent (st : State) : list json := history st.

(** The connections that receive at least one of the effects. *)
Definition reached (live : gset string) (self : string) (out : list Effect)
  : gset string :=
  ⋃ (recipients live self <$> out).

End Notions.

(* ===================================================================== *)
(** ** Sample data for the worked examples *)
(* ===================================================================== *)

Module Samples.
Import Js Hub Notions PairingStore.

(** The double quote. *)
Definition dq : string := String (ascii_of_nat 34) "".

Definition quoted (s : string) : string := dq +:+ s +:+ dq.

(** A printer of JSON text for values whose strings need no escape; it
    stands in for [JSON.stringify] in the examples. *)
#[warnings="-register-all"]
Fixpoint print (v : json) : string :=
  match v with
  | JNull => "null"
  | JBool true => "true"
  | JBool false => "false"
  | JNum n =>
      if Z.ltb n 0 then "-" +:+ show_nat (Z.to_nat (Z.opp n)) else show_nat (Z.to_nat n)
  | JStr s => quoted s
  | JArr items =>
      "[" +:+
      (fix go (l : list json) : string :=
         match l with
         | [] => ""
         | [x] => print x
         | x :: rest => print x +:+ "," +:+ go rest
         end) items
      +:+ "]"
  | JObj fields =>
      "{" +:+
      (fix go (l : list (string * json)) : string :=
         match l with
         | [] => ""
         | [(k, x)] => quoted k +:+ ":" +:+ print x
         | (k, x) :: rest => quoted k +:+ ":" +:+ print x +:+ "," +:+ go rest
         end) fields
      +:+ "}"
  end.

(** A reader that knows the printed form of the given values and rejects
    every other text; it stands in for [JSON.parse] in the examples. *)
Fixpoint reader (known : list json) (line : string) : completion json :=
  match known with
  | [] => Thrown "Unexpected token in JSON"
  | v :: rest => if String.eqb (print v) line then Normal v else reader rest line
  end.

Definition cfg : Config := mkConfig "" "http://127.0.0.1:11434" "ollama".

(** A capture taken one second before midnight, with its backend answer. *)
Definition upload : Upload := mkUpload (Some "JPEG") (Some "ollama") (Some "llava").

Definition late_clock : CaptureClock :=
  mkCaptureClock "11:59:59 PM" "2024-01-01T23:59:59.000Z"
                 "2024-01-01T23:59:59.000Z" "1704153599000" "1704153599001".

Definition late_record : json :=
  result_data (pending_of cfg upload late_clock "JPEG") "x = 4".

(** A capture of the next morning. *)
Definition morning_clock : CaptureClock :=
  mkCaptureClock "8:00:00 AM" "2024-01-02T08:00:00.000Z"
                 "2024-01-02T08:00:00.000Z" "1704182400000" "1704182400002".

Definition morning_record : json :=
  result_data (pending_of cfg upload morning_clock "JPEG") "y = 2".

Definition parse : string -> completion json := reader [late_record; morning_record].

Definition day1 : string := "2024-01-01T23:59:59.500Z".
Definition day2 : string := "2024-01-02T00:00:01.000Z".

(** Both records in memory, each in the log of its day. *)
Definition two_days : State :=
  mkState cfg
          (<[jsonlPath day1 := print late_record +:+ nl]>
             (<[jsonlPath day2 := print morning_record +:+ nl]> ∅))
          [morning_record; late_record].


(** Follow-ups on the late record, on the morning record, and on a record
    nobody stored. *)
Definition ask_late : FollowUp :=
  mkFollowUp "1704153599001" "Why?" (Some "x = 4") (Some "llava") false.

Definition ask_morning : FollowUp :=
  mkFollowUp "1704182400002" "Why?" (Some "y = 2") (Some "llava") false.

Definition ask_unknown : FollowUp :=
  mkFollowUp "999" "Why?" (Some "x = 4") (Some "llava") false.

(** A log with a line that is not JSON between two records. *)
Definition damaged_log : string :=
  print late_record +:+ nl +:+ "{oops" +:+ nl +:+ print morning_record +:+ nl.

Definition damaged : State :=
  mkState cfg (<[jsonlPath day2 := damaged_log]> ∅) [].

(** Fifty-one captures in a row, numbered by their instant. *)
Definition numbered_clock (n : nat) : CaptureClock :=
  mkCaptureClock "9:00:00 AM" "2024-01-02T09:00:00.000Z"
                 "2024-01-02T09:00:00.000Z" (show_nat n) (show_nat n).

Definition burst : list Capture :=
  map (fun n => (upload, numbered_clock n, Normal "ok")) (seq 1 51).

Definition burst_records : list json :=
  map (fun n => result_data (pending_of cfg upload (numbered_clock n) "JPEG") "ok")
      (seq 1 51).

Definition empty_hub : State := mkState cfg ∅ [].

(** A short life of the pairing store. *)
Definition pairing_ops : list PairOp :=
  [OpAdd "AAA1" "Phone" "BBB2" "Laptop";
   OpAdd "AAA1" "Phone" "CCC3" "Tablet";
   OpRemove "BBB2" "AAA1";
   OpAdd "CCC3" "Tablet" "AAA1" "Phone"].

End Samples.

(* ===================================================================== *)
(** ** Further notions *)
(* ===================================================================== *)

Module Notions2.
Import Js Hub Notions.

(** A record after a follow-up on [wanted]: with the entry pushed when its
    id matches and the push goes through, as it was otherwise. *)
Definition threaded (wanted : string) (entry : json) (r : json) : json :=
  match id_is wanted r with
  | Normal true =>
      match push_thread entry r with
      | Some r' => r'
      | None => r
      end
  | _ => r
  end.

(** The text reads back as the record, is one line, and has no white space
    at its ends. *)
Definition prints_well (JSON_parse : string -> completion json)
    (JSON_stringify : json -> string) (r : json) : Prop :=
  one_line (JSON_stringify r) = true /\
  starts_ws (JSON_stringify r) = false /\
  ends_ws (JSON_stringify r) = false /\
  JSON_parse (JSON_stringify r) = Normal r.

(** An in-memory item on which the update of a follow-up on [wanted] throws:
    [null], or a match whose [thread] is truthy without being an array. *)
Definition breaks_update (wanted : string) (item : json) : Prop :=
  item = JNull \/
  exists fields t,
    item = JObj fields /\
    id_is wanted item = Normal true /\
    assoc "thread" fields = Some t /\
    truthy (Some t) = true /\
    (forall items, t <> JArr items).

(** The reply of a follow-up as it is broadcast. *)
Definition followup_shown (data : FollowUp) (reply timestamp : string) : Effect :=
  Broadcast "followup_result"
    [JObj [("parentId", JStr (parentId data)); ("prompt", JStr (prompt data));
           ("answer", JStr reply); ("timestamp", JStr timestamp)]].

(** The record answers to the id [wanted]. *)
Definition has_id (wanted : string) (r : json) : bool :=
  match id_is wanted r with
  | Normal true => true
  | _ => false
  end.

(** At most one of the records answers to [wanted]. *)
Definition at_most_once (wanted : string) (rs : list json) : Prop :=
  length (List.filter (has_id wanted) rs) <= 1.

(** The socket.io messages among the effects, in program order. *)
Definition messages (out : list Effect) : list Effect :=
  List.filter (fun e => match event_of e with Some _ => true | None => false end) out.

End Notions2.

(* ===================================================================== *)
(** ** Device registry and pairing handlers *)
(* ===================================================================== *)

Module Registry.
Import Js Hub PairingStore.

(** The object stored per connection by [device_register]:
    [{ id, name, isMobile, hasCamera, deviceId }].  [name] and [deviceId] are
    what the client sent, possibly nothing; the two flags are booleans, as the
    client sends them. *)
Record Device := mkDevice {
  dev_id : string;
  dev_name : option string;
  isMobile : bool;
  hasCamera : bool;
  deviceId : option string
}.

(** [connectedDevices]: a [Map] from socket id to device.  A [Map] keeps its
    keys in insertion order, each key once. *)
Abbreviation Devices := (list (string * Device)).

(** [m.get(k)]. *)
Fixpoint map_get (k : string) (m : Devices) : option Device :=
  match m with
  | [] => None
  | (k', d) :: rest => if String.eqb k' k then Some d else map_get k rest
  end.

(** [m.set(k, d)]: an existing key keeps its place, a new key goes last. *)
Fixpoint map_set (k : string) (d : Device) (m : Devices) : Devices :=
  match m with
  | [] => [(k, d)]
  | (k', d') :: rest =>
      if String.eqb k' k then (k, d) :: rest else (k', d') :: map_set k d rest
  end.

(** [m.delete(k)]. *)
Fixpoint map_delete (k : string) (m : Devices) : Devices :=
  match m with
  | [] => []
  | (k', d') :: rest =>
      if String.eqb k' k then rest else (k', d') :: map_delete k rest
  end.

(** The hub with its three stores: the history side, [pairs] and
    [connectedDevices]. *)
Record Server := mkServer {
  core : State;
  pairs : gmap string (list Edge);
  connectedDevices : Devices
}.

Definition set_devices (m : Devices) (sv : Server) : Server :=
  mkServer (core sv) (pairs sv) m.

Definition set_pairs (p : gmap string (list Edge)) (sv : Server) : Server :=
  mkServer (core sv) p (connectedDevices sv).

(** A device as it travels in [device_list], with the given [id]. *)
Definition device_json (id : string) (d : Device) : json :=
  JObj ([("id", JStr id)]
        ++ opt_field "name" (JStr <$> dev_name d)
        ++ [("isMobile", JBool (isMobile d)); ("hasCamera", JBool (hasCamera d))]
        ++ opt_field "deviceId" (JStr <$> deviceId d)).

(** [Array.from(connectedDevices.values())]: the stored objects. *)
Definition values_list (m : Devices) : json :=
  JArr (map (fun kd => device_json (dev_id (snd kd)) (snd kd)) m).

(** The array built by [broadcastDevices]: the [id] is the key of the entry. *)
Definition entries_list (m : Devices) : json :=
  JArr (map (fun kd => device_json (fst kd) (snd kd)) m).

(** [broadcastDevices()]. *)
Definition broadcastDevices (m : Devices) : Effect :=
  Broadcast "device_list" [entries_list m].

(** An edge list as it travels in [paired_devices_sync]. *)
Definition edges_json (l : list Edge) : json :=
  JArr (map (fun e => JObj [("id", JStr (id e)); ("name", JStr (name e))]) l).

(** The property key [pairs[x]] reads for a device id that may be
    [undefined]. *)
Definition pair_key (x : option string) : string :=
  match x with
  | Some s => s
  | None => "undefined"
  end.

(** The payload of [device_register]. *)
Record Registration := mkRegistration {
  r_name : option string;
  r_isMobile : option bool;
  r_deviceId : option string
}.

(** [io.on('connection')]: the newcomer gets the history window and the
    device list. *)
Definition on_connection (sid : string) (sv : Server) : Server * list Effect :=
  (sv,
   [Console "log" ["Client connected:"; sid];
    Reply "history_update" [JArr (history (core sv))];
    Reply "device_list" [values_list (connectedDevices sv)]]).

(** [socket.on('device_register')]. *)
Definition device_register (sid : string) (data : Registration) (sv : Server)
  : Server * list Effect :=
  let d := mkDevice sid (r_name data)
                    (match r_isMobile data with Some b => b | None => false end)
                    false (r_deviceId data) in
  let m := map_set sid d (connectedDevices sv) in
  (set_devices m sv,
   match slot (pair_key (r_deviceId data)) (pairs sv) with
   | Own l => [Reply "paired_devices_sync" [edges_json l]]
   | Member => [ReplyMember "paired_devices_sync" (pair_key (r_deviceId data))]
   | Absent => []
   end ++ [broadcastDevices m]).

(** [socket.on('request_history')]. *)
Definition request_history (sid : string) (sv : Server) : Server * list Effect :=
  (sv, [Reply "history_update" [JArr (history (core sv))]]).

(** [socket.on('toggle_device_type')]. *)
Definition toggle_device_type (sid : string) (sv : Server) : Server * list Effect :=
  match map_get sid (connectedDevices sv) with
  | Some device =>
      let device' := mkDevice (dev_id device) (dev_name device)
                              (negb (isMobile device)) (hasCamera device)
                              (deviceId device) in
      let m := map_set sid device' (connectedDevices sv) in
      (set_devices m sv, [Broadcast "device_list" [values_list m]])
  | None => (sv, [])
  end.

(** [socket.on('camera_status')], with [data.active]. *)
Definition camera_status (sid : string) (active : bool) (sv : Server)
  : Server * list Effect :=
  match map_get sid (connectedDevices sv) with
  | Some device =>
      let device' := mkDevice (dev_id device) (dev_name device)
                              (isMobile device) active (deviceId device) in
      let m := map_set sid device' (connectedDevices sv) in
      (set_devices m sv, [Broadcast "device_list" [values_list m]])
  | None => (sv, [])
  end.

(** [socket.on('disconnect')]. *)
Definition disconnect (sid : string) (sv : Server) : Server * list Effect :=
  let m := map_delete sid (connectedDevices sv) in
  (set_devices m sv, [Broadcast "device_list" [values_list m]]).

(** [PAIRS_PATH], relative to [__dirname].  [savePairs()] writes
    [JSON.stringify(pairs, null, 2)] there; the text depends on the order in
    which the keys of [pairs] were created, which the finite map does not
    keep, so the write is recorded as an effect and its text is not.  It is
    the last statement of [addPair] and of [removePair], reached when they
    did not throw. *)
Definition PAIRS_PATH : string := "pairs.json".

Definition savePairs : Effect := DiskWrite PAIRS_PATH.

(** The payload of [request_pair]. *)
Record PairRequest := mkPairRequest {
  rp_targetId : string;      (* socket id of the device asked *)
  rp_originId : string;      (* device id of the asker *)
  rp_originName : string
}.

(** [socket.on('request_pair')]. *)
Definition request_pair (sid : string) (data : PairRequest) (sv : Server)
  : Server * list Effect :=
  (sv,
   [ToRoom (rp_targetId data) "pair_request_received"
      [JObj [("originId", JStr (rp_originId data));
             ("originName", JStr (rp_originName data));
             ("originSocketId", JStr sid)]]]).

(** The payload of [pair_accepted]. *)
Record PairAccept := mkPairAccept {
  pa_partnerId : string;     (* socket id of the original asker *)
  pa_partnerName : string;
  pa_targetId : string;      (* device id of the acceptor *)
  pa_targetName : string
}.

(** [partnerSocket ? partnerSocket.deviceId : null], kept when truthy. *)
Definition partner_device (partnerId : string) (m : Devices) : option string :=
  match map_get partnerId m with
  | Some d =>
      match deviceId d with
      | Some s => if nonempty s then Some s else None
      | None => None
      end
  | None => None
  end.

(** [socket.on('pair_accepted')].  The handler has no [try]: when [addPair]
    throws, the exception leaves the handler before anything is sent. *)
Definition pair_accepted (sid : string) (data : PairAccept) (sv : Server)
  : Server * list Effect :=
  match partner_device (pa_partnerId data) (connectedDevices sv) with
  | Some partnerDeviceId =>
      match addPair (pa_targetId data) (pa_targetName data)
                    partnerDeviceId (pa_partnerName data) (pairs sv) with
      | (p, Returned) =>
          (set_pairs p sv,
           [savePairs;
            ToRoom (pa_partnerId data) "pairing_success"
              [JObj [("id", JStr (pa_targetId data));
                     ("name", JStr (pa_targetName data))]];
            ToRoom (pa_partnerId data) "paired_devices_sync"
              [edges_json (edgesOf partnerDeviceId p)];
            Reply "paired_devices_sync" [edges_json (edgesOf (pa_targetId data) p)]])
      | (p, Threw msg) => (set_pairs p sv, [Uncaught msg])
      end
  | None => (sv, [])
  end.




(** The registry events of a connection, and the registry after a sequence of
    them. *)
Inductive RegistryEvent :=
| ev_register (sid : string) (data : Registration)
| ev_toggle (sid : string)
| ev_camera (sid : string) (active : bool)
| ev_disconnect (sid : string).

Definition registry_step (sv : Server) (e : RegistryEvent) : Server :=
  match e with
  | ev_register sid data => fst (device_register sid data sv)
  | ev_toggle sid => fst (toggle_device_type sid sv)
  | ev_camera sid active => fst (camera_status sid active sv)
  | ev_disconnect sid => fst (disconnect sid sv)
  end.

Definition registry_run (events : list RegistryEvent) (sv : Server) : Server :=
  fold_left registry_step events sv.

(** Keys are distinct and every stored object carries its key as [id]. *)
Definition registry_ok (m : Devices) : Prop :=
  NoDup (map fst m) /\ Forall (fun kd => dev_id (snd kd) = fst kd) m.


End Registry.

(* ===================================================================== *)
(** ** Sample data for the registry and pairing examples *)
(* ===================================================================== *)

Module Samples2.
Import Js Hub Notions Notions2 PairingStore Registry Samples.

(** Two devices: a phone on socket [s1], a laptop on socket [s2]. *)
Definition phone : Registration := mkRegistration (Some "Phone") (Some true) (Some "AAA1").
Definition laptop : Registration := mkRegistration (Some "Laptop") None (Some "BBB2").

Definition fresh : Server := mkServer empty_hub ∅ [].

Definition both_online : Server :=
  registry_run [ev_register "s1" phone; ev_register "s2" laptop] fresh.

(** The laptop accepts the phone's request. *)
Definition accept : PairAccept := mkPairAccept "s1" "Phone" "BBB2" "Laptop".

Definition paired : Server := fst (pair_accepted "s2" accept both_online).

(** A morning of registry events. *)
Definition registry_events : list RegistryEvent :=
  [ev_register "s1" phone; ev_register "s2" laptop; ev_camera "s1" true;
   ev_toggle "s2"; ev_register "s1" phone; ev_disconnect "s2"; ev_camera "s2" true].

(** Turns of the event loop: two captures overlap, a follow-up and a relay
    message come in between. *)
Definition overlapped : list Input :=
  [capture_received upload late_clock;
   capture_received upload morning_clock;
   signal_received "s1" (request_stream "s2");
   capture_settled (pending_of cfg upload morning_clock "JPEG") (Normal "y = 2");
   followup_settled ask_morning (followup_begin ask_morning empty_hub)
                    (Normal "because") "8:05:00 AM" "2024-01-02T08:05:00.000Z";
   capture_settled (pending_of cfg upload late_clock "JPEG") (Normal "x = 4")].

(** A log of 51 records, and a reader that knows them. *)
Definition long_log : string := content_of (map print burst_records).

Definition long_day : State :=
  mkState cfg (<[jsonlPath day2 := long_log]> ∅) [].

Definition parse_burst : string -> completion json := reader burst_records.

(** A record whose [thread] is a text, in memory and in the log. *)
Definition odd_record : json :=
  JObj [("id", JStr "7"); ("answer", JStr "z"); ("thread", JStr "oops")].

Definition odd_hub : State :=
  mkState cfg (<[jsonlPath day2 := print odd_record +:+ nl]> ∅) [odd_record].

Definition ask_odd : FollowUp := mkFollowUp "7" "Why?" None None true.

(** A reader that also knows the morning record with its first thread
    entry. *)
Definition morning_threaded : json :=
  threaded (parentId ask_morning) (thread_entry ask_morning "because" "8:05:00 AM")
           morning_record.

Definition parse_threads : string -> completion json :=
  reader [late_record; morning_record; morning_threaded].

(** The log of 2 January holds the morning record alone. *)
Definition morning_only : State :=
  mkState cfg (<[jsonlPath day2 := content_of [print morning_record]]> ∅)
          [morning_record].

(** An upload that names Gemini, on a hub without a key. *)
Definition gemini_upload : Upload := mkUpload (Some "JPEG") (Some "gemini") None.

(** The hub on 2 January after a restart: the window is what that day's log
    gives, and the record of 1 January is in its own log only. *)
Definition next_day : State := fst (loadHistory parse day2 (restart two_days)).

(** The morning record after a first follow-up, in the window and in the log
    of its day, and a second question on it. *)
Definition asked_once : State :=
  mkState cfg (<[jsonlPath day2 := print morning_threaded +:+ nl]> ∅)
          [morning_threaded; late_record].

Definition ask_again : FollowUp :=
  mkFollowUp "1704182400002" "And then?" (Some "y = 2") (Some "llava") false.

End Samples2.
(* ===================================================================== *)
(** ** Facts about the pairing store *)
(* ===================================================================== *)

Module PairingFacts.
Import PairingStore Samples.

Lemma finds_app x l1 l2 : finds x (l1 ++ l2) = finds x l1 || finds x l2.
Proof. unfold finds. apply existsb_app. Qed.

Lemma finds_add_if_missing y peer nm l :
  finds y (add_if_missing peer nm l) = finds y l || String.eqb peer y.
Proof.
  unfold add_if_missing. destruct (finds peer l) eqn:Hf.
  - destruct (String.eqb_spec peer y) as [->|Hne].
    + rewrite Hf. reflexivity.
    + rewrite orb_false_r. reflexivity.
  - rewrite finds_app. simpl. rewrite orb_false_r. reflexivity.
Qed.

Lemma finds_without y peer l :
  finds y (without peer l) = finds y l && negb (String.eqb peer y).
Proof.
  unfold finds, without. induction l as [|p l IH]; simpl; [reflexivity|].
  destruct (String.eqb_spec (id p) peer) as [Hp|Hp]; simpl.
  - rewrite IH. destruct (String.eqb_spec (id p) y) as [Hy|Hy]; simpl.
    + rewrite <- Hp, Hy, String.eqb_refl. simpl. rewrite andb_false_r. reflexivity.
    + reflexivity.
  - rewrite IH. destruct (String.eqb_spec (id p) y) as [Hy|Hy]; simpl.
    + destruct (String.eqb_spec peer y) as [Hq|Hq]; [congruence|reflexivity].
    + reflexivity.
Qed.

Lemma entries_app y l1 l2 : entries y (l1 ++ l2) = entries y l1 + entries y l2.
Proof. unfold entries. rewrite List.filter_app, List.length_app. reflexivity. Qed.

Lemma finds_entries x l : finds x l = true <-> 1 <= entries x l.
Proof.
  unfold finds, entries. induction l as [|p l IH]; simpl.
  - split; [discriminate|lia].
  - destruct (String.eqb (id p) x); simpl; [split; [lia|reflexivity]|exact IH].
Qed.

Lemma entries_add_if_missing y peer nm l :
  entries y (add_if_missing peer nm l) =
  if String.eqb peer y then Nat.max 1 (entries y l) else entries y l.
Proof.
  unfold add_if_missing. destruct (finds peer l) eqn:Hf.
  - destruct (String.eqb_spec peer y) as [->|Hne]; [|reflexivity].
    apply finds_entries in Hf. lia.
  - rewrite entries_app. unfold entries at 2. simpl.
    destruct (String.eqb_spec peer y) as [->|Hne].
    + assert (entries y l = 0) as ->.
      { destruct (entries y l) eqn:E; [reflexivity|].
        assert (finds y l = true) by (apply finds_entries; lia). congruence. }
      reflexivity.
    + simpl. lia.
Qed.

Lemma entries_without y peer l :
  entries y (without peer l) = if String.eqb peer y then 0 else entries y l.
Proof.
  unfold entries, without. induction l as [|p l IH]; simpl.
  - destruct (String.eqb peer y); reflexivity.
  - destruct (String.eqb_spec (id p) peer) as [Hp|Hp]; simpl.
    + rewrite IH. destruct (String.eqb_spec peer y) as [Hy|Hy]; [reflexivity|].
      destruct (String.eqb_spec (id p) y); [congruence|reflexivity].
    + destruct (String.eqb_spec (id p) y) as [Hy|Hy]; simpl; rewrite IH.
      * destruct (String.eqb_spec peer y); [congruence|reflexivity].
      * reflexivity.
Qed.

(** *** Slots *)

Lemma clash_own k (m : Pairs) : is_Some (m !! k) -> clash k m = false.
Proof. intros [l Hl]. unfold clash, slot. rewrite Hl. reflexivity. Qed.

Lemma clash_plain k (m : Pairs) : inherited k = false -> clash k m = false.
Proof.
  intros Hk. unfold clash, slot. destruct (m !! k); [reflexivity|]. rewrite Hk. reflexivity.
Qed.

Lemma clash_true k (m : Pairs) : clash k m = true -> m !! k = None /\ inherited k = true.
Proof.
  unfold clash, slot. destruct (m !! k); [discriminate|].
  destruct (inherited k); [auto|discriminate].
Qed.

Lemma clash_insert x k l (m : Pairs) :
  clash k m = false -> clash x (<[k := l]> m) = clash x m.
Proof.
  intros Hk. unfold clash, slot in *. destruct (decide (x = k)) as [->|Hne].
  - rewrite lookup_insert_eq. destruct (m !! k); [reflexivity|].
    destruct (inherited k); [discriminate|reflexivity].
  - rewrite lookup_insert_ne by congruence. reflexivity.
Qed.

Lemma edgesOf_insert x k l (m : Pairs) :
  edgesOf x (<[k := l]> m) = if decide (x = k) then l else edgesOf x m.
Proof.
  unfold edgesOf. destruct (decide (x = k)) as [->|Hne].
  - rewrite lookup_insert_eq. reflexivity.
  - rewrite lookup_insert_ne by congruence. reflexivity.
Qed.

(** *** Edge lists after each statement of the two mutators *)

Lemma edgesOf_ensure x k (m : Pairs) : edgesOf x (ensure k m) = edgesOf x m.
Proof.
  unfold ensure, slot. destruct (m !! k) eqn:Hk; [reflexivity|].
  destruct (inherited k); [reflexivity|]. rewrite edgesOf_insert.
  destruct (decide (x = k)) as [->|Hne]; [|reflexivity].
  unfold edgesOf. rewrite Hk. reflexivity.
Qed.

Lemma clash_ensure x k (m : Pairs) : clash x (ensure k m) = clash x m.
Proof.
  unfold ensure. destruct (slot k m) eqn:Hs; try reflexivity.
  apply clash_insert. unfold clash. rewrite Hs. reflexivity.
Qed.

Lemma ensure_own k (m : Pairs) :
  clash k m = false -> ensure k m !! k = Some (edgesOf k m).
Proof.
  unfold clash, ensure, slot, edgesOf. destruct (m !! k) eqn:Hk; [intros _; exact Hk|].
  destruct (inherited k); [discriminate|]. intros _. apply lookup_insert_eq.
Qed.

Lemma push_new_clash k peer nm (m : Pairs) :
  clash k m = true -> push_new k peer nm m = None.
Proof. unfold clash, push_new. destruct (slot k m); [discriminate|reflexivity|discriminate]. Qed.

Lemma push_new_own k peer nm (m : Pairs) l :
  m !! k = Some l ->
  exists m', push_new k peer nm m = Some m' /\
             (forall x, edgesOf x m' =
                        if decide (x = k) then add_if_missing peer nm (edgesOf x m)
                        else edgesOf x m) /\
             (forall x, clash x m' = clash x m) /\
             (forall x, is_Some (m !! x) -> is_Some (m' !! x)).
Proof.
  intros Hl. unfold push_new, slot. rewrite Hl. eexists. split; [reflexivity|].
  assert (Hk : clash k m = false) by (apply clash_own; eauto).
  unfold add_if_missing. split; [|split]; intros x.
  - assert (He : edgesOf k m = l) by (unfold edgesOf; rewrite Hl; reflexivity).
    destruct (decide (x = k)) as [->|Hne].
    + rewrite He. destruct (finds peer l); [exact He|].
      rewrite edgesOf_insert, decide_True by reflexivity. reflexivity.
    + destruct (finds peer l); [reflexivity|].
      rewrite edgesOf_insert, decide_False by exact Hne. reflexivity.
  - destruct (finds peer l); [reflexivity|]. apply clash_insert, Hk.
  - destruct (finds peer l); [trivial|]. intros H.
    destruct (decide (x = k)) as [->|Hne].
    + rewrite lookup_insert_eq. eauto.
    + rewrite lookup_insert_ne by congruence. exact H.
Qed.

Lemma ensure_keeps k x (m : Pairs) : is_Some (m !! x) -> is_Some (ensure k m !! x).
Proof.
  unfold ensure. destruct (slot k m); trivial.
  intros H. destruct (decide (k = x)) as [->|Hne].
  - rewrite lookup_insert_eq. eauto.
  - rewrite lookup_insert_ne by assumption. exact H.
Qed.

Lemma drop_edge_clash k peer (m : Pairs) :
  clash k m = true -> drop_edge k peer m = None.
Proof. unfold clash, drop_edge. destruct (slot k m); [discriminate|reflexivity|discriminate]. Qed.

Lemma drop_edge_plain k peer (m : Pairs) :
  clash k m = false ->
  exists m', drop_edge k peer m = Some m' /\
             (forall x, edgesOf x m' =
                        if decide (x = k) then without peer (edgesOf x m)
                        else edgesOf x m) /\
             (forall x, clash x m' = clash x m).
Proof.
  intros Hk. unfold drop_edge, slot. unfold clash, slot in Hk.
  destruct (m !! k) as [l|] eqn:Hl.
  - eexists. split; [reflexivity|]. split; intros x.
    + rewrite edgesOf_insert. destruct (decide (x = k)) as [->|Hne]; [|reflexivity].
      unfold edgesOf. rewrite Hl. reflexivity.
    + apply clash_insert, clash_own. eauto.
  - destruct (inherited k); [discriminate|]. eexists. split; [reflexivity|].
    split; intros x; [|reflexivity].
    destruct (decide (x = k)) as [->|Hne]; [|reflexivity].
    unfold edgesOf. rewrite Hl. reflexivity.
Qed.

(** *** The two mutators, whatever the ids *)

(** [addPair]: the edge lists it leaves, how it ends, and that no key changes
    between own and inherited. *)
Lemma addPair_spec a na b nb (m : Pairs) :
  let r := addPair a na b nb m in
  (forall x, edgesOf x (fst r) =
     if clash a m then edgesOf x m
     else let l1 := if decide (x = a) then add_if_missing b nb (edgesOf x m)
                    else edgesOf x m in
          if clash b m then l1
          else if decide (x = b) then add_if_missing a na l1 else l1) /\
  snd r = (if clash a m then Threw "pairs[idA].find is not a function"
           else if clash b m then Threw "pairs[idB].find is not a function"
           else Returned) /\
  (forall x, clash x (fst r) = clash x m).
Proof.
  intros r. unfold r, addPair. cbv zeta.
  destruct (clash a m) eqn:Ha.
  - rewrite push_new_clash by (rewrite !clash_ensure; exact Ha). cbn [fst snd].
    split; [|split; [reflexivity|]]; intros x.
    + rewrite !edgesOf_ensure. reflexivity.
    + rewrite !clash_ensure. reflexivity.
  - assert (Hown : is_Some (ensure b (ensure a m) !! a)).
    { apply ensure_keeps. rewrite ensure_own by exact Ha. eauto. }
    destruct Hown as [la Hla].
    destruct (push_new_own a b nb _ _ Hla) as (m3 & -> & He3 & Hc3 & Hk3).
    destruct (clash b m) eqn:Hb.
    + rewrite push_new_clash by (rewrite Hc3, !clash_ensure; exact Hb). cbn [fst snd].
      split; [|split; [reflexivity|]]; intros x.
      * rewrite He3, !edgesOf_ensure. reflexivity.
      * rewrite Hc3, !clash_ensure. reflexivity.
    + assert (Hownb : is_Some (m3 !! b)).
      { apply Hk3. rewrite ensure_own by (rewrite clash_ensure; exact Hb). eauto. }
      destruct Hownb as [lb Hlb].
      destruct (push_new_own b a na _ _ Hlb) as (m4 & -> & He4 & Hc4 & _).
      cbn [fst snd]. split; [|split; [reflexivity|]]; intros x.
      * rewrite He4, He3, !edgesOf_ensure. reflexivity.
      * rewrite Hc4, Hc3, !clash_ensure. reflexivity.
Qed.

(** [removePair], in the same way. *)
Lemma removePair_spec a b (m : Pairs) :
  let r := removePair a b m in
  (forall x, edgesOf x (fst r) =
     if clash a m then edgesOf x m
     else let l1 := if decide (x = a) then without b (edgesOf x m) else edgesOf x m in
          if clash b m then l1
          else if decide (x = b) then without a l1 else l1) /\
  snd r = (if clash a m then Threw "pairs[idA].filter is not a function"
           else if clash b m then Threw "pairs[idB].filter is not a function"
           else Returned) /\
  (forall x, clash x (fst r) = clash x m).
Proof.
  intros r. unfold r, removePair.
  destruct (clash a m) eqn:Ha.
  - rewrite drop_edge_clash by exact Ha. cbn [fst snd]. auto.
  - destruct (drop_edge_plain a b m Ha) as (m1 & -> & He1 & Hc1).
    destruct (clash b m) eqn:Hb.
    + rewrite drop_edge_clash by (rewrite Hc1; exact Hb). cbn [fst snd].
      split; [|split; [reflexivity|]]; intros x; [apply He1|apply Hc1].
    + destruct (drop_edge_plain b a m1) as (m2 & -> & He2 & Hc2);
        [rewrite Hc1; exact Hb|].
      cbn [fst snd]. split; [|split; [reflexivity|]]; intros x.
      * rewrite He2, He1. reflexivity.
      * rewrite Hc2, Hc1. reflexivity.
Qed.

(** *** On ids that read no inherited member *)

Lemma edgesOf_addPair x a na b nb (m : Pairs) :
  clash a m = false -> clash b m = false ->
  edgesOf x (fst (addPair a na b nb m)) =
  let l1 := if decide (x = a) then add_if_missing b nb (edgesOf x m) else edgesOf x m in
  if decide (x = b) then add_if_missing a na l1 else l1.
Proof.
  intros Ha Hb. destruct (addPair_spec a na b nb m) as (He & _).
  rewrite He, Ha, Hb. reflexivity.
Qed.

Lemma addPair_returns a na b nb (m : Pairs) :
  clash a m = false -> clash b m = false -> snd (addPair a na b nb m) = Returned.
Proof.
  intros Ha Hb. destruct (addPair_spec a na b nb m) as (_ & Hs & _).
  rewrite Hs, Ha, Hb. reflexivity.
Qed.

Lemma edgesOf_removePair x a b (m : Pairs) :
  clash a m = false -> clash b m = false ->
  edgesOf x (fst (removePair a b m)) =
  let l1 := if decide (x = a) then without b (edgesOf x m) else edgesOf x m in
  if decide (x = b) then without a l1 else l1.
Proof.
  intros Ha Hb. destruct (removePair_spec a b m) as (He & _).
  rewrite He, Ha, Hb. reflexivity.
Qed.

Lemma removePair_returns a b (m : Pairs) :
  clash a m = false -> clash b m = false -> snd (removePair a b m) = Returned.
Proof.
  intros Ha Hb. destruct (removePair_spec a b m) as (_ & Hs & _).
  rewrite Hs, Ha, Hb. reflexivity.
Qed.

Lemma linked_addPair a na b nb (m : Pairs) x y :
  clash a m = false -> clash b m = false ->
  linked (fst (addPair a na b nb m)) x y <->
  linked m x y \/ (x = a /\ y = b) \/ (x = b /\ y = a).
Proof.
  intros Ha Hb. unfold linked. rewrite edgesOf_addPair by assumption. cbv zeta.
  repeat case_decide; subst;
    rewrite ?finds_add_if_missing, ?orb_true_iff, ?String.eqb_eq;
    intuition congruence.
Qed.

Lemma linked_removePair a b (m : Pairs) x y :
  clash a m = false -> clash b m = false ->
  linked (fst (removePair a b m)) x y <->
  linked m x y /\ ~ (x = a /\ y = b) /\ ~ (x = b /\ y = a).
Proof.
  intros Ha Hb. unfold linked. rewrite edgesOf_removePair by assumption. cbv zeta.
  repeat case_decide; subst;
    rewrite ?finds_without, ?andb_true_iff, ?negb_true_iff, ?String.eqb_neq;
    intuition congruence.
Qed.

Lemma symmetric_empty : symmetric ∅.
Proof. intros a b. unfold linked, edgesOf. rewrite !lookup_empty. reflexivity. Qed.

Lemma symmetric_apply_op o (m : Pairs) :
  plain_op o -> symmetric m -> symmetric (apply_op m o).
Proof.
  intros Hp Hs x y. destruct o as [a na b nb|a b]; destruct Hp as [Ha Hb]; simpl.
  - rewrite !linked_addPair by (apply clash_plain; assumption).
    specialize (Hs x y). tauto.
  - rewrite !linked_removePair by (apply clash_plain; assumption).
    specialize (Hs x y). tauto.
Qed.

Lemma symmetric_run ops : forall m : Pairs,
  Forall plain_op ops -> symmetric m -> symmetric (run ops m).
Proof.
  unfold run. induction ops as [|o ops IH]; simpl; intros m Hp Hs; [exact Hs|].
  inversion Hp as [|? ? Ho Hrest]; subst.
  apply IH; [exact Hrest|]. apply symmetric_apply_op; assumption.
Qed.

Lemma duplicate_free_empty : duplicate_free ∅.
Proof. intros a b. unfold edgesOf. rewrite lookup_empty. unfold entries. simpl. lia. Qed.

(** No call adds a second entry for a partner, also when it throws. *)
Lemma duplicate_free_apply_op o (m : Pairs) :
  duplicate_free m -> duplicate_free (apply_op m o).
Proof.
  intros Hd x y. destruct o as [a na b nb|a b]; simpl.
  - destruct (addPair_spec a na b nb m) as (He & _). rewrite He. cbv zeta.
    specialize (Hd x y).
    destruct (clash a m); [exact Hd|]. destruct (clash b m);
      repeat case_decide; rewrite ?entries_add_if_missing;
      repeat match goal with |- context [String.eqb ?u ?v] => destruct (String.eqb u v) end;
      rewrite ?entries_add_if_missing;
      repeat match goal with |- context [String.eqb ?u ?v] => destruct (String.eqb u v) end;
      lia.
  - destruct (removePair_spec a b m) as (He & _). rewrite He. cbv zeta.
    specialize (Hd x y).
    destruct (clash a m); [exact Hd|]. destruct (clash b m);
      repeat case_decide; rewrite ?entries_without;
      repeat match goal with |- context [String.eqb ?u ?v] => destruct (String.eqb u v) end;
      rewrite ?entries_without;
      repeat match goal with |- context [String.eqb ?u ?v] => destruct (String.eqb u v) end;
      lia.
Qed.

Lemma duplicate_free_run ops : forall m : Pairs, duplicate_free m -> duplicate_free (run ops m).
Proof.
  unfold run. induction ops as [|o ops IH]; simpl; intros m Hd; [exact Hd|].
  apply IH, duplicate_free_apply_op, Hd.
Qed.

(** An edge that is already there on both sides makes [addPair] a no-op. *)
Lemma addPair_present a na b nb (m : Pairs) :
  linked m a b -> linked m b a -> addPair a na b nb m = (m, Returned).
Proof.
  unfold linked, edgesOf. intros Hab Hba.
  destruct (m !! a) as [la|] eqn:Ha; [|discriminate].
  destruct (m !! b) as [lb|] eqn:Hb; [|discriminate].
  unfold addPair, ensure, push_new, slot. cbv zeta.
  rewrite Ha, Hb, Ha, Hab, Hb, Hba. reflexivity.
Qed.

Lemma linked_own (m : Pairs) a b : linked m a b -> clash a m = false.
Proof.
  unfold linked, edgesOf. intros H. apply clash_own.
  destruct (m !! a); [eauto|discriminate].
Qed.

(** C1 -- Pairing symmetry fails on an id that names an inherited member.
    [addPair("AAA1", "Phone", "constructor", "Laptop")] on the empty store
    puts the entry for [constructor] in the list of [AAA1], then throws on
    [pairs["constructor"].find]: [pairs["constructor"]] reads the inherited
    member, no list is stored under it, and the list of [AAA1] holds an id
    whose side holds nothing. *)
Theorem addPair_one_sided :
  let r := addPair "AAA1" "Phone" "constructor" "Laptop" ∅ in
  snd r = Threw "pairs[idB].find is not a function" /\
  edgesOf "AAA1" (fst r) = [mkEdge "constructor" "Laptop"] /\
  slot "constructor" (fst r) = Member /\
  linked (fst r) "AAA1" "constructor" /\
  ~ linked (fst r) "constructor" "AAA1" /\
  ~ symmetric (fst r).
Proof.
  cbv zeta.
  assert (Hlist : edgesOf "AAA1" (fst (addPair "AAA1" "Phone" "constructor" "Laptop" ∅))
                  = [mkEdge "constructor" "Laptop"]) by (vm_compute; reflexivity).
  assert (Hnone : edgesOf "constructor" (fst (addPair "AAA1" "Phone" "constructor" "Laptop" ∅))
                  = []) by (vm_compute; reflexivity).
  assert (Hab : linked (fst (addPair "AAA1" "Phone" "constructor" "Laptop" ∅))
                       "AAA1" "constructor")
    by (unfold linked; rewrite Hlist; reflexivity).
  assert (Hba : ~ linked (fst (addPair "AAA1" "Phone" "constructor" "Laptop" ∅))
                         "constructor" "AAA1")
    by (unfold linked; rewrite Hnone; discriminate).
  split; [vm_compute; reflexivity|]. split; [exact Hlist|].
  split; [vm_compute; reflexivity|]. split; [exact Hab|]. split; [exact Hba|].
  intros Hsym. apply Hba, Hsym, Hab.
Qed.

(** C6 -- Idempotent pairing fails on an id that names an inherited member.
    Calling [addPair("AAA1", "Phone", "constructor", "Laptop")] twice on the
    empty store throws both times; the list of [AAA1] ends with one entry
    for [constructor], and there is no entry for [AAA1] on the other side,
    where the claim has exactly one. *)
Theorem addPair_twice_one_sided :
  let r1 := addPair "AAA1" "Phone" "constructor" "Laptop" ∅ in
  let r2 := addPair "AAA1" "Phone" "constructor" "Laptop" (fst r1) in
  snd r1 = Threw "pairs[idB].find is not a function" /\
  snd r2 = Threw "pairs[idB].find is not a function" /\
  fst r2 = fst r1 /\
  entries "constructor" (edgesOf "AAA1" (fst r2)) = 1 /\
  entries "AAA1" (edgesOf "constructor" (fst r2)) = 0.
Proof.
  cbv zeta.
  assert (H1 : fst (addPair "AAA1" "Phone" "constructor" "Laptop" ∅)
               = <["AAA1" := [mkEdge "constructor" "Laptop"]]> ∅)
    by (vm_compute; reflexivity).
  rewrite H1.
  split; [vm_compute; reflexivity|]. split; [vm_compute; reflexivity|].
  split; [vm_compute; reflexivity|]. split; vm_compute; reflexivity.
Qed.

(** X26 -- Pairing symmetry on ids that name no inherited member.  From a
    symmetric store (the empty one at first start), after any sequence of
    [addPair] and [removePair] whose ids name no member inherited from
    [Object.prototype], the list of [a] holds [b] exactly when the list of
    [b] holds [a]; and a [removePair(a, b)] on such ids then returns and
    leaves neither list holding the other id. *)
Theorem symmetry_on_plain_ids (m0 : Pairs) (ops : list PairOp) :
  symmetric m0 ->
  Forall plain_op ops ->
  let m := run ops m0 in
  (forall a b, linked m a b <-> linked m b a) /\
  (forall a b, inherited a = false -> inherited b = false ->
               snd (removePair a b m) = Returned /\
               ~ linked (fst (removePair a b m)) a b /\
               ~ linked (fst (removePair a b m)) b a).
Proof.
  intros Hsym Hplain m. split.
  - exact (symmetric_run ops m0 Hplain Hsym).
  - intros a b Ha Hb.
    assert (Hca : clash a m = false) by (apply clash_plain; exact Ha).
    assert (Hcb : clash b m = false) by (apply clash_plain; exact Hb).
    split; [apply removePair_returns; assumption|].
    rewrite !linked_removePair by assumption. tauto.
Qed.

Lemma symmetry_on_plain_ids_witness :
  symmetric (∅ : Pairs) /\
  Forall plain_op pairing_ops /\
  (forall a b, linked (run pairing_ops ∅) a b <-> linked (run pairing_ops ∅) b a).
Proof.
  assert (Hp : Forall plain_op pairing_ops)
    by (repeat constructor).
  split; [exact symmetric_empty|]. split; [exact Hp|].
  exact (proj1 (symmetry_on_plain_ids ∅ pairing_ops symmetric_empty Hp)).
Defined.

(** X27 -- Idempotent pairing on ids that read no inherited member.  On a
    store without duplicate entries (the empty one, and every store reached
    from it), when neither [pairs[a]] nor [pairs[b]] reads an inherited
    member, [addPair(a, b)] returns and leaves exactly one entry for [b] in
    the list of [a] and one for [a] in the list of [b]; a second call, with
    whatever names, returns and changes nothing, and so does a call made
    when the edge is already there.  The ids need not differ. *)
Theorem idempotent_on_plain_ids (m : Pairs) (a na b nb na' nb' : string) :
  duplicate_free m ->
  clash a m = false ->
  clash b m = false ->
  let r1 := addPair a na b nb m in
  let r2 := addPair a na' b nb' (fst r1) in
  snd r1 = Returned /\
  (entries b (edgesOf a (fst r1)) = 1 /\ entries a (edgesOf b (fst r1)) = 1) /\
  r2 = (fst r1, Returned) /\
  (linked m a b -> linked m b a -> r1 = (m, Returned)).
Proof.
  intros Hd Ha Hb r1 r2.
  assert (Hd1 : duplicate_free (fst r1))
    by exact (duplicate_free_apply_op (OpAdd a na b nb) m Hd).
  assert (Hab : linked (fst r1) a b) by (apply linked_addPair; tauto).
  assert (Hba : linked (fst r1) b a) by (apply linked_addPair; tauto).
  split; [apply addPair_returns; assumption|]. split; [|split].
  - pose proof (Hd1 a b). pose proof (Hd1 b a).
    apply finds_entries in Hab. apply finds_entries in Hba. lia.
  - apply addPair_present; assumption.
  - apply addPair_present.
Qed.

Lemma idempotent_on_plain_ids_witness :
  duplicate_free (∅ : Pairs) /\
  clash "AAA1" ∅ = false /\
  clash "BBB2" ∅ = false /\
  (entries "BBB2" (edgesOf "AAA1" (fst (addPair "AAA1" "Phone" "BBB2" "Laptop" ∅))) = 1 /\
   entries "AAA1" (edgesOf "BBB2" (fst (addPair "AAA1" "Phone" "BBB2" "Laptop" ∅))) = 1) /\
  addPair "AAA1" "Mobile" "BBB2" "PC" (fst (addPair "AAA1" "Phone" "BBB2" "Laptop" ∅))
    = (fst (addPair "AAA1" "Phone" "BBB2" "Laptop" ∅), Returned).
Proof.
  assert (Ha : clash "AAA1" (∅ : Pairs) = false) by reflexivity.
  assert (Hb : clash "BBB2" (∅ : Pairs) = false) by reflexivity.
  pose proof (idempotent_on_plain_ids ∅ "AAA1" "Phone" "BBB2" "Laptop" "Mobile" "PC"
                duplicate_free_empty Ha Hb) as H.
  cbv zeta in H. destruct H as (_ & Hone & Htwice & _).
  split; [exact duplicate_free_empty|]. split; [exact Ha|]. split; [exact Hb|].
  split; [exact Hone|exact Htwice].
Defined.

Example pairing_ops_result :
  edgesOf "AAA1" (run pairing_ops ∅) = [mkEdge "CCC3" "Tablet"] /\
  edgesOf "BBB2" (run pairing_ops ∅) = [] /\
  edgesOf "CCC3" (run pairing_ops ∅) = [mkEdge "AAA1" "Phone"].
Proof. repeat split; vm_compute; reflexivity. Qed.

End PairingFacts.

(* ===================================================================== *)
(** ** Facts about the provider gateway's log *)
(* ===================================================================== *)

Module GatewayFacts.
Import Js Hub Notions Notions2.

(** The helper only logs: its entries are console lines. *)
Lemma helper_log_console c raw :
  Forall (fun e => exists parts, e = Console "error" parts) (helper_log c raw).
Proof.
  unfold helper_log. destruct c as [msg|req]; [repeat constructor; eauto|].
  destruct raw as [text|m]; repeat constructor; eauto.
Qed.

Lemma helper_log_In c raw e :
  In e (helper_log c raw) -> exists parts, e = Console "error" parts.
Proof.
  intros H. pose proof (helper_log_console c raw) as Hall.
  rewrite List.Forall_forall in Hall. exact (Hall e H).
Qed.

Lemma helper_log_messages c raw : messages (helper_log c raw) = [].
Proof.
  unfold helper_log. destruct c as [msg|req]; [reflexivity|].
  destruct raw; reflexivity.
Qed.

Lemma helper_log_reached live self c raw : reached live self (helper_log c raw) = ∅.
Proof.
  unfold helper_log. destruct c as [msg|req]; [apply union_empty_l_L|].
  destruct raw; [reflexivity|apply union_empty_l_L].
Qed.

Lemma messages_app out1 out2 : messages (out1 ++ out2) = messages out1 ++ messages out2.
Proof. unfold messages. apply List.filter_app. Qed.

Lemma helper_log_settled c raw text : settle c raw = Normal text -> helper_log c raw = [].
Proof.
  destruct c as [msg|req]; [discriminate|]. destruct raw; [reflexivity|discriminate].
Qed.

End GatewayFacts.

(* ===================================================================== *)
(** ** Facts about [trim], [split] and [join] *)
(* ===================================================================== *)

Module StringFacts.
Import Js Hub Notions.

Lemma append_nil (t : string) : "" +:+ t = t.
Proof. reflexivity. Qed.

Lemma append_cons (c : ascii) (s t : string) : String c s +:+ t = String c (s +:+ t).
Proof. reflexivity. Qed.

Lemma append_assoc (a b c : string) : (a +:+ b) +:+ c = a +:+ b +:+ c.
Proof.
  induction a as [|x a IH]; [reflexivity|].
  rewrite !append_cons, IH. reflexivity.
Qed.

Lemma nonempty_true (s : string) : nonempty s = true <-> s <> "".
Proof.
  unfold nonempty. rewrite negb_true_iff. apply String.eqb_neq.
Qed.

Lemma is_ws_LF : is_ws LF = true.
Proof. reflexivity. Qed.

Lemma split_cons (s : string) : exists piece pieces, split LF s = piece :: pieces.
Proof.
  induction s as [|c s IH]; simpl; [eauto|].
  destruct (Ascii.eqb c LF); [eauto|].
  destruct IH as (p & ps & ->). eauto.
Qed.

(** A text without a newline is one piece. *)
Lemma split_one (l : string) : mentions LF l = false -> split LF l = [l].
Proof.
  induction l as [|c l IH]; simpl; [reflexivity|].
  intros H. apply orb_false_iff in H as [Hc Hl].
  rewrite Hc, (IH Hl). reflexivity.
Qed.

(** Splitting cuts at the first newline. *)
Lemma split_line (l rest : string) :
  mentions LF l = false -> split LF (l +:+ nl +:+ rest) = l :: split LF rest.
Proof.
  induction l as [|c l IH]; intros H.
  - reflexivity.
  - simpl in H. apply orb_false_iff in H as [Hc Hl].
    rewrite append_cons. simpl. rewrite Hc, (IH Hl). reflexivity.
Qed.

Lemma split_join (lines : list string) :
  lines <> [] ->
  Forall (fun l => mentions LF l = false) lines ->
  split LF (join lines) = lines.
Proof.
  induction lines as [|l rest IH]; [congruence|].
  intros _ Hall. inversion Hall as [|? ? Hl Hrest]; subst.
  destruct rest as [|l2 rest].
  - simpl. apply split_one, Hl.
  - change (join (l :: l2 :: rest)) with (l +:+ nl +:+ join (l2 :: rest)).
    rewrite split_line by exact Hl.
    rewrite IH by (congruence || exact Hrest). reflexivity.
Qed.

Lemma join_content_of (lines : list string) :
  lines <> [] -> join lines +:+ nl = content_of lines.
Proof.
  induction lines as [|l rest IH]; [congruence|]. intros _.
  destruct rest as [|l2 rest].
  - reflexivity.
  - change (join (l :: l2 :: rest)) with (l +:+ nl +:+ join (l2 :: rest)).
    change (content_of (l :: l2 :: rest)) with (l +:+ nl +:+ content_of (l2 :: rest)).
    rewrite <- IH by congruence.
    rewrite !append_assoc. reflexivity.
Qed.

Lemma trim_end_nl (s : string) : trim_end (s +:+ nl) = trim_end s.
Proof.
  induction s as [|c s IH]; [reflexivity|].
  rewrite append_cons. simpl. rewrite IH. reflexivity.
Qed.

Lemma trim_end_id (s : string) : ends_ws s = false -> trim_end s = s.
Proof.
  unfold ends_ws. induction s as [|c s IH]; [reflexivity|].
  destruct s as [|d s].
  - simpl. intros ->. reflexivity.
  - intros H. change (last_char (String c (String d s))) with (last_char (String d s)) in H.
    specialize (IH H).
    change (trim_end (String c (String d s)))
      with (match trim_end (String d s) with
            | EmptyString => if is_ws c then EmptyString else String c EmptyString
            | rest' => String c rest'
            end).
    rewrite IH. reflexivity.
Qed.

Lemma trim_start_id (s : string) : starts_ws s = false -> trim_start s = s.
Proof. destruct s as [|c s]; simpl; [reflexivity|]. intros ->. reflexivity. Qed.

Lemma last_char_append (a b : string) :
  b <> "" -> last_char (a +:+ b) = last_char b.
Proof.
  intros Hb. induction a as [|c a IH]; [reflexivity|].
  rewrite append_cons.
  destruct (a +:+ b) as [|d r] eqn:E.
  - destruct a; [rewrite append_nil in E; congruence|].
    rewrite append_cons in E. discriminate.
  - exact IH.
Qed.

Lemma last_char_join (lines : list string) :
  Forall (fun l => l <> "") lines ->
  last_char (join lines) = last_char (List.last lines "").
Proof.
  induction lines as [|l rest IH]; [reflexivity|].
  intros Hall. inversion Hall as [|? ? Hl Hrest]; subst.
  destruct rest as [|l2 rest]; [reflexivity|].
  change (join (l :: l2 :: rest)) with (l +:+ nl +:+ join (l2 :: rest)).
  change (List.last (l :: l2 :: rest) "") with (List.last (l2 :: rest) "").
  rewrite <- (IH Hrest).
  assert (Hj : join (l2 :: rest) <> "").
  { inversion Hrest as [|? ? Hl2 _]; subst.
    destruct rest; simpl; [exact Hl2|].
    destruct l2; [congruence|]. rewrite append_cons. discriminate. }
  rewrite last_char_append.
  - apply last_char_append, Hj.
  - discriminate.
Qed.

Lemma starts_ws_content_of (lines : list string) :
  hd "" lines <> "" -> starts_ws (content_of lines) = starts_ws (hd "" lines).
Proof.
  destruct lines as [|l rest]; [reflexivity|]. simpl.
  destruct l; [congruence|]. rewrite append_cons. reflexivity.
Qed.

Lemma one_line_spec (l : string) :
  one_line l = true <-> l <> "" /\ mentions LF l = false.
Proof.
  unfold one_line. rewrite andb_true_iff, negb_true_iff, nonempty_true. reflexivity.
Qed.

Lemma filter_all {A} (f : A -> bool) (l : list A) :
  Forall (fun x => f x = true) l -> List.filter f l = l.
Proof.
  induction 1 as [|x l Hx _ IH]; simpl; [reflexivity|]. rewrite Hx, IH. reflexivity.
Qed.

(** Trimming a canonical file only removes its last newline. *)
Lemma trim_content_of (lines : list string) :
  canonical lines -> trim (content_of lines) = join lines.
Proof.
  intros (Hne & Hall & Hfirst & Hlast).
  assert (Hnonempty : Forall (fun l => l <> "") lines).
  { eapply List.Forall_impl; [|exact Hall]. intros l Hl. apply one_line_spec in Hl. tauto. }
  unfold trim. rewrite trim_start_id.
  - rewrite <- join_content_of by exact Hne.
    rewrite trim_end_nl. apply trim_end_id.
    unfold ends_ws. rewrite last_char_join by exact Hnonempty. exact Hlast.
  - rewrite starts_ws_content_of; [exact Hfirst|].
    destruct lines; [congruence|]. inversion Hnonempty; assumption.
Qed.

(** Both readers get a canonical file's lines back. *)
Lemma bucket_lines_content_of (lines : list string) :
  canonical lines -> bucket_lines (content_of lines) = lines.
Proof.
  intros Hc. unfold bucket_lines. rewrite trim_content_of by exact Hc.
  destruct Hc as (Hne & Hall & _).
  rewrite split_join.
  - apply filter_all. eapply List.Forall_impl; [|exact Hall].
    intros l Hl. unfold one_line in Hl. apply andb_true_iff in Hl. tauto.
  - exact Hne.
  - eapply List.Forall_impl; [|exact Hall]. intros l Hl. apply one_line_spec in Hl. tauto.
Qed.

(** Two texts that end differently are different. *)
Lemma last_char_differs (a b : string) :
  last_char a <> last_char b -> a <> b.
Proof. congruence. Qed.

(** No image path is a day's log. *)
Lemma image_path_not_log (clk : CaptureClock) (nowIso : string) :
  image_path clk <> jsonlPath nowIso.
Proof.
  apply last_char_differs. unfold image_path, jsonlPath, path_join.
  rewrite <- !append_assoc.
  rewrite (last_char_append _ ".jpg") by discriminate.
  rewrite (last_char_append _ "data.jsonl") by discriminate.
  discriminate.
Qed.

End StringFacts.

(* ===================================================================== *)
(** ** Facts about the history window *)
(* ===================================================================== *)

Module HistoryFacts.
Import Js Hub Notions StringFacts Samples.

Lemma unshift_capped_firstn (r : json) (h : list json) :
  length h <= 50 -> unshift_capped r h = firstn 50 (r :: h).
Proof.
  intros Hlen. unfold unshift_capped. cbv zeta.
  destruct (Nat.ltb_spec 50 (length (r :: h))) as [Hlt|Hge].
  - rewrite List.removelast_firstn_len.
    simpl length in *. replace (Nat.pred (S (length h))) with 50 by lia. reflexivity.
  - symmetry. apply List.firstn_all2. exact Hge.
Qed.

Lemma firstn_app_firstn {A} (n : nat) (l1 l2 : list A) :
  firstn n (l1 ++ firstn n l2) = firstn n (l1 ++ l2).
Proof.
  rewrite !List.firstn_app, List.firstn_firstn.
  replace (Nat.min (n - length l1) n) with (n - length l1) by lia. reflexivity.
Qed.

Lemma image_write_keeps_logs_here clk buffer st nowIso :
  disk (writeFileSync (image_path clk) buffer st) !! jsonlPath nowIso
  = disk st !! jsonlPath nowIso.
Proof. simpl. apply lookup_insert_ne, image_path_not_log. Qed.

Lemma content_of_app (l1 l2 : list string) :
  content_of (l1 ++ l2) = content_of l1 +:+ content_of l2.
Proof.
  induction l1 as [|l l1 IH]; [reflexivity|].
  cbn [app content_of]. rewrite IH, !append_assoc. reflexivity.
Qed.

Section Captures.
Variable JSON_stringify : json -> string.

Lemma analyze_config req clk raw st :
  config (fst (analyze JSON_stringify req clk raw st)) = config st.
Proof.
  unfold analyze, analyze_begin, analyze_resume.
  destruct (file req); [|reflexivity].
  cbv zeta. destruct (settle _ raw); reflexivity.
Qed.

(** A capture puts its record, if any, in front of the window. *)
Lemma analyze_history req clk raw st :
  history (fst (analyze JSON_stringify req clk raw st)) =
  match recorded (config st) (req, clk, raw) with
  | Some r => unshift_capped r (history st)
  | None => history st
  end.
Proof.
  unfold analyze, analyze_begin, analyze_resume, recorded.
  destruct (file req) as [buffer|]; [|reflexivity].
  cbv zeta.
  change (config (writeFileSync (image_path clk) buffer st)) with (config st).
  destruct (settle (p_call (pending_of (config st) req clk buffer)) raw);
    reflexivity.
Qed.

Lemma unshift_capped_length (r : json) (h : list json) :
  length h <= 50 -> length (unshift_capped r h) <= 50.
Proof.
  intros H. rewrite unshift_capped_firstn by exact H. apply List.firstn_le_length.
Qed.

(** The window after any run of captures, failed ones included. *)
Lemma run_captures_history caps : forall st,
  length (history st) <= 50 ->
  history (run_captures JSON_stringify caps st) =
  firstn 50 (rev (omap (recorded (config st)) caps) ++ history st).
Proof.
  unfold run_captures.
  induction caps as [|[[req clk] raw] caps IH]; intros st Hlen.
  - simpl. symmetry. apply List.firstn_all2. exact Hlen.
  - cbn [fold_left].
    pose proof (analyze_history req clk raw st) as Hh.
    pose proof (analyze_config req clk raw st) as Hc.
    set (st1 := fst (analyze JSON_stringify req clk raw st)) in *.
    assert (Hlen1 : length (history st1) <= 50).
    { rewrite Hh. destruct (recorded _ _); [apply unshift_capped_length|]; exact Hlen. }
    rewrite (IH st1 Hlen1), Hc, Hh.
    cbn [omap list_omap].
    destruct (recorded (config st) (req, clk, raw)) as [r|].
    + rewrite unshift_capped_firstn by exact Hlen.
      rewrite firstn_app_firstn. cbn [rev]. rewrite <- List.app_assoc. reflexivity.
    + reflexivity.
Qed.

(** A capture adds one line to the log of its day and touches no other
    log. *)
Lemma analyze_log req clk raw st nowIso :
  disk (fst (analyze JSON_stringify req clk raw st)) !! jsonlPath nowIso =
  match recorded (config st) (req, clk, raw) with
  | Some r =>
      if decide (jsonlPath (c_dayIso clk) = jsonlPath nowIso)
      then Some (match disk st !! jsonlPath nowIso with Some c => c | None => "" end
                 +:+ JSON_stringify r +:+ nl)
      else disk st !! jsonlPath nowIso
  | None => disk st !! jsonlPath nowIso
  end.
Proof.
  unfold analyze, analyze_begin, analyze_resume, recorded.
  destruct (file req) as [buffer|]; [|reflexivity].
  cbv zeta.
  change (config (writeFileSync (image_path clk) buffer st)) with (config st).
  destruct (settle (p_call (pending_of (config st) req clk buffer)) raw) as [answer|msg].
  - cbn [fst]. unfold appendFileSync, set_history, set_disk. cbn [disk].
    change (path_join (p_fullPath (pending_of (config st) req clk buffer)) "data.jsonl")
      with (jsonlPath (c_dayIso clk)).
    unfold writeFileSync, set_disk. cbn [disk].
    rewrite (lookup_insert_ne (disk st) (image_path clk) (jsonlPath (c_dayIso clk)))
      by apply image_path_not_log.
    destruct (decide (jsonlPath (c_dayIso clk) = jsonlPath nowIso)) as [He|Hne].
    + rewrite <- He, lookup_insert_eq. reflexivity.
    + rewrite lookup_insert_ne by exact Hne.
      apply lookup_insert_ne, image_path_not_log.
  - cbn [fst]. apply image_write_keeps_logs_here.
Qed.

Lemma result_data_is_record p answer : is_record (result_data p answer).
Proof.
  unfold result_data, is_record, thread_ok.
  destruct (p_provider p), (p_modelName p); reflexivity.
Qed.

Lemma Forall_removelast {A} (P : A -> Prop) (l : list A) :
  Forall P l -> Forall P (removelast l).
Proof.
  induction 1 as [|x l Hx Hl IH]; [constructor|].
  simpl. destruct l; [constructor|]. constructor; assumption.
Qed.

(** Captures put records, and only records, in the window. *)
Lemma analyze_keeps_records req clk raw st :
  Forall is_record (history st) ->
  Forall is_record (history (fst (analyze JSON_stringify req clk raw st))).
Proof.
  intros Hrec. rewrite analyze_history. unfold recorded.
  destruct (file req) as [buffer|]; [|exact Hrec].
  destruct (settle _ raw) as [answer|msg]; [|exact Hrec].
  unfold unshift_capped. cbv zeta.
  assert (Hall : Forall is_record
                   (result_data (pending_of (config st) req clk buffer) answer
                    :: history st))
    by (constructor; [apply result_data_is_record|exact Hrec]).
  destruct (Nat.ltb 50 _); [apply Forall_removelast|]; exact Hall.
Qed.

Lemma log_after_cons old r rs :
  log_after JSON_stringify (Some (match old with Some c => c | None => "" end
                   +:+ JSON_stringify r +:+ nl)) rs
  = log_after JSON_stringify old (r :: rs).
Proof.
  unfold log_after. destruct rs as [|r2 rs].
  - reflexivity.
  - f_equal. cbn [map content_of]. rewrite !append_assoc. reflexivity.
Qed.

Lemma run_captures_log nowIso caps : forall st,
  Forall (on_day nowIso) caps ->
  disk (run_captures JSON_stringify caps st) !! jsonlPath nowIso =
  log_after JSON_stringify (disk st !! jsonlPath nowIso) (omap (recorded (config st)) caps).
Proof.
  unfold run_captures.
  induction caps as [|[[req clk] raw] caps IH]; intros st Hday; [reflexivity|].
  inversion Hday as [|? ? Hcap Hrest]; subst. unfold on_day in Hcap. cbn [fst snd] in Hcap.
  cbn [fold_left omap list_omap].
  pose proof (analyze_log req clk raw st nowIso) as Hlog.
  pose proof (analyze_config req clk raw st) as Hcfg.
  set (st1 := fst (analyze JSON_stringify req clk raw st)) in *.
  rewrite (IH st1 Hrest), Hcfg, Hlog.
  destruct (recorded (config st) (req, clk, raw)) as [r|]; [|reflexivity].
  rewrite decide_True by exact Hcap.
  apply log_after_cons.
Qed.

Lemma omap_recorded cfg caps rs :
  Forall2 (fun cap r => recorded cfg cap = Some r) caps rs ->
  omap (recorded cfg) caps = rs.
Proof.
  induction 1 as [|cap r caps rs Hr _ IH]; [reflexivity|].
  cbn [omap list_omap]. rewrite Hr, IH. reflexivity.
Qed.

End Captures.

Section Reload.
Variable JSON_parse : string -> completion json.

(** The [forEach] of [loadHistory]: parsed values pile up in front, newest
    first; every rejected non-empty line leaves one warning. *)
Lemma load_lines lines : forall h out,
  fold_left (load_line JSON_parse) lines (h, out) =
  (rev (parsed JSON_parse (List.filter nonempty lines)) ++ h,
   out ++ warnings JSON_parse (List.filter nonempty lines)).
Proof.
  induction lines as [|l lines IH]; intros h out.
  - simpl. rewrite List.app_nil_r. reflexivity.
  - cbn [fold_left List.filter]. unfold load_line at 2.
    destruct (nonempty l).
    + cbn [parsed warnings]. destruct (JSON_parse l) as [v|msg].
      * rewrite IH. cbn [rev]. rewrite <- List.app_assoc. reflexivity.
      * rewrite IH. rewrite <- List.app_assoc. reflexivity.
    + apply IH.
Qed.

(** [loadHistory] on an existing log, whatever its content. *)
Lemma loadHistory_existing nowIso st data :
  disk st !! jsonlPath nowIso = Some data ->
  let h := firstn 50 (rev (parsed JSON_parse (bucket_lines data)) ++ history st) in
  loadHistory JSON_parse nowIso st =
  (set_history h st,
   warnings JSON_parse (bucket_lines data)
   ++ [Console "log" ["Loaded " +:+ show_nat (length h) +:+ " items from history."]]).
Proof.
  intros Hd. unfold loadHistory. rewrite Hd. cbv zeta.
  rewrite load_lines. fold (bucket_lines data).
  set (h1 := rev _ ++ history st).
  destruct (Nat.ltb_spec 50 (length h1)) as [Hlt|Hge].
  - reflexivity.
  - rewrite (List.firstn_all2 h1) by exact Hge. reflexivity.
Qed.

Lemma loadHistory_missing nowIso st :
  disk st !! jsonlPath nowIso = None ->
  loadHistory JSON_parse nowIso st = (st, []).
Proof. intros Hd. unfold loadHistory. rewrite Hd. reflexivity. Qed.

End Reload.

(** C3 -- History bound.  Start from a window of at most 50 records (it is
    empty or what [loadHistory] left).  After more than 50 successful
    captures, which appended the records [rs] in this order, [recent()] has
    exactly 50 entries: the last 50 of [rs], the most recent first; the
    records dropped are the oldest ones. *)
Theorem history_bound (JSON_stringify : json -> string)
    (caps : list Capture) (rs : list json) (st : State) :
  length (history st) <= 50 ->
  Forall2 (fun cap r => recorded (config st) cap = Some r) caps rs ->
  50 < length caps ->
  let st' := run_captures JSON_stringify caps st in
  length (recent st') = 50 /\
  recent st' = rev (skipn (length rs - 50) rs) /\
  firstn (length rs - 50) rs ++ rev (recent st') = rs.
Proof.
  intros Hlen Hrec Hmany st'.
  assert (Hn : length rs = length caps) by (symmetry; eapply Forall2_length; exact Hrec).
  assert (Hwin : recent st' = rev (skipn (length rs - 50) rs)).
  { unfold recent, st'. rewrite run_captures_history by exact Hlen.
    rewrite (omap_recorded _ _ _ Hrec).
    rewrite List.firstn_app, List.length_rev.
    replace (50 - length rs) with 0 by lia.
    rewrite List.firstn_O, List.app_nil_r. apply List.firstn_rev. }
  split; [|split].
  - rewrite Hwin, List.length_rev, List.length_skipn. lia.
  - exact Hwin.
  - rewrite Hwin, List.rev_involutive. apply List.firstn_skipn.
Qed.

Lemma history_bound_witness :
  length (history empty_hub) <= 50 /\
  Forall2 (fun cap r => recorded (config empty_hub) cap = Some r) burst burst_records /\
  50 < length burst /\
  length (recent (run_captures print burst empty_hub)) = 50 /\
  recent (run_captures print burst empty_hub) = rev (skipn 1 burst_records).
Proof.
  assert (H1 : length (history empty_hub) <= 50) by (simpl; lia).
  assert (H2 : Forall2 (fun cap r => recorded (config empty_hub) cap = Some r)
                       burst burst_records).
  { unfold burst, burst_records. generalize (seq 1 51).
    induction l as [|n l IH]; simpl; constructor; [reflexivity|exact IH]. }
  assert (H3 : 50 < length burst) by (vm_compute; lia).
  destruct (history_bound print burst burst_records empty_hub H1 H2 H3) as (Ha & Hb & _).
  split; [exact H1|]. split; [exact H2|]. split; [exact H3|]. split.
  - exact Ha.
  - rewrite Hb. reflexivity.
Defined.

(** C8 -- Reload fidelity.  At start-up the window is empty.  If the day's
    log exists and its lines (those of the trimmed content, empty ones
    dropped) hold at most 50 records, then after [loadHistory] the window
    is these records in reverse file order, most recent first; every line
    [JSON.parse] rejects is skipped and leaves one warning, and the load
    runs to its closing log line. *)
Theorem reload_fidelity (JSON_parse : string -> completion json)
    (nowIso data : string) (st : State) :
  history st = [] ->
  disk st !! jsonlPath nowIso = Some data ->
  length (parsed JSON_parse (bucket_lines data)) <= 50 ->
  let rs := parsed JSON_parse (bucket_lines data) in
  loadHistory JSON_parse nowIso st =
  (set_history (rev rs) st,
   warnings JSON_parse (bucket_lines data)
   ++ [Console "log" ["Loaded " +:+ show_nat (length rs) +:+ " items from history."]]).
Proof.
  intros Hempty Hdisk Hfew rs.
  rewrite (loadHistory_existing JSON_parse nowIso st data Hdisk). cbv zeta.
  rewrite Hempty, List.app_nil_r.
  rewrite List.firstn_all2 by (rewrite List.length_rev; exact Hfew).
  rewrite List.length_rev. reflexivity.
Qed.

Lemma reload_fidelity_witness :
  history damaged = [] /\
  disk damaged !! jsonlPath day2 = Some damaged_log /\
  length (parsed parse (bucket_lines damaged_log)) <= 50 /\
  bucket_lines damaged_log = [print late_record; "{oops"; print morning_record] /\
  loadHistory parse day2 damaged =
  (set_history [morning_record; late_record] damaged,
   [Console "warn" ["Skipping malformed history line:"; "Unexpected token in JSON"];
    Console "log" ["Loaded 2 items from history."]]).
Proof.
  assert (H1 : history damaged = []) by reflexivity.
  assert (H2 : disk damaged !! jsonlPath day2 = Some damaged_log) by (vm_compute; reflexivity).
  assert (H3 : length (parsed parse (bucket_lines damaged_log)) <= 50) by (vm_compute; lia).
  pose proof (reload_fidelity parse day2 damaged_log damaged H1 H2 H3) as H.
  split; [exact H1|]. split; [exact H2|]. split; [exact H3|]. split.
  - vm_compute. reflexivity.
  - rewrite H. vm_compute. reflexivity.
Defined.

Lemma Forall_hd {A} (P : A -> Prop) (d : A) (l : list A) :
  l <> [] -> Forall P l -> P (hd d l).
Proof. destruct l; [congruence|]. intros _ H. inversion H; assumption. Qed.

Lemma Forall_last {A} (P : A -> Prop) (d : A) (l : list A) :
  l <> [] -> Forall P l -> P (List.last l d).
Proof.
  intros Hne H. induction H as [|x l Hx Hl IH]; [congruence|].
  destruct l as [|y l]; [exact Hx|]. apply IH. congruence.
Qed.

(** Lines that print records and read back as these records. *)
Lemma parsed_printed (JSON_parse : string -> completion json)
    (JSON_stringify : json -> string) (rs : list json) :
  Forall (fun r => JSON_parse (JSON_stringify r) = Normal r) rs ->
  parsed JSON_parse (map JSON_stringify rs) = rs /\
  warnings JSON_parse (map JSON_stringify rs) = [].
Proof.
  induction 1 as [|r rs Hr _ [IHp IHw]]; [split; reflexivity|].
  cbn [map parsed warnings]. rewrite Hr, IHp, IHw. split; reflexivity.
Qed.

(** X1 -- Reload after captures.  On a day whose log does not exist yet, between
    one and 50 captures succeed and append the records [rs]; the printed
    form of each record is one line without white space at its ends and reads
    back as the record.  After a restart, [loadHistory] makes the window
    [rs] reversed, most recent first, without a warning. *)
Theorem reload_after_captures (JSON_parse : string -> completion json)
    (JSON_stringify : json -> string)
    (nowIso : string) (caps : list Capture) (rs : list json) (st : State) :
  disk st !! jsonlPath nowIso = None ->
  Forall (on_day nowIso) caps ->
  Forall2 (fun cap r => recorded (config st) cap = Some r) caps rs ->
  rs <> [] ->
  length rs <= 50 ->
  Forall (fun r => one_line (JSON_stringify r) = true /\
                   starts_ws (JSON_stringify r) = false /\
                   ends_ws (JSON_stringify r) = false /\
                   JSON_parse (JSON_stringify r) = Normal r) rs ->
  let st' := restart (run_captures JSON_stringify caps st) in
  disk st' !! jsonlPath nowIso = Some (content_of (map JSON_stringify rs)) /\
  recent (fst (loadHistory JSON_parse nowIso st')) = rev rs /\
  snd (loadHistory JSON_parse nowIso st') =
    [Console "log" ["Loaded " +:+ show_nat (length rs) +:+ " items from history."]].
Proof.
  intros Hnew Hday Hrec Hne Hfew Hcodec st'.
  assert (Hdisk : disk st' !! jsonlPath nowIso = Some (content_of (map JSON_stringify rs))).
  { unfold st', restart. cbn [disk].
    rewrite (run_captures_log JSON_stringify nowIso caps st Hday).
    rewrite (omap_recorded _ _ _ Hrec), Hnew.
    unfold log_after. destruct rs; [congruence|]. reflexivity. }
  assert (Hcan : canonical (map JSON_stringify rs)).
  { assert (Hne' : map JSON_stringify rs <> []) by (destruct rs; [congruence|discriminate]).
    assert (Hall : Forall (fun l => one_line l = true /\ starts_ws l = false /\
                                    ends_ws l = false) (map JSON_stringify rs)).
    { apply List.Forall_map. eapply List.Forall_impl; [|exact Hcodec].
      intros r Hr. cbv beta in *. tauto. }
    split; [exact Hne'|]. split; [|split].
    - eapply List.Forall_impl; [|exact Hall]. intros l Hl. cbv beta in Hl. tauto.
    - apply (Forall_hd _ "" _ Hne' Hall).
    - apply (Forall_last _ "" _ Hne' Hall). }
  destruct (parsed_printed JSON_parse JSON_stringify rs) as [Hparsed Hwarn].
  { eapply List.Forall_impl; [|exact Hcodec]. intros r Hr. cbv beta in Hr. tauto. }
  split; [exact Hdisk|].
  rewrite (loadHistory_existing JSON_parse nowIso st' _ Hdisk). cbv zeta.
  rewrite (bucket_lines_content_of _ Hcan), Hparsed, Hwarn.
  change (history st') with (@nil json). rewrite List.app_nil_r.
  rewrite List.firstn_all2 by (rewrite List.length_rev; exact Hfew).
  rewrite List.length_rev. split; reflexivity.
Qed.

Lemma reload_after_captures_witness :
  disk empty_hub !! jsonlPath day2 = None /\
  Forall (on_day day2) [(upload, morning_clock, Normal "y = 2")] /\
  recent (fst (loadHistory parse day2
                 (restart (run_captures print [(upload, morning_clock, Normal "y = 2")]
                             empty_hub))))
  = [morning_record].
Proof.
  assert (H1 : disk empty_hub !! jsonlPath day2 = None) by reflexivity.
  assert (H2 : Forall (on_day day2) [(upload, morning_clock, Normal "y = 2")])
    by (repeat constructor).
  assert (H3 : Forall2 (fun cap r => recorded (config empty_hub) cap = Some r)
                       [(upload, morning_clock, Normal "y = 2")] [morning_record])
    by (repeat constructor).
  assert (H4 : [morning_record] <> []) by discriminate.
  assert (H5 : length [morning_record] <= 50) by (simpl; lia).
  assert (H6 : Forall (fun r => one_line (print r) = true /\
                                starts_ws (print r) = false /\
                                ends_ws (print r) = false /\
                                parse (print r) = Normal r) [morning_record]).
  { constructor; [|constructor]. repeat split; vm_compute; reflexivity. }
  destruct (reload_after_captures parse print day2 _ _ empty_hub H1 H2 H3 H4 H5 H6)
    as (_ & Hwin & _).
  split; [exact H1|]. split; [exact H2|exact Hwin].
Defined.

End HistoryFacts.

(* ===================================================================== *)
(** ** Facts about follow-up persistence *)
(* ===================================================================== *)

Module FollowUpFacts.
Import Js Hub Notions Notions2 StringFacts GatewayFacts Samples Samples2.

Lemma assoc_set_field_same k v fields : assoc k (set_field k v fields) = Some v.
Proof.
  induction fields as [|[k' v'] rest IH]; simpl.
  - rewrite String.eqb_refl. reflexivity.
  - destruct (String.eqb k' k) eqn:E; simpl.
    + rewrite String.eqb_refl. reflexivity.
    + rewrite E. exact IH.
Qed.

Lemma assoc_set_field_other k k' v fields :
  k <> k' -> assoc k' (set_field k v fields) = assoc k' fields.
Proof.
  intros Hne. induction fields as [|[k2 v2] rest IH]; simpl.
  - destruct (String.eqb_spec k k'); [congruence|reflexivity].
  - destruct (String.eqb_spec k2 k) as [->|Hk]; simpl.
    + destruct (String.eqb_spec k k'); [congruence|reflexivity].
    + destruct (String.eqb k2 k'); [reflexivity|exact IH].
Qed.

(** The guarded [push] on a record: one more entry at the end, the same id,
    still a record. *)
Lemma push_thread_record entry fields :
  thread_ok fields ->
  exists fields',
    push_thread entry (JObj fields) = Some (JObj fields') /\
    thread_of (JObj fields') = thread_of (JObj fields) ++ [entry] /\
    id_of (JObj fields') = id_of (JObj fields) /\
    thread_ok fields'.
Proof.
  unfold thread_ok, push_thread, thread_of, id_of. intros Hok.
  destruct (assoc "thread" fields) as [t|] eqn:Ht.
  - destruct t as [| b | n | s | items | fs]; cbn [truthy] in *.
    all: try (rewrite ?Hok, assoc_set_field_same;
              eexists; split; [reflexivity|];
              rewrite !assoc_set_field_same, !assoc_set_field_other by discriminate;
              rewrite ?Ht; auto; fail).
    + rewrite Ht.
      eexists; split; [reflexivity|].
      rewrite !assoc_set_field_same, !assoc_set_field_other by discriminate. auto.
    + discriminate Hok.
  - cbn [truthy]. rewrite assoc_set_field_same.
    eexists; split; [reflexivity|].
    rewrite !assoc_set_field_same, !assoc_set_field_other by discriminate.
    rewrite ?Ht. auto.
Qed.

Lemma id_is_true_object wanted v :
  id_is wanted v = Normal true -> exists fields, v = JObj fields.
Proof. destruct v; simpl; try discriminate. eauto. Qed.

Lemma id_is_record wanted v :
  is_record v -> exists b, id_is wanted v = Normal b.
Proof.
  destruct v as [| | | | |fields]; simpl; try contradiction. intros _.
  destruct (assoc "id" fields) as [[]|]; eauto.
Qed.

(** [find] stops at the first match and changes that item only. *)
Lemma update_first_found wanted entry pre item item' post :
  Forall (fun v => id_is wanted v = Normal false) pre ->
  id_is wanted item = Normal true ->
  push_thread entry item = Some item' ->
  update_first wanted entry (pre ++ item :: post) = Normal (pre ++ item' :: post).
Proof.
  intros Hpre Hitem Hpush. induction Hpre as [|v pre Hv _ IH]; simpl.
  - rewrite Hitem. simpl. rewrite Hpush. reflexivity.
  - rewrite Hv. simpl. rewrite IH. reflexivity.
Qed.


(** On records the in-memory update does not throw. *)
Lemma update_first_records wanted entry h :
  Forall is_record h -> exists h', update_first wanted entry h = Normal h'.
Proof.
  induction 1 as [|v h Hv _ IH]; simpl; [eauto|].
  destruct (id_is_record wanted v Hv) as [[] Hb]; rewrite Hb; simpl.
  - destruct v as [| | | | |fields]; try contradiction.
    destruct (push_thread_record entry fields Hv) as (fields' & -> & _). simpl. eauto.
  - destruct IH as [h' ->]. simpl. eauto.
Qed.

Lemma update_first_keeps_records wanted entry h : forall h',
  Forall is_record h ->
  update_first wanted entry h = Normal h' ->
  Forall is_record h'.
Proof.
  induction h as [|v h IH]; intros h' Hrec Hrun; simpl in Hrun.
  - injection Hrun as <-. constructor.
  - inversion Hrec as [|? ? Hv Hh]; subst.
    destruct (id_is_record wanted v Hv) as [[] Hb]; rewrite Hb in Hrun; simpl in Hrun.
    + destruct v as [| | | | |fields]; try contradiction.
      destruct (push_thread_record entry fields Hv) as (fields' & Hp & _ & _ & Hok).
      rewrite Hp in Hrun. simpl in Hrun. injection Hrun as <-.
      constructor; assumption.
    + destruct (update_first wanted entry h) as [h1|msg]; simpl in Hrun; [|discriminate].
      injection Hrun as <-. constructor; [exact Hv|]. apply IH; [exact Hh|reflexivity].
Qed.

Section Json.
Variable JSON_parse : string -> completion json.
Variable JSON_stringify : json -> string.

(** Follow-ups keep the window a window of records. *)
Lemma followup_keeps_records data c raw localeTime nowIso st :
  Forall is_record (history st) ->
  Forall is_record
    (history (fst (followup_resume JSON_parse JSON_stringify data c raw
                     localeTime nowIso st))).
Proof.
  intros Hrec. unfold followup_resume.
  destruct (settle c raw) as [reply|msg]; [|exact Hrec]. cbv zeta.
  destruct (update_first _ _ (history st)) as [h|msg] eqn:Hu; [|exact Hrec].
  pose proof (update_first_keeps_records _ _ _ _ Hrec Hu) as Hh.
  change (disk (set_history h st)) with (disk st).
  destruct (disk st !! jsonlPath nowIso); exact Hh.
Qed.

Lemma rewrite_line_other wanted entry line :
  line_has_id JSON_parse wanted line = false ->
  rewrite_line JSON_parse JSON_stringify wanted entry line = line.
Proof.
  unfold line_has_id, rewrite_line.
  destruct (JSON_parse line) as [obj|]; [|reflexivity].
  destruct (id_is wanted obj) as [[]|]; [discriminate|reflexivity|reflexivity].
Qed.


Lemma rewrite_line_match wanted entry line fields :
  JSON_parse line = Normal (JObj fields) ->
  id_is wanted (JObj fields) = Normal true ->
  thread_ok fields ->
  exists fields',
    rewrite_line JSON_parse JSON_stringify wanted entry line
      = JSON_stringify (JObj fields') /\
    thread_of (JObj fields') = thread_of (JObj fields) ++ [entry] /\
    id_of (JObj fields') = id_of (JObj fields).
Proof.
  intros Hp Hid Hok. unfold rewrite_line. rewrite Hp, Hid.
  destruct (push_thread_record entry fields Hok) as (fields' & -> & Ht & Hi & _).
  eauto.
Qed.

Lemma rewritten_lines wanted entry content :
  rewritten JSON_parse JSON_stringify wanted entry content =
  join (map (rewrite_line JSON_parse JSON_stringify wanted entry)
            (bucket_lines content)) +:+ nl.
Proof. reflexivity. Qed.

(** The handler once the reply is in and the in-memory update went through. *)
Lemma followup_resume_replied data c raw reply localeTime nowIso st h :
  settle c raw = Normal reply ->
  update_first (parentId data) (thread_entry data reply localeTime) (history st)
    = Normal h ->
  followup_resume JSON_parse JSON_stringify data c raw localeTime nowIso st =
  let shown :=
    Broadcast "followup_result"
      [JObj [("parentId", JStr (parentId data)); ("prompt", JStr (prompt data));
             ("answer", JStr reply); ("timestamp", JStr localeTime)]] in
  match disk st !! jsonlPath nowIso with
  | Some content =>
      (writeFileSync (jsonlPath nowIso)
         (rewritten JSON_parse JSON_stringify (parentId data)
            (thread_entry data reply localeTime) content)
         (set_history h st),
       [shown; DiskWrite (jsonlPath nowIso)])
  | None => (set_history h st, [shown])
  end.
Proof.
  intros Hs Hu. unfold followup_resume. rewrite Hs. cbv zeta. rewrite Hu.
  reflexivity.
Qed.

(** Whatever happens, a follow-up writes nothing but the log of the day it is
    answered on. *)
Lemma followup_resume_disk data c raw localeTime nowIso st :
  let r := followup_resume JSON_parse JSON_stringify data c raw localeTime nowIso st in
  (forall p, In (DiskWrite p) (snd r) -> p = jsonlPath nowIso) /\
  (forall p, p <> jsonlPath nowIso -> disk (fst r) !! p = disk st !! p).
Proof.
  cbv zeta. unfold followup_resume.
  destruct (settle c raw) as [reply|msg].
  - cbv zeta.
    destruct (update_first _ _ (history st)) as [h|msg].
    + change (disk (set_history h st)) with (disk st).
      destruct (disk st !! jsonlPath nowIso) as [content|] eqn:Hd.
      * split.
        -- simpl. intros p [Hp|[Hp|[]]]; [discriminate|congruence].
        -- intros p Hp. simpl. rewrite lookup_insert_ne by congruence. reflexivity.
      * split; [|reflexivity].
        simpl. intros p [Hp|[]]. discriminate.
    + split; [|reflexivity].
      simpl. intros p [Hp|[Hp|[]]]; discriminate.
  - split; [|reflexivity].
    cbn [snd]. intros p Hp. apply in_app_or in Hp as [Hp|[Hp|[]]]; [|discriminate].
    apply helper_log_In in Hp as [parts Hp]. discriminate.
Qed.

End Json.

(** C7, amended.  Let the backend reply and let the window hold records.
    Then the first record in memory whose id is the follow-up's [parentId]
    gets the new entry at the end of its thread: one entry more, the earlier
    ones in their order, the same id, and no other item of the window
    changes.  If the log of the day the follow-up is answered on exists, it
    is rewritten line by line: a line holding a record with that id becomes
    the text of the record with the entry added in the same way, and every
    line that holds no record with that id stays as it is.  No other file
    changes: a record kept in the log of another day gets no entry there. *)
Theorem thread_append_on_existing_record
    (JSON_parse : string -> completion json) (JSON_stringify : json -> string)
    (data : FollowUp) (c : Call) (raw : completion string)
    (reply localeTime nowIso : string) (st : State) :
  settle c raw = Normal reply ->
  Forall is_record (history st) ->
  let entry := thread_entry data reply localeTime in
  let st' := fst (followup_resume JSON_parse JSON_stringify data c raw
                    localeTime nowIso st) in
  (forall pre item post,
      history st = pre ++ item :: post ->
      Forall (fun v => id_is (parentId data) v = Normal false) pre ->
      id_is (parentId data) item = Normal true ->
      exists item',
        history st' = pre ++ item' :: post /\
        thread_of item' = thread_of item ++ [entry] /\
        length (thread_of item') = S (length (thread_of item)) /\
        id_of item' = id_of item) /\
  (forall content,
      disk st !! jsonlPath nowIso = Some content ->
      disk st' !! jsonlPath nowIso =
        Some (join (map (rewrite_line JSON_parse JSON_stringify (parentId data) entry)
                        (bucket_lines content)) +:+ nl) /\
      (forall line obj,
          JSON_parse line = Normal obj ->
          id_is (parentId data) obj = Normal true ->
          is_record obj ->
          exists obj',
            rewrite_line JSON_parse JSON_stringify (parentId data) entry line
              = JSON_stringify obj' /\
            thread_of obj' = thread_of obj ++ [entry] /\
            length (thread_of obj') = S (length (thread_of obj)) /\
            id_of obj' = id_of obj) /\
      (forall line,
          line_has_id JSON_parse (parentId data) line = false ->
          rewrite_line JSON_parse JSON_stringify (parentId data) entry line = line)) /\
  (forall p, p <> jsonlPath nowIso -> disk st' !! p = disk st !! p).
Proof.
  intros Hreply Hrec entry st'.
  destruct (update_first_records (parentId data) entry (history st) Hrec) as [h Hh].
  pose proof (followup_resume_replied JSON_parse JSON_stringify data c raw reply
                localeTime nowIso st h Hreply Hh) as Hrun.
  cbv zeta in Hrun. split; [|split].
  - intros pre item post Hsplit Hpre Hitem.
    assert (Hir : is_record item).
    { rewrite Hsplit in Hrec. apply Forall_app in Hrec as [_ Hrec].
      inversion Hrec; assumption. }
    destruct (id_is_true_object _ _ Hitem) as [fields ->].
    destruct (push_thread_record entry fields Hir) as (fields' & Hpush & Ht & Hi & _).
    exists (JObj fields').
    assert (Hh' : h = pre ++ JObj fields' :: post).
    { rewrite Hsplit in Hh.
      rewrite (update_first_found _ _ _ _ _ _ Hpre Hitem Hpush) in Hh.
      congruence. }
    split; [|split; [exact Ht|split; [|exact Hi]]].
    + unfold st'. rewrite Hrun.
      destruct (disk st !! jsonlPath nowIso); simpl; exact Hh'.
    + rewrite Ht, List.length_app. simpl. lia.
  - intros content Hdisk. split; [|split].
    + unfold st'. rewrite Hrun, Hdisk. simpl.
      rewrite lookup_insert_eq. reflexivity.
    + intros line obj Hp Hid Hir.
      destruct (id_is_true_object _ _ Hid) as [fields ->].
      destruct (rewrite_line_match JSON_parse JSON_stringify _ entry line fields
                  Hp Hid Hir) as (fields' & Hl & Ht & Hi).
      exists (JObj fields'). split; [exact Hl|split; [exact Ht|split; [|exact Hi]]].
      rewrite Ht, List.length_app. simpl. lia.
    + intros line. apply rewrite_line_other.
  - apply (followup_resume_disk JSON_parse JSON_stringify data c raw localeTime nowIso st).
Qed.

Lemma thread_append_witness :
  settle (followup_begin ask_again asked_once) (Normal "then z") = Normal "then z" /\
  Forall is_record (history asked_once) /\
  thread_of morning_threaded = [thread_entry ask_morning "because" "8:05:00 AM"] /\
  (exists item',
      history (fst (followup_resume parse_threads print ask_again
                      (followup_begin ask_again asked_once)
                      (Normal "then z") "8:10:00 AM" "2024-01-02T08:10:00.000Z"
                      asked_once))
        = [item'; late_record] /\
      thread_of item' = [thread_entry ask_morning "because" "8:05:00 AM";
                         thread_entry ask_again "then z" "8:10:00 AM"] /\
      id_of item' = id_of morning_record) /\
  (exists obj',
      disk (fst (followup_resume parse_threads print ask_again
                   (followup_begin ask_again asked_once)
                   (Normal "then z") "8:10:00 AM" "2024-01-02T08:10:00.000Z"
                   asked_once))
        !! jsonlPath "2024-01-02T08:10:00.000Z"
        = Some (print obj' +:+ nl) /\
      thread_of obj' = [thread_entry ask_morning "because" "8:05:00 AM";
                        thread_entry ask_again "then z" "8:10:00 AM"] /\
      id_of obj' = id_of morning_record).
Proof.
  assert (H1 : settle (followup_begin ask_again asked_once) (Normal "then z")
               = Normal "then z") by reflexivity.
  assert (H2 : Forall is_record (history asked_once)).
  { repeat constructor; vm_compute; reflexivity. }
  assert (H3 : thread_of morning_threaded = [thread_entry ask_morning "because" "8:05:00 AM"])
    by (vm_compute; reflexivity).
  assert (H4 : id_of morning_threaded = id_of morning_record) by (vm_compute; reflexivity).
  destruct (thread_append_on_existing_record parse_threads print ask_again
              (followup_begin ask_again asked_once) (Normal "then z") "then z"
              "8:10:00 AM" "2024-01-02T08:10:00.000Z" asked_once H1 H2)
    as (Hmem & Hlog & _).
  split; [exact H1|]. split; [exact H2|]. split; [exact H3|]. split.
  - destruct (Hmem [] morning_threaded [late_record] eq_refl) as (item' & Ha & Hb & _ & Hd).
    + constructor.
    + vm_compute. reflexivity.
    + exists item'. split; [exact Ha|]. rewrite H3 in Hb. rewrite H4 in Hd.
      split; [exact Hb|exact Hd].
  - assert (Hdisk : disk asked_once !! jsonlPath "2024-01-02T08:10:00.000Z"
                    = Some (print morning_threaded +:+ nl)) by (vm_compute; reflexivity).
    destruct (Hlog _ Hdisk) as (Hfile & Hline & _).
    assert (Hparse : parse_threads (print morning_threaded) = Normal morning_threaded)
      by (vm_compute; reflexivity).
    assert (Hid : id_is (parentId ask_again) morning_threaded = Normal true)
      by (vm_compute; reflexivity).
    assert (Hrec : is_record morning_threaded) by (vm_compute; reflexivity).
    destruct (Hline (print morning_threaded) morning_threaded Hparse Hid Hrec)
      as (obj' & Hrw & Ht & _ & Hi).
    exists obj'. rewrite H3 in Ht. rewrite H4 in Hi.
    split; [|split; [exact Ht|exact Hi]].
    rewrite Hfile.
    replace (bucket_lines (print morning_threaded +:+ nl)) with [print morning_threaded]
      by (vm_compute; reflexivity).
    cbn [map join]. rewrite Hrw. reflexivity.
Defined.

(** C7, as stated, fails: after a restart on 2 January the record of
    1 January is stored in the log of its day and nowhere else; a follow-up
    on it is answered and broadcast, and no thread grows: the window and
    both logs are what they were. *)
Lemma thread_append_counterexample :
  disk next_day !! jsonlPath day1 = Some (print late_record +:+ nl) /\
  parse (print late_record) = Normal late_record /\
  id_is (parentId ask_late) late_record = Normal true /\
  thread_of late_record = [] /\
  history next_day = [morning_record] /\
  settle (followup_begin ask_late next_day) (Normal "because") = Normal "because" /\
  let r := followup_resume parse print ask_late (followup_begin ask_late next_day)
             (Normal "because") "12:00:01 AM" day2 next_day in
  snd r = [Broadcast "followup_result"
             [JObj [("parentId", JStr "1704153599001"); ("prompt", JStr "Why?");
                    ("answer", JStr "because"); ("timestamp", JStr "12:00:01 AM")]];
           DiskWrite (jsonlPath day2)] /\
  history (fst r) = [morning_record] /\
  disk (fst r) !! jsonlPath day1 = Some (print late_record +:+ nl) /\
  disk (fst r) !! jsonlPath day2 = Some (print morning_record +:+ nl) /\
  disk next_day !! jsonlPath day2 = Some (print morning_record +:+ nl).
Proof.
  split; [vm_compute; reflexivity|].
  split; [vm_compute; reflexivity|].
  split; [vm_compute; reflexivity|].
  split; [vm_compute; reflexivity|].
  split; [vm_compute; reflexivity|].
  split; [vm_compute; reflexivity|].
  cbv zeta.
  split; [vm_compute; reflexivity|].
  split; [vm_compute; reflexivity|].
  split; [vm_compute; reflexivity|].
  split; vm_compute; reflexivity.
Qed.

(** The same follow-up, evaluated: the entry is in memory and in the log of
    2 January. *)
Example followup_on_morning_record :
  let r := ask_followup parse print ask_morning (Normal "because") "8:05:00 AM"
             "2024-01-02T08:05:00.000Z" two_days in
  map thread_of (history (fst r))
    = [[thread_entry ask_morning "because" "8:05:00 AM"]; []] /\
  map event_of (snd r) = [None; Some "followup_result"; None] /\
  reached {["s1"; "s2"]} "s1" (snd r) = {["s1"; "s2"]}.
Proof. repeat split; vm_compute; reflexivity. Qed.




(** A log with white space at its two ends and an empty line, rewritten by a
    follow-up that names no record of it: the ends are trimmed and the empty
    line is dropped; the space after [r1] and the lines themselves stay. *)
Example rewritten_trims_the_log :
  rewritten parse print "999" (thread_entry ask_unknown "because" "12:00:01 AM")
            (" r1 " +:+ nl +:+ "r2" +:+ nl +:+ "  " +:+ nl)
  = "r1 " +:+ nl +:+ "r2" +:+ nl.
Proof. vm_compute. reflexivity. Qed.

(** C9, as stated, fails: the record was created on 1 January, the
    follow-up is answered on 2 January, and the only file written is the log
    of 2 January; the log of 1 January keeps the record without the new
    entry, which lives in memory alone. *)
Lemma followup_bucket_counterexample :
  rawDate_of late_record = Some "2024-01-01T23:59:59.000Z" /\
  id_is (parentId ask_late) late_record = Normal true /\
  jsonlPath "2024-01-01T23:59:59.000Z" = "public/history/2024-01-01/data.jsonl" /\
  snd (followup_resume parse print ask_late (followup_begin ask_late two_days)
         (Normal "because") "12:00:01 AM" day2 two_days)
  = [Broadcast "followup_result"
       [JObj [("parentId", JStr "1704153599001"); ("prompt", JStr "Why?");
              ("answer", JStr "because"); ("timestamp", JStr "12:00:01 AM")]];
     DiskWrite "public/history/2024-01-02/data.jsonl"] /\
  disk (fst (followup_resume parse print ask_late (followup_begin ask_late two_days)
               (Normal "because") "12:00:01 AM" day2 two_days))
    !! "public/history/2024-01-01/data.jsonl"
  = Some (print late_record +:+ nl) /\
  thread_of late_record = [].
Proof.
  split; [reflexivity|].
  split; [reflexivity|].
  split; [vm_compute; reflexivity|].
  split; [vm_compute; reflexivity|].
  split; [vm_compute; reflexivity|].
  reflexivity.
Qed.

(** C9, amended.  Every follow-up, whatever the creation date of its
    record, writes at most one file: the log of the day on which the
    follow-up is answered; every other file, the log of an earlier creation
    day among them, is left as it is.  When the backend replied, the
    in-memory update went through and that day's log exists, this log is
    written, whole. *)
Theorem followup_writes_todays_bucket
    (JSON_parse : string -> completion json) (JSON_stringify : json -> string)
    (data : FollowUp) (c : Call) (raw : completion string)
    (localeTime nowIso : string) (st : State) :
  let r := followup_resume JSON_parse JSON_stringify data c raw localeTime nowIso st in
  (forall p, In (DiskWrite p) (snd r) -> p = jsonlPath nowIso) /\
  (forall p, p <> jsonlPath nowIso -> disk (fst r) !! p = disk st !! p) /\
  (forall reply h content,
      settle c raw = Normal reply ->
      update_first (parentId data) (thread_entry data reply localeTime) (history st)
        = Normal h ->
      disk st !! jsonlPath nowIso = Some content ->
      In (DiskWrite (jsonlPath nowIso)) (snd r) /\
      disk (fst r) !! jsonlPath nowIso =
        Some (rewritten JSON_parse JSON_stringify (parentId data)
                (thread_entry data reply localeTime) content)).
Proof.
  intros r.
  destruct (followup_resume_disk JSON_parse JSON_stringify data c raw localeTime
              nowIso st) as [Hw Hother].
  split; [exact Hw|]. split; [exact Hother|].
  intros reply h content Hreply Hh Hdisk. unfold r.
  rewrite (followup_resume_replied JSON_parse JSON_stringify data c raw reply
             localeTime nowIso st h Hreply Hh).
  cbv zeta. rewrite Hdisk. simpl. split; [tauto|].
  apply lookup_insert_eq.
Qed.

End FollowUpFacts.

(* ===================================================================== *)
(** ** Facts about the capture flow *)
(* ===================================================================== *)

Module OrchestratorFacts.
Import Js Hub Notions Notions2 StringFacts GatewayFacts Samples.

Lemma analyze_begin_upload req clk st buffer :
  file req = Some buffer ->
  analyze_begin req clk st =
  (writeFileSync (image_path clk) buffer st,
   [DiskWrite (image_path clk); new_scan_of clk;
    Await (capture_call (config st) req buffer)],
   Some (pending_of (config st) req clk buffer)).
Proof. intros Hf. unfold analyze_begin. rewrite Hf. reflexivity. Qed.

Lemma analyze_resume_failed JSON_stringify p raw msg st :
  settle (p_call p) raw = Thrown msg ->
  analyze_resume JSON_stringify p raw st
  = (st, helper_log (p_call p) raw ++ failure_effects msg).
Proof. intros Hs. unfold analyze_resume. rewrite Hs. reflexivity. Qed.

Lemma p_call_pending_of cfg req clk buffer :
  p_call (pending_of cfg req clk buffer) = capture_call cfg req buffer.
Proof. reflexivity. Qed.

(** A failed capture from end to end. *)
Lemma analyze_failed JSON_stringify req clk raw st buffer msg :
  file req = Some buffer ->
  settle (capture_call (config st) req buffer) raw = Thrown msg ->
  analyze JSON_stringify req clk raw st =
  (writeFileSync (image_path clk) buffer st,
   [DiskWrite (image_path clk); new_scan_of clk;
    Await (capture_call (config st) req buffer)]
   ++ helper_log (capture_call (config st) req buffer) raw ++ failure_effects msg).
Proof.
  intros Hf Hs. unfold analyze.
  rewrite (analyze_begin_upload req clk st buffer Hf).
  rewrite (analyze_resume_failed JSON_stringify _ raw msg) by exact Hs.
  reflexivity.
Qed.

Lemma failure_messages msg :
  messages (failure_effects msg)
  = [Broadcast "scan_failed" []; Broadcast "error" [JObj [("message", JStr msg)]]].
Proof. reflexivity. Qed.

(** Storing an image touches no day's log. *)
Lemma image_write_keeps_logs clk buffer st nowIso :
  disk (writeFileSync (image_path clk) buffer st) !! jsonlPath nowIso
  = disk st !! jsonlPath nowIso.
Proof. apply HistoryFacts.image_write_keeps_logs_here. Qed.

(** C4 -- A failed analysis leaves no history trace.  When a capture
    carries an image and its backend call fails with message [msg], the
    messages of the hub are [new_scan], sent before the call, then
    [scan_failed] and [error] with that message, each to every connection,
    and the request is answered 500; no day's log changes (no line is
    added), the only file written is the image, and [recent()] is what it
    was.  The part of the handler after the [await] changes nothing at all,
    in whatever state it resumes. *)
Theorem failed_analysis_leaves_no_trace (JSON_stringify : json -> string)
    (req : Upload) (clk : CaptureClock) (raw : completion string)
    (st : State) (buffer msg : string) :
  file req = Some buffer ->
  settle (capture_call (config st) req buffer) raw = Thrown msg ->
  let r := analyze JSON_stringify req clk raw st in
  messages (snd r) = [new_scan_of clk;
                      Broadcast "scan_failed" [];
                      Broadcast "error" [JObj [("message", JStr msg)]]] /\
  (forall live self, recipients live self (Broadcast "scan_failed" []) = live /\
                     recipients live self
                       (Broadcast "error" [JObj [("message", JStr msg)]]) = live) /\
  In (Respond 500 (Text msg)) (snd r) /\
  recent (fst r) = recent st /\
  (forall nowIso, disk (fst r) !! jsonlPath nowIso = disk st !! jsonlPath nowIso) /\
  (forall p, In (DiskWrite p) (snd r) -> p = image_path clk) /\
  (forall st2,
      let r2 := analyze_resume JSON_stringify (pending_of (config st) req clk buffer)
                  raw st2 in
      fst r2 = st2 /\
      messages (snd r2) = [Broadcast "scan_failed" [];
                           Broadcast "error" [JObj [("message", JStr msg)]]] /\
      (forall p, ~ In (DiskWrite p) (snd r2))).
Proof.
  intros Hfile Hfail r. unfold r.
  rewrite (analyze_failed JSON_stringify req clk raw st buffer msg Hfile Hfail).
  cbn [fst snd]. split; [|split; [|split; [|split; [|split; [|split]]]]].
  - rewrite !messages_app, helper_log_messages, failure_messages. reflexivity.
  - intros live self. split; reflexivity.
  - apply in_or_app. right. apply in_or_app. right.
    unfold failure_effects. right. right. right. left. reflexivity.
  - reflexivity.
  - intros nowIso. apply image_write_keeps_logs.
  - intros p Hin. apply in_app_or in Hin as [Hin|Hin].
    + destruct Hin as [Hp|[Hp|[Hp|[]]]]; try discriminate. congruence.
    + apply in_app_or in Hin as [Hin|Hin].
      * apply helper_log_In in Hin as [parts Hp]. discriminate.
      * destruct Hin as [Hp|[Hp|[Hp|[Hp|[]]]]]; discriminate.
  - intros st2. cbv zeta.
    rewrite (analyze_resume_failed JSON_stringify _ raw msg)
      by (rewrite p_call_pending_of; exact Hfail).
    cbn [fst snd]. split; [reflexivity|]. split.
    + rewrite messages_app, helper_log_messages, failure_messages. reflexivity.
    + intros p Hin. apply in_app_or in Hin as [Hin|Hin].
      * apply helper_log_In in Hin as [parts Hp]. discriminate.
      * destruct Hin as [Hp|[Hp|[Hp|[Hp|[]]]]]; discriminate.
Qed.

Lemma failed_analysis_witness :
  file upload = Some "JPEG" /\
  settle (capture_call (config two_days) upload "JPEG") (Thrown "connect ECONNREFUSED")
    = Thrown "Ollama API Error: connect ECONNREFUSED" /\
  recent (fst (analyze print upload morning_clock (Thrown "connect ECONNREFUSED") two_days))
    = recent two_days /\
  disk (fst (analyze print upload morning_clock (Thrown "connect ECONNREFUSED") two_days))
    !! jsonlPath day2
  = disk two_days !! jsonlPath day2.
Proof.
  assert (H1 : file upload = Some "JPEG") by reflexivity.
  assert (H2 : settle (capture_call (config two_days) upload "JPEG")
                 (Thrown "connect ECONNREFUSED")
               = Thrown "Ollama API Error: connect ECONNREFUSED") by reflexivity.
  destruct (failed_analysis_leaves_no_trace print upload morning_clock
              (Thrown "connect ECONNREFUSED") two_days "JPEG"
              "Ollama API Error: connect ECONNREFUSED" H1 H2)
    as (_ & _ & _ & Hrecent & Hlogs & _).
  split; [exact H1|]. split; [exact H2|]. split; [exact Hrecent|].
  exact (Hlogs day2).
Defined.

(** C10 -- What a capture has done before the backend is called.  For a
    request with an image, the handler up to its [await] writes the image
    file, then broadcasts [new_scan] to every connection, and only then
    calls the backend.  If the analysis then fails, the image is still on
    disk; what follows the call is the failure report alone: no record is
    appended to a log, and neither [new_answer] nor [history_update] is
    sent; the window is what it was. *)
Theorem image_and_scan_precede_analysis (JSON_stringify : json -> string)
    (req : Upload) (clk : CaptureClock) (st : State) (buffer : string) :
  file req = Some buffer ->
  let call := capture_call (config st) req buffer in
  (exists st1 p,
      analyze_begin req clk st =
        (st1, [DiskWrite (image_path clk); new_scan_of clk; Await call], Some p) /\
      p_call p = call /\
      disk st1 !! image_path clk = Some buffer /\
      (forall live self, recipients live self (new_scan_of clk) = live)) /\
  (forall raw msg,
      settle call raw = Thrown msg ->
      let r := analyze JSON_stringify req clk raw st in
      disk (fst r) !! image_path clk = Some buffer /\
      (exists after,
          snd r = [DiskWrite (image_path clk); new_scan_of clk; Await call] ++ after /\
          Forall (fun e => event_of e <> Some "new_answer" /\
                           event_of e <> Some "history_update" /\
                           forall p, e <> DiskWrite p) after) /\
      history (fst r) = history st /\
      (forall nowIso, disk (fst r) !! jsonlPath nowIso = disk st !! jsonlPath nowIso)).
Proof.
  intros Hfile call. split.
  - exists (writeFileSync (image_path clk) buffer st),
           (pending_of (config st) req clk buffer).
    split; [exact (analyze_begin_upload req clk st buffer Hfile)|].
    split; [reflexivity|]. split; [|intros; reflexivity].
    simpl. apply lookup_insert_eq.
  - intros raw msg Hfail r. unfold r.
    rewrite (analyze_failed JSON_stringify req clk raw st buffer msg Hfile Hfail).
    cbn [fst snd]. split; [|split; [|split]].
    + simpl. apply lookup_insert_eq.
    + exists (helper_log call raw ++ failure_effects msg). split; [reflexivity|].
      apply List.Forall_app. split.
      * eapply List.Forall_impl; [|apply helper_log_console].
        intros e [parts ->].
        split; [discriminate|split; [discriminate|intros p; discriminate]].
      * unfold failure_effects.
        repeat (apply List.Forall_cons;
                [split; [discriminate|split; [discriminate|intros p; discriminate]]|]).
        apply List.Forall_nil.
    + reflexivity.
    + intros nowIso. apply image_write_keeps_logs.
Qed.

Lemma image_and_scan_witness :
  file upload = Some "JPEG" /\
  settle (capture_call (config empty_hub) upload "JPEG") (Thrown "timeout")
    = Thrown "Ollama API Error: timeout" /\
  disk (fst (analyze print upload late_clock (Thrown "timeout") empty_hub))
    !! "public/history/2024-01-01/1704153599000.jpg" = Some "JPEG" /\
  history (fst (analyze print upload late_clock (Thrown "timeout") empty_hub)) = [].
Proof.
  assert (H1 : file upload = Some "JPEG") by reflexivity.
  assert (H2 : settle (capture_call (config empty_hub) upload "JPEG") (Thrown "timeout")
               = Thrown "Ollama API Error: timeout") by reflexivity.
  destruct (image_and_scan_precede_analysis print upload late_clock empty_hub "JPEG" H1)
    as [_ Hfail].
  destruct (Hfail (Thrown "timeout") "Ollama API Error: timeout" H2)
    as (Himg & _ & Hhist & _).
  split; [exact H1|]. split; [exact H2|]. split; [exact Himg|exact Hhist].
Defined.

(** A successful capture, for comparison: one line more in the day's log,
    one record more in the window. *)
Example capture_succeeds :
  let r := analyze print upload morning_clock (Normal "y = 2") empty_hub in
  disk (fst r) !! jsonlPath "2024-01-02T08:00:00.000Z" = Some (print morning_record +:+ nl) /\
  history (fst r) = [morning_record] /\
  map event_of (snd r) =
    [None; Some "new_scan"; None; None; Some "new_answer"; Some "history_update"; None].
Proof. repeat split; vm_compute; reflexivity. Qed.

End OrchestratorFacts.

(* ===================================================================== *)
(** ** Facts about the relay *)
(* ===================================================================== *)

Module RelayFacts.
Import Js Hub Notions.

Lemma relay_single sid msg :
  exists ev args, relay sid msg = [ToRoom (target_of msg) ev args].
Proof. destruct msg; simpl; eauto. Qed.

Lemma reached_single live self e : reached live self [e] = recipients live self e.
Proof. unfold reached. simpl. apply union_empty_r_L. Qed.

(** C5 -- Relay isolation.  Each of the six relay handlers leaves the state
    alone and issues one effect, addressed to the room of the target it was
    given.  It reaches the target connection and no other; when the target is
    not connected it reaches nobody, and nothing goes back to the sender.
    The payload carries the sender's connection id. *)
Theorem relay_isolation (live : gset string) (sid : string) (msg : Signal)
    (st : State) :
  fst (on_signal sid msg st) = st /\
  (exists ev args, snd (on_signal sid msg st) = [ToRoom (target_of msg) ev args]) /\
  (forall e x, In e (snd (on_signal sid msg st)) ->
               x ∈ recipients live sid e -> x = target_of msg /\ x ∈ live) /\
  reached live sid (snd (on_signal sid msg st)) =
    (if decide (target_of msg ∈ live) then {[target_of msg]} else ∅).
Proof.
  unfold on_signal. cbn [fst snd].
  destruct (relay_single sid msg) as (ev & args & Hrelay).
  split; [reflexivity|]. split; [eauto|]. split.
  - intros e x Hin Hx. rewrite Hrelay in Hin. destruct Hin as [<-|[]].
    simpl in Hx. destruct (decide (target_of msg ∈ live)) as [Hlive|Hdead].
    + apply elem_of_singleton in Hx. subst. tauto.
    + set_solver.
  - rewrite Hrelay, reached_single. reflexivity.
Qed.

Example relay_reaches_target_only :
  reached {["a"; "b"; "c"]} "a" (relay "a" (signal_offer "b" None)) = {["b"]} /\
  reached {["a"; "c"]} "a" (relay "a" (signal_offer "b" None)) = ∅.
Proof. split; vm_compute; reflexivity. Qed.

(** What the target receives names the sender. *)
Lemma relay_names_sender sid target (sdp : option json) :
  relay sid (signal_offer target sdp) =
    [ToRoom target "signal_offer" [JObj (("originId", JStr sid) :: opt_field "sdp" sdp)]] /\
  relay sid (request_stream target) =
    [ToRoom target "request_stream" [JObj [("requesterId", JStr sid)]]] /\
  relay sid (request_remote_capture target) = [ToRoom target "trigger_check" []].
Proof. repeat split. Qed.

End RelayFacts.

(* ===================================================================== *)
(** ** Invariants of the event loop *)
(* ===================================================================== *)

Module MachineFacts.
Import Js Hub Notions StringFacts HistoryFacts FollowUpFacts.

Lemma update_first_length wanted entry h : forall h',
  update_first wanted entry h = Normal h' -> length h' = length h.
Proof.
  induction h as [|v h IH]; intros h' Hrun; simpl in Hrun.
  - injection Hrun as <-. reflexivity.
  - destruct (id_is wanted v) as [[]|msg]; simpl in Hrun; [| |discriminate].
    + destruct (push_thread entry v) as [v'|]; simpl in Hrun; [|discriminate].
      injection Hrun as <-. reflexivity.
    + destruct (update_first wanted entry h) as [h1|msg]; simpl in Hrun; [|discriminate].
      injection Hrun as <-. simpl. rewrite (IH h1 eq_refl). reflexivity.
Qed.

Lemma push_thread_id entry v v' : push_thread entry v = Some v' -> id_of v' = id_of v.
Proof.
  destruct v as [| | | | |fields]; simpl; try discriminate.
  destruct (assoc "thread" _) as [[]|]; try discriminate.
  intros H. injection H as <-. simpl.
  destruct (truthy (assoc "thread" fields));
    rewrite ?assoc_set_field_other by discriminate; reflexivity.
Qed.

(** A follow-up changes no id in the window. *)
Lemma update_first_ids wanted entry h : forall h',
  update_first wanted entry h = Normal h' -> map id_of h' = map id_of h.
Proof.
  induction h as [|v h IH]; intros h' Hrun; simpl in Hrun.
  - injection Hrun as <-. reflexivity.
  - destruct (id_is wanted v) as [[]|msg]; simpl in Hrun; [| |discriminate].
    + destruct (push_thread entry v) as [v'|] eqn:Hp; simpl in Hrun; [|discriminate].
      injection Hrun as <-. simpl. rewrite (push_thread_id _ _ _ Hp). reflexivity.
    + destruct (update_first wanted entry h) as [h1|msg]; simpl in Hrun; [|discriminate].
      injection Hrun as <-. simpl. rewrite (IH h1 eq_refl). reflexivity.
Qed.

Section Json.
Variable JSON_parse : string -> completion json.
Variable JSON_stringify : json -> string.

Abbreviation step := (step JSON_parse JSON_stringify).
Abbreviation run_inputs := (run_inputs JSON_parse JSON_stringify).

(** The history after one turn: a settled capture that succeeded puts its
    record in front; a follow-up may change one item in place; nothing else
    touches the window. *)
Lemma step_history i st :
  match i with
  | capture_settled _ _ =>
      history (fst (step i st)) =
      match appended i with
      | Some r => unshift_capped r (history st)
      | None => history st
      end
  | followup_settled data c raw localeTime _ =>
      history (fst (step i st)) = history st \/
      exists reply,
        update_first (parentId data) (thread_entry data reply localeTime) (history st)
        = Normal (history (fst (step i st)))
  | _ => history (fst (step i st)) = history st
  end.
Proof.
  destruct i as [req clk|p raw|data c raw localeTime nowIso|sid msg]; simpl.
  - unfold analyze_begin. destruct (file req); reflexivity.
  - unfold analyze_resume. destruct (settle (p_call p) raw); reflexivity.
  - unfold followup_resume. destruct (settle c raw) as [reply|msg]; [|left; reflexivity].
    cbv zeta. destruct (update_first _ _ (history st)) as [h|msg] eqn:Hu; [|left; reflexivity].
    right. exists reply. change (disk (set_history h st)) with (disk st).
    destruct (disk st !! jsonlPath nowIso); simpl; rewrite Hu; reflexivity.
  - reflexivity.
Qed.

(** The window never holds more than 50 items. *)
Lemma step_window i st :
  length (history st) <= 50 -> length (history (fst (step i st))) <= 50.
Proof.
  intros Hlen. pose proof (step_history i st) as H.
  destruct i as [req clk|p raw|data c raw localeTime nowIso|sid msg].
  - rewrite H. exact Hlen.
  - rewrite H. destruct (appended _); [apply unshift_capped_length|]; exact Hlen.
  - destruct H as [->|[reply Hu]]; [exact Hlen|].
    rewrite (update_first_length _ _ _ _ Hu). exact Hlen.
  - rewrite H. exact Hlen.
Qed.

(** The ids in the window, newest first, after any interleaving of turns:
    the ids of the records appended, in reverse order of their appends, in
    front of the ids that were there, cut at 50. *)
Lemma run_inputs_ids trace : forall st,
  length (history st) <= 50 ->
  map id_of (history (run_inputs trace st)) =
  firstn 50 (rev (map id_of (omap appended trace)) ++ map id_of (history st)).
Proof.
  unfold Hub.run_inputs.
  induction trace as [|i trace IH]; intros st Hlen.
  - simpl. symmetry. apply List.firstn_all2. rewrite List.length_map. exact Hlen.
  - cbn [fold_left]. rewrite (IH _ (step_window i st Hlen)).
    pose proof (step_history i st) as H. cbn [omap list_omap].
    destruct i as [req clk|p raw|data c raw localeTime nowIso|sid msg];
      cbn [appended] in *.
    + rewrite H. reflexivity.
    + rewrite H. destruct (settle (p_call p) raw) as [answer|msg]; [|reflexivity].
      rewrite unshift_capped_firstn by exact Hlen.
      rewrite <- List.firstn_map, firstn_app_firstn.
      cbn [map rev]. rewrite <- List.app_assoc. reflexivity.
    + destruct H as [->|[reply Hu]]; [reflexivity|].
      rewrite (update_first_ids _ _ _ _ Hu). reflexivity.
    + rewrite H. reflexivity.
Qed.

(** Turns keep a window of records a window of records. *)
Lemma step_records i st :
  Forall is_record (history st) -> Forall is_record (history (fst (step i st))).
Proof.
  intros Hrec. pose proof (step_history i st) as H.
  destruct i as [req clk|p raw|data c raw localeTime nowIso|sid msg].
  - rewrite H. exact Hrec.
  - rewrite H. cbn [appended]. destruct (settle (p_call p) raw) as [answer|msg]; [|exact Hrec].
    unfold unshift_capped. cbv zeta.
    assert (Hall : Forall is_record (result_data p answer :: history st))
      by (constructor; [apply result_data_is_record|exact Hrec]).
    destruct (Nat.ltb 50 _); [apply Forall_removelast|]; exact Hall.
  - apply followup_keeps_records. exact Hrec.
  - rewrite H. exact Hrec.
Qed.

End Json.

End MachineFacts.

(* ===================================================================== *)
(** ** Facts about the device registry *)
(* ===================================================================== *)

Module RegistryFacts.
Import Js Hub Notions PairingStore Registry Samples Samples2.

Lemma map_get_set_same k d (m : Devices) : map_get k (map_set k d m) = Some d.
Proof.
  induction m as [|[k' d'] m IH]; simpl.
  - rewrite String.eqb_refl. reflexivity.
  - destruct (String.eqb k' k) eqn:E; simpl.
    + rewrite String.eqb_refl. reflexivity.
    + rewrite E. exact IH.
Qed.

Lemma map_get_set_other k k' d (m : Devices) :
  k <> k' -> map_get k' (map_set k d m) = map_get k' m.
Proof.
  intros Hne. induction m as [|[k2 d2] m IH]; simpl.
  - destruct (String.eqb_spec k k'); [congruence|reflexivity].
  - destruct (String.eqb_spec k2 k) as [->|Hk]; simpl.
    + destruct (String.eqb_spec k k'); [congruence|reflexivity].
    + destruct (String.eqb k2 k'); [reflexivity|exact IH].
Qed.

Lemma map_get_None_keys k (m : Devices) : map_get k m = None <-> ~ In k (map fst m).
Proof.
  induction m as [|[k' d'] m IH]; simpl; [tauto|].
  destruct (String.eqb_spec k' k) as [->|Hk].
  - split; [discriminate|]. intros H. exfalso. apply H. left. reflexivity.
  - rewrite IH. tauto.
Qed.

(** The keys after [set]: as before for a known key, one more at the end for
    a new one. *)
Lemma map_set_keys k d (m : Devices) :
  map fst (map_set k d m) =
  match map_get k m with
  | Some _ => map fst m
  | None => map fst m ++ [k]
  end.
Proof.
  induction m as [|[k' d'] m IH]; simpl; [reflexivity|].
  destruct (String.eqb_spec k' k) as [->|Hk]; simpl; [reflexivity|].
  rewrite IH. destruct (map_get k m); reflexivity.
Qed.



Lemma map_delete_set_new k d (m : Devices) :
  map_get k m = None -> map_delete k (map_set k d m) = m.
Proof.
  induction m as [|[k' d'] m IH]; simpl.
  - rewrite String.eqb_refl. reflexivity.
  - destruct (String.eqb k' k) eqn:E; [discriminate|].
    intros H. simpl. rewrite E, (IH H). reflexivity.
Qed.

Lemma map_delete_keys k (m : Devices) :
  NoDup (map fst m) ->
  map fst (map_delete k m) = List.filter (fun x => negb (String.eqb x k)) (map fst m).
Proof.
  induction m as [|[k' d'] m IH]; simpl; [reflexivity|].
  intros Hnd. apply NoDup_cons in Hnd as [Hnotin Hnd].
  destruct (String.eqb_spec k' k) as [->|Hk]; simpl.
  - symmetry. apply StringFacts.filter_all.
    apply List.Forall_forall. intros x Hx.
    destruct (String.eqb_spec x k) as [->|]; [|reflexivity].
    exfalso. apply Hnotin. apply list_elem_of_In. exact Hx.
  - rewrite (IH Hnd). reflexivity.
Qed.

Lemma map_get_delete_same k (m : Devices) :
  NoDup (map fst m) -> map_get k (map_delete k m) = None.
Proof.
  intros Hnd. apply map_get_None_keys. rewrite (map_delete_keys k m Hnd).
  rewrite List.filter_In. intros [_ H]. rewrite String.eqb_refl in H. discriminate.
Qed.

Lemma map_get_delete_other k k' (m : Devices) :
  k <> k' -> map_get k' (map_delete k m) = map_get k' m.
Proof.
  intros Hne. induction m as [|[k2 d2] m IH]; simpl; [reflexivity|].
  destruct (String.eqb_spec k2 k) as [->|Hk]; simpl.
  - destruct (String.eqb_spec k k'); [congruence|reflexivity].
  - destruct (String.eqb k2 k'); [reflexivity|exact IH].
Qed.

Lemma registry_ok_empty : registry_ok [].
Proof. split; constructor. Qed.

Lemma map_set_ok k d (m : Devices) :
  dev_id d = k -> registry_ok m -> registry_ok (map_set k d m).
Proof.
  intros Hid [Hnd Hall]. split.
  - rewrite map_set_keys. destruct (map_get k m) eqn:Hg; [exact Hnd|].
    apply NoDup_app. split; [exact Hnd|]. split; [|apply NoDup_singleton].
    intros x Hx Hx'. apply list_elem_of_singleton in Hx'. subst x.
    apply map_get_None_keys in Hg. apply Hg. apply list_elem_of_In. exact Hx.
  - clear Hnd. induction Hall as [|[k' d'] m Hkd Htail IH]; simpl.
    + repeat constructor. exact Hid.
    + destruct (String.eqb k' k).
      * constructor; [exact Hid|exact Htail].
      * constructor; [exact Hkd|exact IH].
Qed.

Lemma map_delete_ok k (m : Devices) : registry_ok m -> registry_ok (map_delete k m).
Proof.
  intros [Hnd Hall]. split.
  - rewrite (map_delete_keys k m Hnd).
    apply NoDup_ListNoDup, List.NoDup_filter, NoDup_ListNoDup, Hnd.
  - clear Hnd. induction Hall as [|[k' d'] m Hkd Hall IH]; simpl; [constructor|].
    destruct (String.eqb k' k); [exact Hall|]. constructor; assumption.
Qed.

Lemma map_get_ok k d (m : Devices) :
  registry_ok m -> map_get k m = Some d -> dev_id d = k.
Proof.
  intros [_ Hall]. induction Hall as [|[k' d'] m Hkd _ IH]; simpl; [discriminate|].
  destruct (String.eqb_spec k' k) as [->|Hk]; [|exact IH].
  intros H. injection H as <-. exact Hkd.
Qed.

Lemma registry_step_ok sv e :
  registry_ok (connectedDevices sv) ->
  registry_ok (connectedDevices (registry_step sv e)).
Proof.
  intros Hok. destruct e as [sid data|sid|sid active|sid]; simpl.
  - apply map_set_ok; [reflexivity|exact Hok].
  - unfold toggle_device_type.
    destruct (map_get sid (connectedDevices sv)) as [d|] eqn:Hg; [|exact Hok].
    simpl. apply map_set_ok; [|exact Hok]. simpl. eapply map_get_ok; eassumption.
  - unfold camera_status.
    destruct (map_get sid (connectedDevices sv)) as [d|] eqn:Hg; [|exact Hok].
    simpl. apply map_set_ok; [|exact Hok]. simpl. eapply map_get_ok; eassumption.
  - apply map_delete_ok. exact Hok.
Qed.

Lemma registry_run_ok events : forall sv,
  registry_ok (connectedDevices sv) ->
  registry_ok (connectedDevices (registry_run events sv)).
Proof.
  unfold registry_run. induction events as [|e events IH]; intros sv Hok; [exact Hok|].
  cbn [fold_left]. apply IH, registry_step_ok, Hok.
Qed.

Lemma both_online_ok : registry_ok (connectedDevices both_online).
Proof. apply registry_run_ok. exact registry_ok_empty. Qed.

Lemma registry_step_frame sv e :
  core (registry_step sv e) = core sv /\ pairs (registry_step sv e) = pairs sv.
Proof.
  destruct e as [sid data|sid|sid active|sid]; simpl; try (split; reflexivity).
  - unfold toggle_device_type. destruct (map_get _ _); split; reflexivity.
  - unfold camera_status. destruct (map_get _ _); split; reflexivity.
Qed.

Lemma entries_values (m : Devices) : registry_ok m -> entries_list m = values_list m.
Proof.
  intros [_ Hall]. unfold entries_list, values_list. f_equal.
  induction Hall as [|[k d] m Hkd _ IH]; simpl; [reflexivity|].
  simpl in Hkd. rewrite Hkd, IH. reflexivity.
Qed.

(** X12 -- Registry invariant.  Whatever registrations, toggles, camera reports
    and disconnects arrive, from a registry whose keys are distinct and whose
    objects carry their key as [id] (the empty one at start), the registry
    stays so; the list built by [broadcastDevices] from the entries is then
    the list of the stored objects that the other handlers send; and neither
    [pairs] nor the history side is touched. *)
Theorem registry_consistent (events : list RegistryEvent) (sv : Server) :
  registry_ok (connectedDevices sv) ->
  let sv' := registry_run events sv in
  registry_ok (connectedDevices sv') /\
  entries_list (connectedDevices sv') = values_list (connectedDevices sv') /\
  pairs sv' = pairs sv /\
  core sv' = core sv.
Proof.
  revert sv. unfold registry_run.
  induction events as [|e events IH]; intros sv Hok; cbv zeta.
  - simpl. split; [exact Hok|]. split; [apply entries_values, Hok|]. split; reflexivity.
  - cbn [fold_left].
    destruct (IH (registry_step sv e) (registry_step_ok sv e Hok)) as (H1 & H2 & H3 & H4).
    destruct (registry_step_frame sv e) as [Hc Hp].
    split; [exact H1|]. split; [exact H2|]. split; congruence.
Qed.

Lemma registry_consistent_witness :
  registry_ok (connectedDevices fresh) /\
  map fst (connectedDevices (registry_run registry_events fresh)) = ["s1"] /\
  entries_list (connectedDevices (registry_run registry_events fresh))
  = values_list (connectedDevices (registry_run registry_events fresh)).
Proof.
  assert (H0 : registry_ok (connectedDevices fresh)) by exact registry_ok_empty.
  destruct (registry_consistent registry_events fresh H0) as (_ & H2 & _).
  split; [exact H0|]. split; [reflexivity|exact H2].
Defined.

Lemma set_devices_same sv : set_devices (connectedDevices sv) sv = sv.
Proof. destruct sv; reflexivity. Qed.

(** X13 -- After a disconnect, late reports of the same connection do nothing: the
    registry has no entry for it, and [camera_status] and
    [toggle_device_type] leave the state alone and send nothing. *)
Theorem late_events_after_disconnect (sid : string) (active : bool) (sv : Server) :
  registry_ok (connectedDevices sv) ->
  let sv' := fst (disconnect sid sv) in
  map_get sid (connectedDevices sv') = None /\
  camera_status sid active sv' = (sv', []) /\
  toggle_device_type sid sv' = (sv', []) /\
  (forall k, k <> sid ->
             map_get k (connectedDevices sv') = map_get k (connectedDevices sv)).
Proof.
  intros [Hnd _] sv'.
  assert (Hg : map_get sid (connectedDevices sv') = None)
    by (apply map_get_delete_same; exact Hnd).
  split; [exact Hg|]. unfold camera_status, toggle_device_type. rewrite Hg.
  split; [reflexivity|]. split; [reflexivity|].
  intros k Hk. apply map_get_delete_other. congruence.
Qed.

Lemma late_events_witness :
  registry_ok (connectedDevices both_online) /\
  camera_status "s2" true (fst (disconnect "s2" both_online))
  = (fst (disconnect "s2" both_online), []).
Proof.
  assert (H0 : registry_ok (connectedDevices both_online)) by exact both_online_ok.
  destruct (late_events_after_disconnect "s2" true both_online H0) as (_ & H & _).
  split; [exact H0|exact H].
Defined.



(** X15 -- Registration is an upsert.  The connection's entry becomes the device just
    declared, with the camera flag off whatever it was; a connection already
    registered keeps its place in the list, a new one goes last; every other
    entry is as before.  The device list is broadcast last; what comes
    before it is a [paired_devices_sync] to the registering socket alone:
    the stored list when [pairs] has one under the device id, the inherited
    member when the device id names one and [pairs] has no list under it,
    and nothing otherwise. *)
Theorem register_upsert (sid : string) (data : Registration) (sv : Server) :
  let r := device_register sid data sv in
  let m' := connectedDevices (fst r) in
  let key := pair_key (r_deviceId data) in
  map_get sid m'
    = Some (mkDevice sid (r_name data)
                     (match r_isMobile data with Some b => b | None => false end)
                     false (r_deviceId data)) /\
  map fst m' = (match map_get sid (connectedDevices sv) with
                | Some _ => map fst (connectedDevices sv)
                | None => map fst (connectedDevices sv) ++ [sid]
                end) /\
  (forall k, k <> sid -> map_get k m' = map_get k (connectedDevices sv)) /\
  (exists before,
      snd r = before ++ [Broadcast "device_list" [entries_list m']] /\
      Forall (fun e => to_asker e = true /\ event_of e = Some "paired_devices_sync")
             before /\
      (forall l, pairs sv !! key = Some l ->
                 before = [Reply "paired_devices_sync" [edges_json l]]) /\
      (pairs sv !! key = None -> inherited key = true ->
       before = [ReplyMember "paired_devices_sync" key]) /\
      (pairs sv !! key = None -> inherited key = false -> before = [])) /\
  pairs (fst r) = pairs sv.
Proof.
  cbv zeta. unfold device_register. cbn [fst snd connectedDevices set_devices].
  split; [apply map_get_set_same|]. split; [apply map_set_keys|].
  split; [intros k Hk; apply map_get_set_other; congruence|].
  split; [|reflexivity].
  eexists. split; [reflexivity|]. unfold slot.
  destruct (pairs sv !! pair_key (r_deviceId data)) as [l|] eqn:Hl.
  - split; [repeat constructor|]. split; [intros l0 [= <-]; reflexivity|].
    split; discriminate.
  - destruct (inherited (pair_key (r_deviceId data))) eqn:Hi.
    + split; [repeat constructor|]. split; [discriminate|].
      split; [reflexivity|discriminate].
    + split; [constructor|]. split; [discriminate|].
      split; [discriminate|reflexivity].
Qed.

(** X16 -- A connection that registers and then drops leaves the registry as it
    found it. *)
Theorem register_then_disconnect (sid : string) (data : Registration) (sv : Server) :
  map_get sid (connectedDevices sv) = None ->
  fst (disconnect sid (fst (device_register sid data sv))) = sv.
Proof.
  intros Hg. unfold disconnect, device_register. cbn [fst connectedDevices set_devices].
  rewrite (map_delete_set_new _ _ _ Hg). destruct sv; reflexivity.
Qed.

Lemma register_then_disconnect_witness :
  map_get "s3" (connectedDevices both_online) = None /\
  fst (disconnect "s3" (fst (device_register "s3" phone both_online))) = both_online.
Proof.
  assert (H0 : map_get "s3" (connectedDevices both_online) = None) by reflexivity.
  split; [exact H0|exact (register_then_disconnect "s3" phone both_online H0)].
Defined.

End RegistryFacts.

(* ===================================================================== *)
(** ** More on the pairing store, and the pairing handlers *)
(* ===================================================================== *)

Module PairingMoreFacts.
Import Js Hub Notions PairingStore Registry Samples Samples2.
Import PairingFacts RegistryFacts.

#[local] Set Warnings "-clear-no-such-hyp".

Lemma without_not_found p l : finds p l = false -> without p l = l.
Proof.
  unfold finds, without. induction l as [|e l IH]; simpl; [reflexivity|].
  destruct (String.eqb (id e) p); simpl; [discriminate|].
  intros H. rewrite (IH H). reflexivity.
Qed.

Lemma without_idem p l : without p (without p l) = without p l.
Proof.
  apply without_not_found. rewrite finds_without, String.eqb_refl.
  apply andb_false_r.
Qed.

Lemma without_app p l1 l2 : without p (l1 ++ l2) = without p l1 ++ without p l2.
Proof. unfold without. apply List.filter_app. Qed.

Lemma without_add_if_missing p nm l :
  finds p l = false -> without p (add_if_missing p nm l) = l.
Proof.
  intros H. unfold add_if_missing. rewrite H, without_app, (without_not_found _ _ H).
  unfold without. simpl. rewrite String.eqb_refl. simpl. apply List.app_nil_r.
Qed.

Lemma add_if_missing_found p nm l : finds p l = true -> add_if_missing p nm l = l.
Proof. intros H. unfold add_if_missing. rewrite H. reflexivity. Qed.

Lemma finds_after_add p nm l : finds p (add_if_missing p nm l) = true.
Proof. rewrite finds_add_if_missing, String.eqb_refl. apply orb_true_r. Qed.

Lemma not_linked_false (m : Pairs) a b : ~ linked m a b -> finds b (edgesOf a m) = false.
Proof. unfold linked. destruct (finds b (edgesOf a m)); [tauto|reflexivity]. Qed.

(** X17 -- Pair, then unpair.  When neither device lists the other, [addPair]
    followed by [removePair] gives every device the edge list it had: the
    same partners, names and order.  That holds also when an id reads an
    inherited member and both calls throw; the two calls return exactly when
    neither id does. *)
Theorem pair_then_unpair (m : Pairs) (a na b nb : string) :
  ~ linked m a b ->
  ~ linked m b a ->
  let r1 := addPair a na b nb m in
  let r2 := removePair a b (fst r1) in
  (forall x, edgesOf x (fst r2) = edgesOf x m) /\
  (snd r1 = Returned <-> clash a m = false /\ clash b m = false) /\
  (snd r2 = Returned <-> clash a m = false /\ clash b m = false).
Proof.
  intros Hab Hba r1 r2. apply not_linked_false in Hab, Hba.
  destruct (addPair_spec a na b nb m) as (He1 & Hs1 & Hc1). fold r1 in He1, Hs1, Hc1.
  destruct (removePair_spec a b (fst r1)) as (He2 & Hs2 & _). fold r2 in He2, Hs2.
  rewrite !Hc1 in He2, Hs2. split; [|split].
  - intros x. rewrite He2. cbv zeta. rewrite !He1. cbv zeta.
    destruct (clash a m) eqn:Ha; [reflexivity|].
    destruct (clash b m) eqn:Hb.
    + destruct (decide (x = a)) as [->|Hxa]; [|reflexivity].
      apply without_add_if_missing. exact Hab.
    + destruct (decide (x = a)) as [->|Hxa]; destruct (decide (a = b)) as [Heq|Hne].
      * subst b. rewrite (add_if_missing_found a na) by apply finds_after_add.
        rewrite without_add_if_missing by exact Hab.
        apply without_not_found. exact Hab.
      * apply without_add_if_missing. exact Hab.
      * subst b. repeat (rewrite decide_False by exact Hxa). reflexivity.
      * destruct (decide (x = b)) as [->|Hxb]; [|reflexivity].
        apply without_add_if_missing. exact Hba.
  - rewrite Hs1. destruct (clash a m); [split; [discriminate|intros [? _]; discriminate]|].
    destruct (clash b m); [split; [discriminate|intros [_ ?]; discriminate]|].
    split; auto.
  - rewrite Hs2. destruct (clash a m); [split; [discriminate|intros [? _]; discriminate]|].
    destruct (clash b m); [split; [discriminate|intros [_ ?]; discriminate]|].
    split; auto.
Qed.

Lemma pair_then_unpair_witness :
  ~ linked (run pairing_ops ∅) "AAA1" "BBB2" /\
  ~ linked (run pairing_ops ∅) "BBB2" "AAA1" /\
  edgesOf "AAA1" (fst (removePair "AAA1" "BBB2"
                         (fst (addPair "AAA1" "Phone" "BBB2" "Laptop"
                                 (run pairing_ops ∅)))))
  = [mkEdge "CCC3" "Tablet"].
Proof.
  assert (H1 : ~ linked (run pairing_ops ∅) "AAA1" "BBB2")
    by (unfold linked; vm_compute; discriminate).
  assert (H2 : ~ linked (run pairing_ops ∅) "BBB2" "AAA1")
    by (unfold linked; vm_compute; discriminate).
  split; [exact H1|]. split; [exact H2|].
  rewrite (proj1 (pair_then_unpair _ "AAA1" "Phone" "BBB2" "Laptop" H1 H2) "AAA1").
  vm_compute. reflexivity.
Defined.

(** X18 -- [removePair] is idempotent: a second call leaves every edge list
    as the first left it and ends as the first did, a throw included; and on
    an edge that is not there the call changes no edge list. *)
Theorem unpair_idempotent (m : Pairs) (a b : string) :
  let r1 := removePair a b m in
  let r2 := removePair a b (fst r1) in
  (forall x, edgesOf x (fst r2) = edgesOf x (fst r1)) /\
  snd r2 = snd r1 /\
  (~ linked m a b -> ~ linked m b a -> forall x, edgesOf x (fst r1) = edgesOf x m).
Proof.
  intros r1 r2.
  destruct (removePair_spec a b m) as (He1 & Hs1 & Hc1). fold r1 in He1, Hs1, Hc1.
  destruct (removePair_spec a b (fst r1)) as (He2 & Hs2 & _). fold r2 in He2, Hs2.
  rewrite !Hc1 in He2, Hs2. split; [|split].
  - intros x. rewrite He2. cbv zeta. rewrite !He1. cbv zeta.
    destruct (clash a m) eqn:Ha; [reflexivity|].
    destruct (clash b m) eqn:Hb.
    + destruct (decide (x = a)); [apply without_idem|reflexivity].
    + destruct (decide (x = a)) as [->|Hxa]; destruct (decide (a = b)) as [Heq|Hne].
      * subst b. rewrite !without_idem. reflexivity.
      * apply without_idem.
      * subst b. repeat (rewrite decide_False by exact Hxa). reflexivity.
      * destruct (decide (x = b)); [apply without_idem|reflexivity].
  - rewrite Hs2, Hs1. reflexivity.
  - intros Hab Hba x. apply not_linked_false in Hab, Hba.
    rewrite He1. cbv zeta.
    destruct (clash a m) eqn:Ha; [reflexivity|].
    destruct (clash b m) eqn:Hb.
    + destruct (decide (x = a)) as [->|]; [|reflexivity].
      apply without_not_found. exact Hab.
    + destruct (decide (x = a)) as [->|Hxa]; destruct (decide (a = b)) as [Heq|Hne].
      * subst b. rewrite !(without_not_found _ _ Hab). reflexivity.
      * apply without_not_found. exact Hab.
      * subst b. repeat (rewrite decide_False by exact Hxa). reflexivity.
      * destruct (decide (x = b)) as [->|]; [|reflexivity].
        apply without_not_found. exact Hba.
Qed.

Lemma append_at_most_one peer nm (l : list Edge) :
  exists extra, add_if_missing peer nm l = l ++ extra /\ length extra <= 1.
Proof.
  unfold add_if_missing. destruct (finds peer l).
  - exists []. rewrite List.app_nil_r. simpl. split; [reflexivity|lia].
  - exists [mkEdge peer nm]. simpl. split; [reflexivity|lia].
Qed.

(** X19 -- [addPair] only appends, however it ends: every device keeps the
    entries it had, with their names and in their order; at most one entry
    is added to a list, and none to the list of a device other than the
    two. *)
Theorem pairing_only_appends (m : Pairs) (a na b nb x : string) :
  exists extra,
    edgesOf x (fst (addPair a na b nb m)) = edgesOf x m ++ extra /\
    length extra <= 1 /\
    (x <> a -> x <> b -> extra = []).
Proof.
  destruct (addPair_spec a na b nb m) as (He & _). rewrite He. cbv zeta.
  assert (Hnone : exists extra : list Edge,
             edgesOf x m = edgesOf x m ++ extra /\ length extra <= 1 /\
             (x <> a -> x <> b -> extra = [])).
  { exists []. rewrite List.app_nil_r. simpl. split; [reflexivity|].
    split; [lia|reflexivity]. }
  destruct (clash a m); [exact Hnone|].
  destruct (decide (x = a)) as [->|Hxa].
  - destruct (decide (a = b)) as [<-|Hne].
    + destruct (clash a m).
      * destruct (append_at_most_one a nb (edgesOf a m)) as (extra & -> & Hlen).
        exists extra. split; [reflexivity|]. split; [exact Hlen|congruence].
      * rewrite (add_if_missing_found a na) by apply finds_after_add.
        destruct (append_at_most_one a nb (edgesOf a m)) as (extra & -> & Hlen).
        exists extra. split; [reflexivity|]. split; [exact Hlen|congruence].
    + destruct (append_at_most_one b nb (edgesOf a m)) as (extra & -> & Hlen).
      destruct (clash b m); exists extra;
        (split; [reflexivity|]); (split; [exact Hlen|congruence]).
  - destruct (clash b m); [exact Hnone|].
    destruct (decide (x = b)) as [->|Hxb]; [|exact Hnone].
    destruct (append_at_most_one a na (edgesOf b m)) as (extra & -> & Hlen).
    exists extra. split; [reflexivity|]. split; [exact Hlen|congruence].
Qed.

(** *** Pairing handlers *)

Lemma registry_run_frame events : forall sv,
  pairs (registry_run events sv) = pairs sv /\
  core (registry_run events sv) = core sv.
Proof.
  unfold registry_run. induction events as [|e events IH]; intros sv; [split; reflexivity|].
  cbn [fold_left]. destruct (IH (registry_step sv e)) as [Hp Hc].
  destruct (registry_step_frame sv e) as [Hc' Hp']. split; congruence.
Qed.

Lemma partner_device_spec partnerId (m : Devices) d pd :
  map_get partnerId m = Some d -> deviceId d = Some pd -> pd <> "" ->
  partner_device partnerId m = Some pd.
Proof.
  intros Hg Hd Hne. unfold partner_device. rewrite Hg, Hd.
  apply StringFacts.nonempty_true in Hne. rewrite Hne. reflexivity.
Qed.

Lemma reached_app live self out1 out2 :
  reached live self (out1 ++ out2) = reached live self out1 ∪ reached live self out2.
Proof.
  unfold reached. rewrite fmap_app. apply leibniz_equiv. apply union_list_app.
Qed.

Lemma reached_cons live self e out :
  reached live self (e :: out) = recipients live self e ∪ reached live self out.
Proof. reflexivity. Qed.

Lemma reached_nil live self : reached live self [] = ∅.
Proof. reflexivity. Qed.



Lemma pair_accepted_returned sid data sv pd p :
  partner_device (pa_partnerId data) (connectedDevices sv) = Some pd ->
  addPair (pa_targetId data) (pa_targetName data) pd (pa_partnerName data) (pairs sv)
    = (p, Returned) ->
  pair_accepted sid data sv =
  (set_pairs p sv,
   [savePairs;
    ToRoom (pa_partnerId data) "pairing_success"
      [JObj [("id", JStr (pa_targetId data)); ("name", JStr (pa_targetName data))]];
    ToRoom (pa_partnerId data) "paired_devices_sync" [edges_json (edgesOf pd p)];
    Reply "paired_devices_sync" [edges_json (edgesOf (pa_targetId data) p)]]).
Proof. intros Hpd Hadd. unfold pair_accepted. rewrite Hpd, Hadd. reflexivity. Qed.

Lemma pair_accepted_threw sid data sv pd p msg :
  partner_device (pa_partnerId data) (connectedDevices sv) = Some pd ->
  addPair (pa_targetId data) (pa_targetName data) pd (pa_partnerName data) (pairs sv)
    = (p, Threw msg) ->
  pair_accepted sid data sv = (set_pairs p sv, [Uncaught msg]).
Proof. intros Hpd Hadd. unfold pair_accepted. rewrite Hpd, Hadd. reflexivity. Qed.

Lemma pair_accepted_pairs sid data sv pd :
  partner_device (pa_partnerId data) (connectedDevices sv) = Some pd ->
  pairs (fst (pair_accepted sid data sv))
  = fst (addPair (pa_targetId data) (pa_targetName data) pd (pa_partnerName data)
           (pairs sv)) /\
  connectedDevices (fst (pair_accepted sid data sv)) = connectedDevices sv /\
  core (fst (pair_accepted sid data sv)) = core sv.
Proof.
  intros Hpd. unfold pair_accepted. rewrite Hpd.
  destruct (addPair _ _ _ _ _) as [p [|msg]]; repeat split.
Qed.

(** X21 -- An acceptance.  Let the requester's connection be registered under
    the non-empty device id [pd].  The store becomes what [addPair] leaves,
    and the registry and the history side stay as they are.  When neither
    device id reads an inherited member, the pair is stored both ways and
    saved, and both ends are told: the requester gets [pairing_success] and
    a list that holds the acceptor's device id, the acceptor a list that
    holds [pd]; nobody else gets anything.  When one of them does, the
    exception of [addPair] leaves the handler: nothing is saved, nobody is
    told, and no list but the acceptor's has changed. *)
Theorem accept_pairs_both (sid : string) (data : PairAccept) (sv : Server)
    (d : Device) (pd : string) :
  map_get (pa_partnerId data) (connectedDevices sv) = Some d ->
  deviceId d = Some pd ->
  pd <> "" ->
  let r := pair_accepted sid data sv in
  let p := pairs (fst r) in
  let target := pa_targetId data in
  p = fst (addPair target (pa_targetName data) pd (pa_partnerName data) (pairs sv)) /\
  connectedDevices (fst r) = connectedDevices sv /\
  core (fst r) = core sv /\
  (clash target (pairs sv) = false -> clash pd (pairs sv) = false ->
   linked p target pd /\
   linked p pd target /\
   snd r = [savePairs;
            ToRoom (pa_partnerId data) "pairing_success"
              [JObj [("id", JStr target); ("name", JStr (pa_targetName data))]];
            ToRoom (pa_partnerId data) "paired_devices_sync" [edges_json (edgesOf pd p)];
            Reply "paired_devices_sync" [edges_json (edgesOf target p)]] /\
   (forall live x, x ∈ reached live sid (snd r) -> x = pa_partnerId data \/ x = sid)) /\
  (clash target (pairs sv) = true \/ clash pd (pairs sv) = true ->
   (exists msg, snd r = [Uncaught msg]) /\
   (forall live, reached live sid (snd r) = ∅) /\
   (forall x, x <> target -> edgesOf x p = edgesOf x (pairs sv))).
Proof.
  intros Hg Hd Hne r p target.
  pose proof (partner_device_spec _ _ _ _ Hg Hd Hne) as Hpd.
  destruct (pair_accepted_pairs sid data sv pd Hpd) as (Hp & Hdev & Hcore).
  fold r in Hp, Hdev, Hcore. fold p in Hp. fold target in Hp.
  destruct (addPair_spec target (pa_targetName data) pd (pa_partnerName data) (pairs sv))
    as (He & Hs & _).
  split; [exact Hp|]. split; [exact Hdev|]. split; [exact Hcore|]. split.
  - intros Ht Hq. rewrite Ht, Hq in Hs.
    assert (Hadd : addPair target (pa_targetName data) pd (pa_partnerName data) (pairs sv)
                   = (p, Returned)).
    { rewrite Hp, <- Hs. apply surjective_pairing. }
    assert (Hr : snd r = [savePairs;
              ToRoom (pa_partnerId data) "pairing_success"
                [JObj [("id", JStr target); ("name", JStr (pa_targetName data))]];
              ToRoom (pa_partnerId data) "paired_devices_sync" [edges_json (edgesOf pd p)];
              Reply "paired_devices_sync" [edges_json (edgesOf target p)]]).
    { unfold r. rewrite (pair_accepted_returned sid data sv pd p Hpd Hadd). reflexivity. }
    split; [rewrite Hp; apply linked_addPair; tauto|].
    split; [rewrite Hp; apply linked_addPair; tauto|].
    split; [exact Hr|].
    intros live x. rewrite Hr, !reached_cons, reached_nil. cbn [recipients savePairs].
    destruct (decide (pa_partnerId data ∈ live)); set_solver.
  - intros Hclash.
    assert (Hthrew : exists msg, snd (addPair target (pa_targetName data) pd
                                        (pa_partnerName data) (pairs sv)) = Threw msg).
    { rewrite Hs. destruct (clash target (pairs sv)); [eauto|].
      destruct (clash pd (pairs sv)); [eauto|]. destruct Hclash; discriminate. }
    destruct Hthrew as [msg Hmsg].
    assert (Hadd : addPair target (pa_targetName data) pd (pa_partnerName data) (pairs sv)
                   = (p, Threw msg)).
    { rewrite Hp, <- Hmsg. apply surjective_pairing. }
    assert (Hr : snd r = [Uncaught msg]).
    { unfold r. rewrite (pair_accepted_threw sid data sv pd p msg Hpd Hadd). reflexivity. }
    split; [eauto|]. split.
    + intros live. rewrite Hr. reflexivity.
    + intros x Hx. rewrite Hp, He. cbv zeta.
      destruct (clash target (pairs sv)); [reflexivity|].
      rewrite decide_False by exact Hx.
      destruct (clash pd (pairs sv)); [reflexivity|]. destruct Hclash; discriminate.
Qed.

Lemma accept_pairs_both_witness :
  map_get "s1" (connectedDevices both_online)
    = Some (mkDevice "s1" (Some "Phone") true false (Some "AAA1")) /\
  clash "BBB2" (pairs both_online) = false /\
  clash "AAA1" (pairs both_online) = false /\
  edgesOf "AAA1" (pairs paired) = [mkEdge "BBB2" "Laptop"] /\
  edgesOf "BBB2" (pairs paired) = [mkEdge "AAA1" "Phone"] /\
  linked (pairs paired) "BBB2" "AAA1".
Proof.
  assert (H0 : map_get "s1" (connectedDevices both_online)
               = Some (mkDevice "s1" (Some "Phone") true false (Some "AAA1")))
    by reflexivity.
  assert (H1 : "AAA1" <> "") by discriminate.
  assert (H2 : clash "BBB2" (pairs both_online) = false) by reflexivity.
  assert (H3 : clash "AAA1" (pairs both_online) = false) by reflexivity.
  destruct (accept_pairs_both "s2" accept both_online _ "AAA1" H0 eq_refl H1)
    as (_ & _ & _ & Hok & _).
  destruct (Hok H2 H3) as (Hl & _).
  split; [exact H0|]. split; [exact H2|]. split; [exact H3|].
  split; [vm_compute; reflexivity|].
  split; [vm_compute; reflexivity|exact Hl].
Defined.







(** X23 -- Saved pairs come back on reconnection.  After an acceptance on
    device ids that read no inherited member, and whatever happens to the
    registry afterwards, a connection that registers under the acceptor's
    device id is sent a list that holds the requester's device id, and one
    that registers under the requester's a list that holds the acceptor's;
    the list goes to that connection alone, ahead of the broadcast of the
    device list. *)
Theorem pairs_return_on_register (sid : string) (data : PairAccept) (sv : Server)
    (d : Device) (pd : string) (events : list RegistryEvent)
    (sid' : string) (reg : Registration) :
  map_get (pa_partnerId data) (connectedDevices sv) = Some d ->
  deviceId d = Some pd ->
  pd <> "" ->
  clash (pa_targetId data) (pairs sv) = false ->
  clash pd (pairs sv) = false ->
  let sv2 := registry_run events (fst (pair_accepted sid data sv)) in
  let out := snd (device_register sid' reg sv2) in
  (r_deviceId reg = Some (pa_targetId data) ->
   exists l rest,
     out = Reply "paired_devices_sync" [edges_json l] :: rest /\
     finds pd l = true /\
     Forall (fun e => to_asker e = false) rest) /\
  (r_deviceId reg = Some pd ->
   exists l rest,
     out = Reply "paired_devices_sync" [edges_json l] :: rest /\
     finds (pa_targetId data) l = true /\
     Forall (fun e => to_asker e = false) rest).
Proof.
  intros Hg Hd Hne Ht Hq sv2 out.
  assert (Hp : pairs sv2 = fst (addPair (pa_targetId data) (pa_targetName data) pd
                                  (pa_partnerName data) (pairs sv))).
  { unfold sv2. rewrite (proj1 (registry_run_frame events _)).
    apply pair_accepted_pairs. exact (partner_device_spec _ _ _ _ Hg Hd Hne). }
  assert (Hsync : forall a b, linked (pairs sv2) a b -> r_deviceId reg = Some a ->
            exists l rest,
              out = Reply "paired_devices_sync" [edges_json l] :: rest /\
              finds b l = true /\ Forall (fun e => to_asker e = false) rest).
  { intros a b Hl Hr. unfold out, device_register. cbn [snd]. rewrite Hr. cbn [pair_key].
    unfold linked, edgesOf in Hl. unfold slot.
    destruct (pairs sv2 !! a) as [l|]; [|discriminate].
    exists l. eexists. split; [reflexivity|]. split; [exact Hl|].
    repeat constructor. }
  split; intros Hr.
  - apply (Hsync (pa_targetId data) pd); [|exact Hr].
    rewrite Hp. apply linked_addPair; tauto.
  - apply (Hsync pd (pa_targetId data)); [|exact Hr].
    rewrite Hp. apply linked_addPair; tauto.
Qed.

Lemma pairs_return_on_register_witness :
  map_get "s1" (connectedDevices both_online)
    = Some (mkDevice "s1" (Some "Phone") true false (Some "AAA1")) /\
  exists l rest,
    snd (device_register "s9" laptop
           (registry_run [ev_disconnect "s2"; ev_disconnect "s1"] paired))
    = Reply "paired_devices_sync" [edges_json l] :: rest /\
    finds "AAA1" l = true.
Proof.
  assert (H0 : map_get "s1" (connectedDevices both_online)
               = Some (mkDevice "s1" (Some "Phone") true false (Some "AAA1")))
    by reflexivity.
  assert (H1 : "AAA1" <> "") by discriminate.
  destruct (pairs_return_on_register "s2" accept both_online _ "AAA1"
              [ev_disconnect "s2"; ev_disconnect "s1"] "s9" laptop H0 eq_refl H1
              eq_refl eq_refl)
    as [Hacc _].
  destruct (Hacc eq_refl) as (l & rest & Hout & Hfound & _).
  split; [exact H0|]. exists l, rest. split; [exact Hout|exact Hfound].
Defined.

Example reconnect_after_restart :
  snd (device_register "s9" laptop
         (registry_run [ev_disconnect "s2"; ev_disconnect "s1"] paired))
  = [Reply "paired_devices_sync"
       [JArr [JObj [("id", JStr "AAA1"); ("name", JStr "Phone")]]];
     Broadcast "device_list"
       [JArr [JObj [("id", JStr "s9"); ("name", JStr "Laptop");
                    ("isMobile", JBool false); ("hasCamera", JBool false);
                    ("deviceId", JStr "BBB2")]]]].
Proof. vm_compute. reflexivity. Qed.

End PairingMoreFacts.

(* ===================================================================== *)
(** ** More on captures, buckets, follow-ups and the provider gateway *)
(* ===================================================================== *)

Module MoreHubFacts.
Import Js Hub Notions Notions2 Samples Samples2.
Import StringFacts GatewayFacts HistoryFacts FollowUpFacts OrchestratorFacts MachineFacts.

(** *** Buckets *)

Lemma split_at (sep : ascii) (l rest : string) :
  mentions sep l = false ->
  split sep (l +:+ String sep rest) = l :: split sep rest.
Proof.
  induction l as [|c l IH]; intros H.
  - rewrite append_nil. simpl. rewrite Ascii.eqb_refl. reflexivity.
  - simpl in H. apply orb_false_iff in H as [Hc Hl].
    rewrite append_cons. simpl. rewrite Hc, (IH Hl). reflexivity.
Qed.

Lemma append_length (a b : string) :
  String.length (a +:+ b) = String.length a + String.length b.
Proof.
  induction a as [|c a IH]; [reflexivity|].
  rewrite append_cons. simpl. rewrite IH. reflexivity.
Qed.

Lemma append_inv_l (a b c : string) : a +:+ b = a +:+ c -> b = c.
Proof.
  induction a as [|x a IH]; [rewrite !append_nil; trivial|].
  rewrite !append_cons. intros H. injection H as H. exact (IH H).
Qed.

Lemma append_inv_r (s : string) : forall a b, a +:+ s = b +:+ s -> a = b.
Proof.
  induction a as [|x a IH]; intros b H.
  - destruct b as [|y b]; [reflexivity|].
    apply (f_equal String.length) in H. rewrite !append_length in H.
    simpl in H. lia.
  - destruct b as [|y b].
    + apply (f_equal String.length) in H. rewrite !append_length in H.
      simpl in H. lia.
    + rewrite !append_cons in H. injection H as -> H. rewrite (IH b H). reflexivity.
Qed.

(** X6 -- The bucket is named by the date part of the instant.  For an ISO instant
    [date ++ "T" ++ time], [getDailyPath] gives the folder of [date] and its
    web path, whatever the time; two instants share the day's log exactly
    when their dates are the same text. *)
Theorem bucket_by_date (date time : string) :
  mentions "T" date = false ->
  getDailyPath (date +:+ "T" +:+ time)
    = ("public/history/" +:+ date, "/history/" +:+ date) /\
  jsonlPath (date +:+ "T" +:+ time) = "public/history/" +:+ date +:+ "/data.jsonl" /\
  (forall date' time',
      mentions "T" date' = false ->
      (jsonlPath (date +:+ "T" +:+ time) = jsonlPath (date' +:+ "T" +:+ time')
       <-> date = date')).
Proof.
  intros Hd.
  assert (Hpath : forall d t, mentions "T" d = false ->
            getDailyPath (d +:+ "T" +:+ t) = ("public/history/" +:+ d, "/history/" +:+ d)).
  { intros d t H. unfold getDailyPath.
    change (d +:+ "T" +:+ t) with (d +:+ String "T" t).
    rewrite (split_at _ _ _ H). reflexivity. }
  assert (Hlog : forall d t, mentions "T" d = false ->
            jsonlPath (d +:+ "T" +:+ t) = "public/history/" +:+ d +:+ "/data.jsonl").
  { intros d t H. unfold jsonlPath, path_join. rewrite (Hpath d t H). cbn [fst].
    rewrite append_assoc. reflexivity. }
  split; [apply Hpath, Hd|]. split; [apply Hlog, Hd|].
  intros date' time' Hd'. rewrite (Hlog _ _ Hd), (Hlog _ _ Hd'). split.
  - intros H. apply append_inv_l in H. apply append_inv_r in H. exact H.
  - intros ->. reflexivity.
Qed.

Lemma bucket_by_date_witness :
  mentions "T" "2024-01-01" = false /\
  getDailyPath ("2024-01-01" +:+ "T" +:+ "23:59:59.000Z")
    = ("public/history/" +:+ "2024-01-01", "/history/" +:+ "2024-01-01").
Proof.
  assert (H : mentions "T" "2024-01-01" = false) by reflexivity.
  split; [exact H|]. exact (proj1 (bucket_by_date "2024-01-01" "23:59:59.000Z" H)).
Defined.

(** *** Captures *)

Lemma unshift_capped_head r h : exists tail, unshift_capped r h = r :: tail.
Proof.
  unfold unshift_capped. cbv zeta.
  destruct (Nat.ltb_spec 50 (length (r :: h))) as [Hlt|Hge]; [|eauto].
  destruct h as [|x h]; [simpl in Hlt; lia|].
  exists (removelast (x :: h)). reflexivity.
Qed.

(** X2 -- A successful capture.  When the request carries an image and the backend
    answers, the handler writes the image, announces the scan, appends one
    line -- the printed record and a newline -- to the log of the day and to
    no other log, puts the record at the head of the window, broadcasts it
    as [new_answer], then the window as [history_update], and answers 200. *)
Theorem capture_succeeds_once (JSON_stringify : json -> string)
    (req : Upload) (clk : CaptureClock) (raw : completion string)
    (st : State) (buffer answer : string) :
  file req = Some buffer ->
  settle (capture_call (config st) req buffer) raw = Normal answer ->
  let r := analyze JSON_stringify req clk raw st in
  let record := result_data (pending_of (config st) req clk buffer) answer in
  let log := jsonlPath (c_dayIso clk) in
  disk (fst r) !! log
    = Some (match disk st !! log with Some c => c | None => "" end
            +:+ JSON_stringify record +:+ nl) /\
  (forall nowIso, jsonlPath nowIso <> log ->
                  disk (fst r) !! jsonlPath nowIso = disk st !! jsonlPath nowIso) /\
  disk (fst r) !! image_path clk = Some buffer /\
  (exists tail, history (fst r) = record :: tail) /\
  history (fst r) = unshift_capped record (history st) /\
  snd r = [DiskWrite (image_path clk); new_scan_of clk;
           Await (capture_call (config st) req buffer);
           DiskWrite log;
           Broadcast "new_answer" [record];
           Broadcast "history_update" [JArr (history (fst r))];
           Respond 200 (Json (JObj [("success", JBool true)]))].
Proof.
  intros Hfile Hok r record log.
  assert (Hrec : recorded (config st) (req, clk, raw) = Some record).
  { unfold recorded. rewrite Hfile. cbv zeta.
    change (p_call (pending_of (config st) req clk buffer))
      with (capture_call (config st) req buffer).
    rewrite Hok. reflexivity. }
  pose proof (analyze_history JSON_stringify req clk raw st) as Hh.
  rewrite Hrec in Hh. fold r in Hh.
  split; [|split; [|split; [|split; [|split]]]].
  - unfold r, log. rewrite (analyze_log JSON_stringify req clk raw st (c_dayIso clk)), Hrec.
    rewrite decide_True by reflexivity. reflexivity.
  - intros nowIso Hne. unfold r.
    rewrite (analyze_log JSON_stringify req clk raw st nowIso), Hrec.
    rewrite decide_False by (unfold log in Hne; congruence). reflexivity.
  - unfold r, analyze, analyze_begin. rewrite Hfile. unfold analyze_resume.
    change (p_call (pending_of (config st) req clk buffer))
      with (capture_call (config st) req buffer).
    change (config (writeFileSync (image_path clk) buffer st)) with (config st).
    rewrite Hok. cbn [fst]. unfold appendFileSync, set_history, set_disk. cbn [disk].
    change (path_join (p_fullPath (pending_of (config st) req clk buffer)) "data.jsonl")
      with (jsonlPath (c_dayIso clk)).
    rewrite lookup_insert_ne by (intros H; symmetry in H; revert H; apply image_path_not_log).
    unfold writeFileSync, set_disk. cbn [disk]. apply lookup_insert_eq.
  - rewrite Hh. apply unshift_capped_head.
  - exact Hh.
  - rewrite Hh. unfold r, analyze, analyze_begin. rewrite Hfile. unfold analyze_resume.
    change (p_call (pending_of (config st) req clk buffer))
      with (capture_call (config st) req buffer).
    rewrite Hok. reflexivity.
Qed.

Lemma capture_succeeds_once_witness :
  file upload = Some "JPEG" /\
  settle (capture_call (config two_days) upload "JPEG") (Normal "ok") = Normal "ok" /\
  disk (fst (analyze print upload (numbered_clock 7) (Normal "ok") two_days))
    !! jsonlPath day2
  = Some ((print morning_record +:+ nl)
          +:+ print (result_data (pending_of cfg upload (numbered_clock 7) "JPEG") "ok")
          +:+ nl).
Proof.
  assert (H1 : file upload = Some "JPEG") by reflexivity.
  assert (H2 : settle (capture_call (config two_days) upload "JPEG") (Normal "ok")
               = Normal "ok") by reflexivity.
  destruct (capture_succeeds_once print upload (numbered_clock 7) (Normal "ok")
              two_days "JPEG" "ok" H1 H2) as (Hlog & _).
  split; [exact H1|]. split; [exact H2|].
  assert (Hday : jsonlPath (c_dayIso (numbered_clock 7)) = jsonlPath day2)
    by (vm_compute; reflexivity).
  rewrite Hday in Hlog. rewrite Hlog.
  replace (disk two_days !! jsonlPath day2) with (Some (print morning_record +:+ nl))
    by (vm_compute; reflexivity).
  reflexivity.
Defined.

(** X3 -- A capture for Gemini without a key.  When the upload names [gemini] and
    no key is set, the capture fails whatever the backend would have said,
    and nothing is sent to it; the image is stored all the same and the scan
    was announced, then [scan_failed] and [error] with the missing-key
    message go to every connection and the request is answered 500.  The
    window and every day's log stay as they were. *)
Theorem capture_without_key (JSON_stringify : json -> string)
    (req : Upload) (clk : CaptureClock) (raw : completion string)
    (st : State) (buffer : string) :
  file req = Some buffer ->
  provider req = Some "gemini" ->
  GEMINI_API_KEY (config st) = "" ->
  let r := analyze JSON_stringify req clk raw st in
  let msg := "Gemini API Error: Gemini API Key is missing in settings." in
  capture_call (config st) req buffer = Refused msg /\
  fst r = writeFileSync (image_path clk) buffer st /\
  disk (fst r) !! image_path clk = Some buffer /\
  history (fst r) = history st /\
  (forall nowIso, disk (fst r) !! jsonlPath nowIso = disk st !! jsonlPath nowIso) /\
  messages (snd r) = [new_scan_of clk; Broadcast "scan_failed" [];
                      Broadcast "error" [JObj [("message", JStr msg)]]] /\
  In (Respond 500 (Text msg)) (snd r).
Proof.
  intros Hfile Hprov Hkey r msg.
  assert (Hcall : capture_call (config st) req buffer = Refused msg).
  { unfold capture_call, askGemini. rewrite Hprov, Hkey.
    rewrite bool_decide_eq_true_2 by reflexivity. reflexivity. }
  assert (Hr : r = (writeFileSync (image_path clk) buffer st,
                    [DiskWrite (image_path clk); new_scan_of clk;
                     Await (capture_call (config st) req buffer)]
                    ++ helper_log (capture_call (config st) req buffer) raw
                    ++ failure_effects msg)).
  { apply analyze_failed; [exact Hfile|]. rewrite Hcall. reflexivity. }
  rewrite Hr. cbn [fst snd]. split; [exact Hcall|]. split; [reflexivity|].
  split; [unfold writeFileSync, set_disk; cbn [disk]; apply lookup_insert_eq|].
  split; [reflexivity|]. split; [intros nowIso; apply image_write_keeps_logs|].
  split.
  - rewrite !messages_app, helper_log_messages. reflexivity.
  - apply in_or_app. right. apply in_or_app. right. unfold failure_effects.
    right. right. right. left. reflexivity.
Qed.

Lemma capture_without_key_witness :
  file gemini_upload = Some "JPEG" /\
  provider gemini_upload = Some "gemini" /\
  GEMINI_API_KEY (config two_days) = "" /\
  fst (analyze print gemini_upload (numbered_clock 7) (Normal "ok") two_days)
  = writeFileSync (image_path (numbered_clock 7)) "JPEG" two_days.
Proof.
  assert (H1 : file gemini_upload = Some "JPEG") by reflexivity.
  assert (H2 : provider gemini_upload = Some "gemini") by reflexivity.
  assert (H3 : GEMINI_API_KEY (config two_days) = "") by reflexivity.
  destruct (capture_without_key print gemini_upload (numbered_clock 7) (Normal "ok")
              two_days "JPEG" H1 H2 H3) as (_ & Hst & _).
  split; [exact H1|]. split; [exact H2|]. split; [exact H3|]. exact Hst.
Defined.

(** *** The window under interleaving *)

Section Machine.
Variable JSON_parse : string -> completion json.
Variable JSON_stringify : json -> string.

Lemma run_inputs_window trace : forall st,
  length (history st) <= 50 ->
  length (history (run_inputs JSON_parse JSON_stringify trace st)) <= 50.
Proof.
  unfold run_inputs. induction trace as [|i trace IH]; intros st Hlen; [exact Hlen|].
  cbn [fold_left]. apply IH, step_window, Hlen.
Qed.

Lemma run_inputs_records trace : forall st,
  Forall is_record (history st) ->
  Forall is_record (history (run_inputs JSON_parse JSON_stringify trace st)).
Proof.
  unfold run_inputs. induction trace as [|i trace IH]; intros st Hrec; [exact Hrec|].
  cbn [fold_left]. apply IH, step_records, Hrec.
Qed.

End Machine.

(** X4 -- The window under interleaving.  Turns of the event loop may come in any
    order: uploads, settled captures (in the order the backend answers, not
    the order of the uploads), settled follow-ups, relay messages.  From a
    window of at most 50 items, the window never exceeds 50, and its ids are
    those of the records appended, newest append first, ahead of the ids
    that were there, cut at 50: follow-ups change no id, uploads and relay
    messages change nothing.  A window of records stays one. *)
Theorem window_under_interleaving
    (JSON_parse : string -> completion json) (JSON_stringify : json -> string)
    (trace : list Input) (st : State) :
  length (history st) <= 50 ->
  let st' := run_inputs JSON_parse JSON_stringify trace st in
  length (history st') <= 50 /\
  map id_of (history st') =
    firstn 50 (rev (map id_of (omap appended trace)) ++ map id_of (history st)) /\
  (Forall is_record (history st) -> Forall is_record (history st')).
Proof.
  intros Hlen st'. split; [|split].
  - apply run_inputs_window. exact Hlen.
  - apply run_inputs_ids. exact Hlen.
  - apply run_inputs_records.
Qed.

Lemma window_under_interleaving_witness :
  length (history empty_hub) <= 50 /\
  map id_of (history (run_inputs parse print overlapped empty_hub))
  = [Some (JStr "1704153599001"); Some (JStr "1704182400002")] /\
  map thread_of (history (run_inputs parse print overlapped empty_hub))
  = [[]; [thread_entry ask_morning "because" "8:05:00 AM"]].
Proof.
  assert (H0 : length (history empty_hub) <= 50) by (simpl; lia).
  destruct (window_under_interleaving parse print overlapped empty_hub H0) as (_ & Hids & _).
  split; [exact H0|]. split.
  - rewrite Hids. vm_compute. reflexivity.
  - vm_compute. reflexivity.
Defined.

(** *** Reload of a long log *)

(** X5 -- When the day's log holds more than 50 records, the start-up load keeps
    the 50 last ones, most recent first, and reports 50 items. *)
Theorem reload_keeps_newest_50 (JSON_parse : string -> completion json)
    (nowIso data : string) (st : State) :
  history st = [] ->
  disk st !! jsonlPath nowIso = Some data ->
  50 < length (parsed JSON_parse (bucket_lines data)) ->
  let rs := parsed JSON_parse (bucket_lines data) in
  let r := loadHistory JSON_parse nowIso st in
  history (fst r) = rev (skipn (length rs - 50) rs) /\
  length (history (fst r)) = 50 /\
  snd r = warnings JSON_parse (bucket_lines data)
          ++ [Console "log" ["Loaded 50 items from history."]] /\
  disk (fst r) = disk st.
Proof.
  intros Hempty Hdisk Hmany rs r. unfold r.
  rewrite (loadHistory_existing JSON_parse nowIso st data Hdisk). cbv zeta.
  rewrite Hempty, List.app_nil_r. fold rs. cbn [fst snd history set_history disk].
  assert (Hwin : firstn 50 (rev rs) = rev (skipn (length rs - 50) rs))
    by apply List.firstn_rev.
  assert (Hlen : length (firstn 50 (rev rs)) = 50).
  { rewrite List.length_firstn, List.length_rev. unfold rs. lia. }
  split; [exact Hwin|]. split; [exact Hlen|]. split; [|reflexivity].
  rewrite Hlen. reflexivity.
Qed.

Lemma reload_keeps_newest_50_witness :
  history long_day = [] /\
  disk long_day !! jsonlPath day2 = Some long_log /\
  50 < length (parsed parse_burst (bucket_lines long_log)) /\
  history (fst (loadHistory parse_burst day2 long_day)) = rev (skipn 1 burst_records).
Proof.
  assert (H1 : history long_day = []) by reflexivity.
  assert (H2 : disk long_day !! jsonlPath day2 = Some long_log) by (vm_compute; reflexivity).
  assert (H3 : parsed parse_burst (bucket_lines long_log) = burst_records)
    by (vm_compute; reflexivity).
  assert (H4 : 50 < length (parsed parse_burst (bucket_lines long_log)))
    by (rewrite H3; vm_compute; lia).
  destruct (reload_keeps_newest_50 parse_burst day2 long_log long_day H1 H2 H4) as (Hwin & _).
  split; [exact H1|]. split; [exact H2|]. split; [exact H4|].
  rewrite Hwin, H3. reflexivity.
Defined.

End MoreHubFacts.

(* ===================================================================== *)
(** ** More on follow-ups *)
(* ===================================================================== *)

Module MoreFollowUpFacts.
Import Js Hub Notions Notions2 Samples Samples2.
Import StringFacts GatewayFacts HistoryFacts FollowUpFacts RelayFacts PairingMoreFacts.

Lemma or_default_twice (s : option string) (d : string) :
  d <> "" -> or_default (Some (or_default s d)) d = or_default s d.
Proof.
  intros Hd. apply String.eqb_neq in Hd. unfold or_default.
  destruct s as [x|]; [destruct (String.eqb x "") eqn:Hx|]; rewrite ?Hd, ?Hx; reflexivity.
Qed.

Lemma or_default_nonempty (s : option string) (d : string) :
  d <> "" -> nonempty (or_default s d) = true.
Proof.
  intros Hd. apply String.eqb_neq in Hd. unfold nonempty, or_default.
  destruct s as [x|]; [destruct (String.eqb x "") eqn:Hx|]; rewrite ?Hd, ?Hx; reflexivity.
Qed.

(** X8 -- What a follow-up asks the backend.  The backend is chosen by
    [DEFAULT_PROVIDER] alone; the request never carries an image; the text is
    always framed as context and question, with [No previous context.] when
    the client sent none, and the question is the prompt, behind the
    web-search preamble when that was asked for; the model defaults to
    [gemini-1.5-flash] or [llama3].  Gemini without a key is refused before
    anything is sent. *)
Theorem followup_request (data : FollowUp) (st : State) :
  let text :=
    "Context:" +:+ nl +:+ or_default (historyContext data) "No previous context."
    +:+ nl +:+ nl +:+ "Question: "
    +:+ (if webSearch data then web_search_preamble +:+ prompt data else prompt data) in
  followup_begin data st =
  if String.eqb (DEFAULT_PROVIDER (config st)) "gemini"
  then if String.eqb (GEMINI_API_KEY (config st)) ""
       then Refused "Gemini API Error: Gemini API Key is missing in settings."
       else Sent (mkRequest Gemini (Some (or_default (model data) "gemini-1.5-flash"))
                    text None)
  else Sent (mkRequest Ollama (Some (or_default (model data) "llama3")) text None).
Proof.
  intros text. unfold followup_begin. cbv zeta.
  assert (Hctx : full_prompt
                   (if webSearch data then web_search_preamble +:+ prompt data
                    else prompt data)
                   (Some (or_default (historyContext data) "No previous context."))
                 = text).
  { unfold full_prompt. rewrite or_default_nonempty by discriminate. reflexivity. }
  destruct (String.eqb (DEFAULT_PROVIDER (config st)) "gemini").
  - unfold askGemini. destruct (String.eqb (GEMINI_API_KEY (config st)) "").
    + reflexivity.
    + rewrite Hctx, or_default_twice by discriminate. reflexivity.
  - unfold askOllama. rewrite Hctx. reflexivity.
Qed.

Section Json.
Variable JSON_parse : string -> completion json.
Variable JSON_stringify : json -> string.

Lemma update_first_breaks wanted entry item post : forall pre,
  Forall (fun v => id_is wanted v = Normal false) pre ->
  breaks_update wanted item ->
  exists msg, update_first wanted entry (pre ++ item :: post) = Thrown msg.
Proof.
  induction pre as [|v pre IH]; intros Hpre Hbad.
  - cbn [app update_first]. destruct Hbad as [->|(fields & t & -> & Hid & Ht & Htruthy & Hnot)].
    + eexists. reflexivity.
    + rewrite Hid. cbn [mbind completion_bind]. unfold push_thread.
      rewrite Ht, Htruthy, Ht.
      destruct t; try (eexists; reflexivity). exfalso. eapply Hnot. reflexivity.
  - inversion Hpre as [|? ? Hv Hrest]; subst. cbn [app update_first]. rewrite Hv.
    cbn [mbind completion_bind]. destruct (IH Hrest Hbad) as [msg ->].
    eexists. reflexivity.
Qed.

Lemma rewrite_line_printed wanted entry r :
  JSON_parse (JSON_stringify r) = Normal r ->
  rewrite_line JSON_parse JSON_stringify wanted entry (JSON_stringify r)
  = JSON_stringify (threaded wanted entry r).
Proof.
  intros Hr. unfold rewrite_line, threaded. rewrite Hr.
  destruct (id_is wanted r) as [[|]|]; try reflexivity.
  destruct (push_thread entry r); reflexivity.
Qed.

Lemma rewrite_lines_printed wanted entry rs :
  Forall (prints_well JSON_parse JSON_stringify) rs ->
  map (rewrite_line JSON_parse JSON_stringify wanted entry) (map JSON_stringify rs)
  = map JSON_stringify (map (threaded wanted entry) rs).
Proof.
  induction 1 as [|r rs Hr _ IH]; [reflexivity|].
  cbn [map]. rewrite IH, rewrite_line_printed by apply Hr. reflexivity.
Qed.

Lemma last_map {A B} (f : A -> B) (l : list A) (d : A) :
  List.last (map f l) (f d) = f (List.last l d).
Proof.
  induction l as [|x l IH]; [reflexivity|].
  destruct l as [|y l]; [reflexivity|]. exact IH.
Qed.

Lemma last_default {A} (l : list A) : forall (x d d' : A),
  List.last (x :: l) d = List.last (x :: l) d'.
Proof.
  induction l as [|y l IH]; intros x d d'; [reflexivity|].
  change (List.last (x :: y :: l) d) with (List.last (y :: l) d).
  change (List.last (x :: y :: l) d') with (List.last (y :: l) d'). apply IH.
Qed.

Lemma last_In {A} (l : list A) : forall (x d : A), In (List.last (x :: l) d) (x :: l).
Proof.
  induction l as [|y l IH]; intros x d; [left; reflexivity|].
  right. change (List.last (x :: y :: l) d) with (List.last (y :: l) d). apply IH.
Qed.

Lemma canonical_printed rs :
  rs <> [] ->
  Forall (prints_well JSON_parse JSON_stringify) rs ->
  canonical (map JSON_stringify rs).
Proof.
  intros Hne Hall. destruct rs as [|r rs]; [congruence|].
  unfold canonical. split; [discriminate|]. split; [|split].
  - apply List.Forall_map. eapply List.Forall_impl; [|exact Hall].
    intros r0 Hr. apply Hr.
  - inversion Hall as [|? ? Hr _]; subst. cbn [map hd]. apply Hr.
  - cbn [map]. rewrite (last_default _ _ "" (JSON_stringify r)).
    change (JSON_stringify r :: map JSON_stringify rs) with (map JSON_stringify (r :: rs)).
    rewrite last_map. rewrite List.Forall_forall in Hall.
    apply (Hall _ (last_In rs r r)).
Qed.

Lemma threaded_other wanted entry r :
  has_id wanted r = false -> threaded wanted entry r = r.
Proof.
  unfold has_id, threaded. destruct (id_is wanted r) as [[|]|]; [discriminate|reflexivity..].
Qed.

Lemma map_threaded_others wanted entry rs :
  List.filter (has_id wanted) rs = [] -> map (threaded wanted entry) rs = rs.
Proof.
  induction rs as [|r rs IH]; [reflexivity|]. cbn [List.filter].
  destruct (has_id wanted r) eqn:Hr; [discriminate|]. intros Hrest.
  cbn [map]. rewrite threaded_other by exact Hr. rewrite IH by exact Hrest. reflexivity.
Qed.

(** When at most one record answers to the id, changing the first match is
    changing every match. *)
Lemma update_first_unique wanted entry h :
  Forall is_record h -> at_most_once wanted h ->
  update_first wanted entry h = Normal (map (threaded wanted entry) h).
Proof.
  unfold at_most_once. induction 1 as [|v h Hv _ IH]; intros Hone; [reflexivity|].
  cbn [update_first map]. cbn [List.filter] in Hone.
  destruct (id_is_record wanted v Hv) as [b Hb]. unfold has_id in Hone.
  unfold threaded at 1. rewrite Hb in *. cbn [mbind completion_bind].
  destruct b.
  - destruct v as [| | | | |fields]; try contradiction.
    destruct (push_thread_record entry fields Hv) as (fields' & -> & _).
    cbn [mbind completion_bind]. rewrite map_threaded_others; [reflexivity|].
    cbn [length] in Hone. destruct (List.filter _ h); [reflexivity|simpl in Hone; lia].
  - rewrite (IH Hone). reflexivity.
Qed.

End Json.

Lemma followup_begin_no_key (data : FollowUp) (st : State) :
  DEFAULT_PROVIDER (config st) = "gemini" ->
  GEMINI_API_KEY (config st) = "" ->
  followup_begin data st
  = Refused "Gemini API Error: Gemini API Key is missing in settings.".
Proof.
  intros Hp Hk. unfold followup_begin, askGemini. cbv zeta. rewrite Hp, Hk. reflexivity.
Qed.

Lemma followup_settle_thrown (data : FollowUp) (st : State) (m : string) :
  settle (followup_begin data st) (Thrown m)
  = Thrown (if String.eqb (DEFAULT_PROVIDER (config st)) "gemini"
            then if String.eqb (GEMINI_API_KEY (config st)) ""
                 then "Gemini API Error: Gemini API Key is missing in settings."
                 else "Gemini API Error: " +:+ m
            else "Ollama API Error: " +:+ m).
Proof.
  unfold followup_begin, askGemini, askOllama. cbv zeta.
  destruct (String.eqb (DEFAULT_PROVIDER (config st)) "gemini");
    [destruct (String.eqb (GEMINI_API_KEY (config st)) "")|]; reflexivity.
Qed.

(** X9 -- A backend failure in a follow-up.  When the backend call of a follow-up
    fails, or Gemini is the provider and no key is set, the window and the
    disk stay as they were, nothing is written, and the one message goes to
    the asking connection: [error] with [Follow-up failed: ] and the failure
    under the name of the provider. *)
Theorem followup_backend_failure
    (JSON_parse : string -> completion json) (JSON_stringify : json -> string)
    (data : FollowUp) (m localeTime nowIso : string) (st : State) :
  let r := ask_followup JSON_parse JSON_stringify data (Thrown m) localeTime nowIso st in
  let msg :=
    if String.eqb (DEFAULT_PROVIDER (config st)) "gemini"
    then if String.eqb (GEMINI_API_KEY (config st)) ""
         then "Gemini API Error: Gemini API Key is missing in settings."
         else "Gemini API Error: " +:+ m
    else "Ollama API Error: " +:+ m in
  fst r = st /\
  messages (snd r)
    = [Reply "error" [JObj [("message", JStr ("Follow-up failed: " +:+ msg))]]] /\
  (forall live sid, reached live sid (snd r) = {[sid]}) /\
  (forall p, ~ In (DiskWrite p) (snd r)) /\
  (DEFAULT_PROVIDER (config st) = "gemini" -> GEMINI_API_KEY (config st) = "" ->
   forall raw, ask_followup JSON_parse JSON_stringify data raw localeTime nowIso st = r).
Proof.
  intros r msg.
  assert (Hsettle : settle (followup_begin data st) (Thrown m) = Thrown msg)
    by apply followup_settle_thrown.
  assert (Hr : r = (st, Await (followup_begin data st)
                        :: helper_log (followup_begin data st) (Thrown m)
                           ++ [followup_failed msg])).
  { unfold r, ask_followup, followup_resume. cbv zeta. rewrite Hsettle. reflexivity. }
  rewrite Hr. cbn [fst snd]. split; [reflexivity|]. split; [|split; [|split]].
  - change (Await (followup_begin data st)
            :: helper_log (followup_begin data st) (Thrown m) ++ [followup_failed msg])
      with ([Await (followup_begin data st)]
            ++ helper_log (followup_begin data st) (Thrown m) ++ [followup_failed msg]).
    rewrite !messages_app, helper_log_messages. reflexivity.
  - intros live sid. rewrite reached_cons, reached_app, helper_log_reached, reached_single.
    unfold followup_failed. cbn [recipients]. rewrite !union_empty_l_L. reflexivity.
  - intros p [H|H]; [discriminate|].
    apply in_app_or in H as [H|[H|[]]]; [|discriminate].
    apply helper_log_In in H as [parts H]. discriminate.
  - intros Hp Hk raw. unfold ask_followup, followup_resume. cbv zeta.
    assert (Hc : followup_begin data st
                 = Refused "Gemini API Error: Gemini API Key is missing in settings.")
      by (apply followup_begin_no_key; assumption).
    assert (Hmsg : msg = "Gemini API Error: Gemini API Key is missing in settings.").
    { unfold msg. rewrite Hp, Hk. reflexivity. }
    rewrite Hmsg, Hc. reflexivity.
Qed.

(** X10 -- A follow-up that fails on the window is not stored.  When the window
    holds, at or before the first record the follow-up names, [null] or a
    record whose [thread] is truthy without being an array, the reply is
    already broadcast to every connection, the update throws, the asker gets
    [Follow-up failed], and neither the window nor the day's log is changed:
    the log is not rewritten even where it holds the record. *)
Theorem followup_failing_on_window
    (JSON_parse : string -> completion json) (JSON_stringify : json -> string)
    (data : FollowUp) (c : Call) (raw : completion string)
    (reply localeTime nowIso : string) (st : State) (pre post : list json) (item : json) :
  settle c raw = Normal reply ->
  history st = pre ++ item :: post ->
  Forall (fun v => id_is (parentId data) v = Normal false) pre ->
  breaks_update (parentId data) item ->
  exists msg,
    followup_resume JSON_parse JSON_stringify data c raw localeTime nowIso st
    = (st, [followup_shown data reply localeTime; followup_failed msg]).
Proof.
  intros Hs Hh Hpre Hbad.
  destruct (update_first_breaks (parentId data) (thread_entry data reply localeTime)
              item post pre Hpre Hbad) as [msg Hu].
  exists msg. unfold followup_resume. rewrite Hs. cbv zeta. rewrite Hh, Hu. reflexivity.
Qed.

Lemma followup_failing_on_window_witness :
  settle (followup_begin ask_odd odd_hub) (Normal "because") = Normal "because" /\
  history odd_hub = [] ++ odd_record :: [] /\
  breaks_update (parentId ask_odd) odd_record /\
  line_has_id (reader [odd_record]) (parentId ask_odd) (print odd_record) = true /\
  exists msg,
    followup_resume (reader [odd_record]) print ask_odd (followup_begin ask_odd odd_hub)
      (Normal "because") "8:05:00 AM" day2 odd_hub
    = (odd_hub, [followup_shown ask_odd "because" "8:05:00 AM"; followup_failed msg]).
Proof.
  assert (H1 : settle (followup_begin ask_odd odd_hub) (Normal "because") = Normal "because")
    by reflexivity.
  assert (H2 : history odd_hub = [] ++ odd_record :: []) by reflexivity.
  assert (H3 : Forall (fun v => id_is (parentId ask_odd) v = Normal false) [])
    by constructor.
  assert (H4 : breaks_update (parentId ask_odd) odd_record).
  { right. exists [("id", JStr "7"); ("answer", JStr "z"); ("thread", JStr "oops")],
                  (JStr "oops").
    split; [reflexivity|]. split; [reflexivity|]. split; [reflexivity|].
    split; [reflexivity|]. intros items; discriminate. }
  split; [exact H1|]. split; [exact H2|]. split; [exact H4|].
  split; [vm_compute; reflexivity|].
  exact (followup_failing_on_window (reader [odd_record]) print ask_odd
           (followup_begin ask_odd odd_hub) (Normal "because") "because" "8:05:00 AM"
           day2 odd_hub [] [] odd_record H1 H2 H3 H4).
Defined.

(** X11 -- A follow-up survives a restart.  When the day's log is the printed
    records [rs], one per line, a follow-up leaves the log as the same
    records in the same order, every record of the named id carrying the new
    thread entry at the end of its thread; a restart then loads exactly
    those, newest first.  When the window held these records and at most one
    of them has the id, the reloaded window is the window the running hub
    had after the follow-up. *)
Theorem followup_survives_restart
    (JSON_parse : string -> completion json) (JSON_stringify : json -> string)
    (data : FollowUp) (c : Call) (raw : completion string)
    (reply localeTime nowIso : string) (st : State) (rs : list json) :
  let entry := thread_entry data reply localeTime in
  let rs' := map (threaded (parentId data) entry) rs in
  settle c raw = Normal reply ->
  Forall is_record (history st) ->
  rs <> [] ->
  length rs <= 50 ->
  disk st !! jsonlPath nowIso = Some (content_of (map JSON_stringify rs)) ->
  Forall (prints_well JSON_parse JSON_stringify) rs ->
  Forall (prints_well JSON_parse JSON_stringify) rs' ->
  let st1 := fst (followup_resume JSON_parse JSON_stringify data c raw
                    localeTime nowIso st) in
  let reloaded := history (fst (loadHistory JSON_parse nowIso (restart st1))) in
  disk st1 !! jsonlPath nowIso = Some (content_of (map JSON_stringify rs')) /\
  reloaded = rev rs' /\
  (history st = rev rs -> at_most_once (parentId data) rs -> reloaded = history st1).
Proof.
  intros entry rs' Hs Hrec Hne Hlen Hdisk Hrs Hrs' st1 reloaded.
  destruct (update_first_records (parentId data) entry (history st) Hrec) as [h Hu].
  assert (Hne' : rs' <> []) by (unfold rs'; destruct rs; [congruence|discriminate]).
  assert (Hst1 : st1 = writeFileSync (jsonlPath nowIso)
                         (content_of (map JSON_stringify rs')) (set_history h st)).
  { unfold st1. rewrite (followup_resume_replied JSON_parse JSON_stringify data c raw
                           reply localeTime nowIso st h Hs Hu).
    cbv zeta. rewrite Hdisk. cbn [fst]. f_equal.
    rewrite rewritten_lines.
    rewrite bucket_lines_content_of by (apply (canonical_printed JSON_parse); assumption).
    fold entry. rewrite (rewrite_lines_printed JSON_parse JSON_stringify _ _ rs Hrs). fold rs'.
    apply join_content_of. destruct rs'; [congruence|discriminate]. }
  assert (Hlog : disk st1 !! jsonlPath nowIso = Some (content_of (map JSON_stringify rs'))).
  { rewrite Hst1. unfold writeFileSync, set_disk. cbn [disk]. apply lookup_insert_eq. }
  assert (Hload : reloaded = rev rs').
  { unfold reloaded.
    rewrite (loadHistory_existing JSON_parse nowIso (restart st1)
               (content_of (map JSON_stringify rs')) Hlog).
    cbv zeta. cbn [fst history set_history restart].
    rewrite bucket_lines_content_of by (apply (canonical_printed JSON_parse); assumption).
    assert (Hp : parsed JSON_parse (map JSON_stringify rs') = rs').
    { apply parsed_printed. eapply List.Forall_impl; [|exact Hrs'].
      intros r Hr. apply Hr. }
    rewrite Hp, List.app_nil_r. apply List.firstn_all2.
    rewrite List.length_rev. unfold rs'. rewrite List.length_map. exact Hlen. }
  split; [exact Hlog|]. split; [exact Hload|].
  intros Hwin Hone. rewrite Hload, Hst1.
  change (history (writeFileSync (jsonlPath nowIso)
                     (content_of (map JSON_stringify rs')) (set_history h st))) with h.
  assert (Huniq : update_first (parentId data) entry (history st)
                  = Normal (map (threaded (parentId data) entry) (history st))).
  { apply update_first_unique; [exact Hrec|]. rewrite Hwin. unfold at_most_once in *.
    rewrite List.filter_rev, List.length_rev. exact Hone. }
  rewrite Huniq in Hu. injection Hu as <-. rewrite Hwin. unfold rs'.
  symmetry. apply List.map_rev.
Qed.

Lemma followup_survives_restart_witness :
  settle (followup_begin ask_morning morning_only) (Normal "because") = Normal "because" /\
  Forall is_record (history morning_only) /\
  disk morning_only !! jsonlPath day2 = Some (content_of (map print [morning_record])) /\
  history (fst (loadHistory parse_threads day2
                  (restart (fst (followup_resume parse_threads print ask_morning
                                   (followup_begin ask_morning morning_only)
                                   (Normal "because") "8:05:00 AM" day2 morning_only)))))
  = rev (map (threaded (parentId ask_morning)
                (thread_entry ask_morning "because" "8:05:00 AM")) [morning_record]).
Proof.
  assert (H1 : settle (followup_begin ask_morning morning_only) (Normal "because")
               = Normal "because") by reflexivity.
  assert (H2 : Forall is_record (history morning_only))
    by (repeat constructor).
  assert (H3 : [morning_record] <> []) by discriminate.
  assert (H4 : length [morning_record] <= 50) by (simpl; lia).
  assert (H5 : disk morning_only !! jsonlPath day2
               = Some (content_of (map print [morning_record])))
    by (vm_compute; reflexivity).
  assert (H6 : Forall (prints_well parse_threads print) [morning_record]).
  { constructor; [|constructor]. unfold prints_well. vm_compute. auto. }
  assert (H7 : Forall (prints_well parse_threads print)
                 (map (threaded (parentId ask_morning)
                         (thread_entry ask_morning "because" "8:05:00 AM"))
                      [morning_record])).
  { constructor; [|constructor]. unfold prints_well. vm_compute. auto. }
  destruct (followup_survives_restart parse_threads print ask_morning
              (followup_begin ask_morning morning_only) (Normal "because") "because"
              "8:05:00 AM" day2 morning_only [morning_record] H1 H2 H3 H4 H5 H6 H7)
    as (_ & Hload & _).
  split; [exact H1|]. split; [exact H2|]. split; [exact H5|]. exact Hload.
Defined.

End MoreFollowUpFacts.

(* ===================================================================== *)
(** ** Newcomers and pairing requests *)
(* ===================================================================== *)

Module SessionFacts.
Import Js Hub Notions Notions2 PairingStore Registry Samples Samples2.
Import RegistryFacts RelayFacts PairingMoreFacts.

(** X24 -- A newcomer is brought up to date.  While every stored device carries its
    connection id, a new connection is sent, and it alone, the history window
    and then the device list as [broadcastDevices] would build it; nothing
    changes.  [request_history] sends the same window again, to the asker
    alone. *)
Theorem newcomer_is_up_to_date (sid : string) (sv : Server) :
  registry_ok (connectedDevices sv) ->
  let r := on_connection sid sv in
  fst r = sv /\
  messages (snd r)
    = [Reply "history_update" [JArr (recent (core sv))];
       Reply "device_list" [entries_list (connectedDevices sv)]] /\
  (forall live, reached live sid (snd r) = {[sid]}) /\
  request_history sid sv = (sv, [Reply "history_update" [JArr (recent (core sv))]]) /\
  (forall live, reached live sid (snd (request_history sid sv)) = {[sid]}).
Proof.
  intros Hok r. unfold r, on_connection, request_history. cbn [fst snd].
  split; [reflexivity|]. split.
  - unfold messages. cbn [List.filter event_of].
    rewrite (entries_values _ Hok). reflexivity.
  - split; [|split; [reflexivity|]].
    + intros live. rewrite !reached_cons, reached_nil. cbn [recipients].
      rewrite union_empty_l_L, union_empty_r_L. apply union_idemp_L.
    + intros live. rewrite reached_single. reflexivity.
Qed.

Lemma newcomer_is_up_to_date_witness :
  registry_ok (connectedDevices both_online) /\
  messages (snd (on_connection "s3" both_online))
  = [Reply "history_update" [JArr []];
     Reply "device_list" [entries_list (connectedDevices both_online)]].
Proof.
  pose proof both_online_ok as Hok.
  destruct (newcomer_is_up_to_date "s3" both_online Hok) as (_ & Hmsg & _).
  split; [exact Hok|]. exact Hmsg.
Defined.

(** X25 -- A pairing request is relayed and stored nowhere.  [request_pair] leaves
    the hub as it is and sends one message, to the connection it names and to
    no other; the message carries the device id and name the asker claims
    and the asker's connection id.  When the target is not connected, nobody
    gets anything. *)
Theorem pair_request_is_relayed (live : gset string) (sid : string)
    (data : PairRequest) (sv : Server) :
  let r := request_pair sid data sv in
  fst r = sv /\
  snd r = [ToRoom (rp_targetId data) "pair_request_received"
             [JObj [("originId", JStr (rp_originId data));
                    ("originName", JStr (rp_originName data));
                    ("originSocketId", JStr sid)]]] /\
  (forall x, x ∈ reached live sid (snd r) -> x = rp_targetId data /\ x ∈ live) /\
  (rp_targetId data ∈ live -> reached live sid (snd r) = {[rp_targetId data]}) /\
  (rp_targetId data ∉ live -> reached live sid (snd r) = ∅).
Proof.
  intros r. unfold r, request_pair. cbn [fst snd].
  split; [reflexivity|]. split; [reflexivity|].
  rewrite reached_single. cbn [recipients].
  destruct (decide (rp_targetId data ∈ live)) as [Hin|Hout].
  - split; [|split; [reflexivity|contradiction]].
    intros x Hx. apply elem_of_singleton in Hx. subst x. split; [reflexivity|exact Hin].
  - split; [|split; [contradiction|reflexivity]].
    intros x Hx. apply elem_of_empty in Hx. contradiction.
Qed.

End SessionFacts.
